(** * FilePizza uploader: connection protocol and channel destroy route

    A shallow embedding of

    - [useUploaderConnections] (the uploader side of the peer protocol:
      handshake, password gate, chunked delivery with pause and resume,
      the report branch of the connection listener),
    - the [POST] handler of the destroy route, and
    - [useUploaderChannel] (the links, the renewal timer and the beacon
      sent when the page unloads),

    followed by the properties the specification states about them.

    Conventions of the embedding.

    - A [DataConnection] object is identified by a number ([connId]); the
      runtime hands out a fresh one for every incoming connection, which is
      how [c.dataConnection === conn] is decided.
    - JavaScript numbers that hold offsets and sizes are integers ([Z]),
      added and subtracted exactly.  The code computes in IEEE doubles,
      which agrees with this for integers of magnitude below 2^53, hence
      for every offset from [MIN_SAFE_INTEGER] up to the size of a file;
      what is stated about the arithmetic of chunks is stated for such
      offsets.
    - Every updater passed to [setConnections] is applied once, at the place
      where it is enqueued.
    - [conn.send], [conn.close] and the assignment to
      [window.location.href] are recorded as output actions; the transport's
      own events (data, close) and the firing of a timer are input events.
    - The session is followed through one run of the effect: [peer],
      [files] and [password] stay what they were when it ran. *)

From stdpp Require Import gmap strings list fin_maps.
From Stdlib Require Import ZArith QArith Lia.
From Stdlib.Strings Require Import Byte.

Local Open Scope Z_scope.

(** ** Data model *)

Module UploaderConnectionStatus.

Inductive t :=
| Pending
| Paused
| Uploading
| Ready
| Done
| Authenticating
| InvalidPassword
| Closed.

End UploaderConnectionStatus.

Abbreviation Status := UploaderConnectionStatus.t.

(** The file as the uploader holds it.  [getFileName] is the name the helper
    of the same name (module [fs], outside the sources at hand) yields for
    the file; [content] is the blob behind [file.slice] and [file.size]. *)
Record UploadedFile := {
  getFileName : string;
  type : string;
  content : list byte;
}.

Definition size (file : UploadedFile) : Z := Z.of_nat (length (content file)).

(** [Blob.slice(start, end)] as the File API defines it: negative arguments
    count from the end, everything is clamped to the blob. *)
Definition slice (file : UploadedFile) (start end_ : Z) : list byte :=
  let relativeStart :=
    if start <? 0 then Z.max (size file + start) 0 else Z.min start (size file) in
  let relativeEnd :=
    if end_ <? 0 then Z.max (size file + end_) 0 else Z.min end_ (size file) in
  let span := Z.max (relativeEnd - relativeStart) 0 in
  take (Z.to_nat span) (drop (Z.to_nat relativeStart) (content file)).

Record FileInfo := {
  fi_fileName : string;
  fi_size : Z;
  fi_type : string;
}.

(** The message union of the protocol (module [messages]); constructors are
    the members of [MessageType]. *)
Module MessageType.

Inductive Message :=
| RequestInfo (browserName browserVersion osName osVersion : string)
              (mobileVendor mobileModel : option string)
| PasswordRequired (errorMessage : option string)
| UsePassword (password : string)
| Info (files : list FileInfo)
| Start (fileName : string) (offset : Z)
| Pause
| Chunk (fileName : string) (offset : Z) (bytes : list byte) (final : bool)
| Done
| Report.

End MessageType.

Abbreviation Message := MessageType.Message.

Record DataConnection := {
  connId : nat;
  peer : string;
  metadataType : option string;
}.

(** [currentFileProgress] is a quotient of two numbers; it is kept as the
    exact fraction (a zero denominator is the NaN of an empty file). *)
Inductive Progress := Ratio (num den : Z).

Record UploaderConnection := {
  status : Status;
  dataConnection : DataConnection;
  completedFiles : nat;
  totalFiles : nat;
  currentFileProgress : Progress;
  browserName : option string;
  browserVersion : option string;
  osName : option string;
  osVersion : option string;
  mobileVendor : option string;
  mobileModel : option string;
  uploadingFileName : option string;
  uploadingOffset : option Z;
}.

(** [{ ...draft, status }] *)
Definition withStatus (draft : UploaderConnection) (st : Status) : UploaderConnection :=
  {| status := st;
     dataConnection := dataConnection draft;
     completedFiles := completedFiles draft;
     totalFiles := totalFiles draft;
     currentFileProgress := currentFileProgress draft;
     browserName := browserName draft;
     browserVersion := browserVersion draft;
     osName := osName draft;
     osVersion := osVersion draft;
     mobileVendor := mobileVendor draft;
     mobileModel := mobileModel draft;
     uploadingFileName := uploadingFileName draft;
     uploadingOffset := uploadingOffset draft |}.

(** [{ ...draft, ...newConnectionState, status }] of the RequestInfo case *)
Definition withClient (draft : UploaderConnection)
    (bn bv on ov : string) (mv mm : option string) (st : Status) : UploaderConnection :=
  {| status := st;
     dataConnection := dataConnection draft;
     completedFiles := completedFiles draft;
     totalFiles := totalFiles draft;
     currentFileProgress := currentFileProgress draft;
     browserName := Some bn;
     browserVersion := Some bv;
     osName := Some on;
     osVersion := Some ov;
     mobileVendor := mv;
     mobileModel := mm;
     uploadingFileName := uploadingFileName draft;
     uploadingOffset := uploadingOffset draft |}.

(** [{ ...draft, status: Uploading, uploadingFileName, uploadingOffset,
       currentFileProgress }] of the Start case *)
Definition withUpload (draft : UploaderConnection)
    (fileName : string) (offset : Z) (p : Progress) : UploaderConnection :=
  {| status := UploaderConnectionStatus.Uploading;
     dataConnection := dataConnection draft;
     completedFiles := completedFiles draft;
     totalFiles := totalFiles draft;
     currentFileProgress := p;
     browserName := browserName draft;
     browserVersion := browserVersion draft;
     osName := osName draft;
     osVersion := osVersion draft;
     mobileVendor := mobileVendor draft;
     mobileModel := mobileModel draft;
     uploadingFileName := Some fileName;
     uploadingOffset := Some offset |}.

(** [{ ...draft, uploadingOffset: end, currentFileProgress }] after a chunk
    that is not the last *)
Definition withOffset (draft : UploaderConnection) (end_ : Z) (p : Progress)
    : UploaderConnection :=
  {| status := status draft;
     dataConnection := dataConnection draft;
     completedFiles := completedFiles draft;
     totalFiles := totalFiles draft;
     currentFileProgress := p;
     browserName := browserName draft;
     browserVersion := browserVersion draft;
     osName := osName draft;
     osVersion := osVersion draft;
     mobileVendor := mobileVendor draft;
     mobileModel := mobileModel draft;
     uploadingFileName := uploadingFileName draft;
     uploadingOffset := Some end_ |}.

(** [{ ...draft, status: Ready, completedFiles: draft.completedFiles + 1,
       currentFileProgress: 0 }] after the last chunk *)
Definition withCompleted (draft : UploaderConnection) : UploaderConnection :=
  {| status := UploaderConnectionStatus.Ready;
     dataConnection := dataConnection draft;
     completedFiles := S (completedFiles draft);
     totalFiles := totalFiles draft;
     currentFileProgress := Ratio 0 1;
     browserName := browserName draft;
     browserVersion := browserVersion draft;
     osName := osName draft;
     osVersion := osVersion draft;
     mobileVendor := mobileVendor draft;
     mobileModel := mobileModel draft;
     uploadingFileName := uploadingFileName draft;
     uploadingOffset := uploadingOffset draft |}.

(** ** Constants and helpers of [useUploaderConnections] *)

Definition MAX_CHUNK_SIZE : Z := 128 * 1024.

(** [Number.MIN_SAFE_INTEGER].  From it up to its opposite every integer is
    a double, and sums and differences that stay in that range are exact. *)
Definition MIN_SAFE_INTEGER : Z := - (2 ^ 53 - 1).

(** [validateOffset]: [None] stands for the thrown
    [Error('invalid file offset')]. *)
Definition validateOffset (files : list UploadedFile) (fileName : string)
    (offset : Z) : option UploadedFile :=
  List.find
    (fun file => String.eqb (getFileName file) fileName && (offset <=? size file))
    files.

(** ** Runtime state *)

(** What the callback handed to [setTimeout] by [sendNextChunkAsync] closes
    over: the connection, the validated file, and the [fileName] and
    [offset] of the Start message being served.  [offset] is a variable of
    that Start handler; only the callback of its own chain assigns it
    ([offset = end]) and it does so before it schedules its successor, so
    the value a pending callback will read is kept with it. *)
Record ChunkTask := {
  task_conn : DataConnection;
  task_file : UploadedFile;
  task_fileName : string;
  task_offset : Z;
}.

(** The variables of one call of the connection listener that its handlers
    share: the connection itself and [sendChunkTimeout]. *)
Record Closure := {
  cl_conn : DataConnection;
  sendChunkTimeout : option nat;
}.

(** The part of the state that updaters reach by side effect.
    [closures !! c] belongs to the listener call that registered the
    handlers of connection [c] (absent: no handler is registered for [c]);
    [timeouts] are the pending timers, [nextTimeout] the identifier the next
    [setTimeout] returns. *)
Record Runtime := {
  closures : gmap nat Closure;
  timeouts : gmap nat ChunkTask;
  nextTimeout : nat;
}.

(** [conns] is the React state behind [setConnections]; [connections] is
    the value of the [connections] binding the listener closed over when the
    effect ran. *)
Record Session := {
  conns : list UploaderConnection;
  connections : list UploaderConnection;
  runtime : Runtime;
  nextConn : nat;
}.

Inductive Action :=
| DoSend (conn : nat) (message : Message)
| DoClose (conn : nat)
| DoRedirect (href : string).

(** Inputs of the session.  [OnData] carries what [decodeMessage] makes of
    the payload, [None] when it throws. *)
Inductive Event :=
| OnConnection (peer : string) (metadataType : option string)
| OnData (conn : nat) (decoded : option Message)
| OnClose (conn : nat)
| OnTimeout (timer : nat).

Definition withConns (s : Session) (cs : list UploaderConnection) (rt : Runtime) : Session :=
  {| conns := cs; connections := connections s; runtime := rt; nextConn := nextConn s |}.

(** An updater as [updateConnection] receives it, with the effects it has
    on timers and on the wire. *)
Definition Updater : Type :=
  UploaderConnection -> Runtime -> UploaderConnection * Runtime * list Action.

Definition pureUpdater (fn : UploaderConnection -> UploaderConnection) : Updater :=
  fun draft rt => (fn draft, rt, []).

(** [conns.map((c) => (c.dataConnection === conn ? fn(c) : c))] *)
Fixpoint mapConns (conn : DataConnection) (fn : Updater)
    (cs : list UploaderConnection) (rt : Runtime)
    : list UploaderConnection * Runtime * list Action :=
  match cs with
  | [] => ([], rt, [])
  | c :: rest =>
      let '(c', rt1, out1) :=
        if Nat.eqb (connId (dataConnection c)) (connId conn) then fn c rt
        else (c, rt, []) in
      let '(rest', rt2, out2) := mapConns conn fn rest rt1 in
      (c' :: rest', rt2, out1 ++ out2)
  end.

Definition updateConnection (conn : DataConnection) (fn : Updater) (s : Session)
    : Session * list Action :=
  let '(cs, rt, out) := mapConns conn fn (conns s) (runtime s) in
  (withConns s cs rt, out).

(** [sendChunkTimeout = setTimeout(callback, 0)] *)
Definition sendNextChunkAsync (conn : DataConnection) (file : UploadedFile)
    (fileName : string) (offset : Z) (rt : Runtime) : Runtime :=
  let timer := nextTimeout rt in
  {| closures :=
       <[connId conn := {| cl_conn := conn; sendChunkTimeout := Some timer |}]>
         (closures rt);
     timeouts :=
       <[timer := {| task_conn := conn; task_file := file;
                     task_fileName := fileName; task_offset := offset |}]>
         (timeouts rt);
     nextTimeout := S timer |}.

(** [clearTimeout(timer)] *)
Definition clearTimeout (timer : nat) (rt : Runtime) : Runtime :=
  {| closures := closures rt;
     timeouts := delete timer (timeouts rt);
     nextTimeout := nextTimeout rt |}.

(** [sendChunkTimeout = null] *)
Definition resetSendChunkTimeout (conn : DataConnection) (rt : Runtime) : Runtime :=
  {| closures :=
       <[connId conn := {| cl_conn := conn; sendChunkTimeout := None |}]> (closures rt);
     timeouts := timeouts rt;
     nextTimeout := nextTimeout rt |}.

(** The value of [sendChunkTimeout] as the handlers of [conn] see it.  The
    identifiers [setTimeout] returns are positive, so [if (sendChunkTimeout)]
    asks whether it is other than [null]. *)
Definition readSendChunkTimeout (conn : DataConnection) (rt : Runtime) : option nat :=
  match closures rt !! connId conn with
  | Some cl => sendChunkTimeout cl
  | None => None
  end.

Definition isReady (st : Status) : bool :=
  match st with UploaderConnectionStatus.Ready => true | _ => false end.
Definition isPaused (st : Status) : bool :=
  match st with UploaderConnectionStatus.Paused => true | _ => false end.
Definition isPending (st : Status) : bool :=
  match st with UploaderConnectionStatus.Pending => true | _ => false end.
Definition isUploading (st : Status) : bool :=
  match st with UploaderConnectionStatus.Uploading => true | _ => false end.
Definition isAuthenticating (st : Status) : bool :=
  match st with UploaderConnectionStatus.Authenticating => true | _ => false end.
Definition isInvalidPassword (st : Status) : bool :=
  match st with UploaderConnectionStatus.InvalidPassword => true | _ => false end.
Definition isDone (st : Status) : bool :=
  match st with UploaderConnectionStatus.Done => true | _ => false end.

Section Uploader.

(** The arguments of the hook that the effect depends on. *)
Variable files : list UploadedFile.
Variable password : string.

(** [files.map((f) => ({ fileName: getFileName(f), size: f.size, type: f.type }))] *)
Definition fileInfo : list FileInfo :=
  List.map
    (fun f => {| fi_fileName := getFileName f; fi_size := size f; fi_type := type f |})
    files.

(** [if (password)]: a string is truthy unless it is empty. *)
Definition passwordSet : bool := negb (String.eqb password "").

(** The callback [sendNextChunkAsync] hands to [setTimeout].  The sum
    [offset + MAX_CHUNK_SIZE] and the difference [end - offset] are those of
    the integers; they are the code's as long as the offset is an integer of
    magnitude below 2^53 (see the conventions above). *)
Definition sendChunk (task : ChunkTask) (s : Session) : Session * list Action :=
  let conn := task_conn task in
  let file := task_file task in
  let fileName := task_fileName task in
  let offset := task_offset task in
  let end_ := Z.min (size file) (offset + MAX_CHUNK_SIZE) in
  let chunkSize := end_ - offset in
  let final := chunkSize <? MAX_CHUNK_SIZE in
  let request := MessageType.Chunk fileName offset (slice file offset end_) final in
  let '(s', out) :=
    updateConnection conn
      (fun draft rt =>
         if final then (withCompleted draft, rt, [])
         else (withOffset draft end_ (Ratio end_ (size file)),
               sendNextChunkAsync conn file fileName end_ rt, []))
      s in
  (s', DoSend (connId conn) request :: out).

(** The [catch] block of [onData]. *)
Definition onDataCatch (conn : DataConnection) (s : Session) : Session * list Action :=
  let '(s', out) :=
    updateConnection conn
      (pureUpdater (fun draft => withStatus draft UploaderConnectionStatus.Closed)) s in
  (s', out ++ [DoClose (connId conn)]).

Definition onRequestInfo (conn : DataConnection)
    (bn bv on ov : string) (mv mm : option string) (s : Session)
    : Session * list Action :=
  if passwordSet then
    let '(s', out) :=
      updateConnection conn
        (pureUpdater (fun draft =>
           if negb (isPending (status draft)) then draft
           else withClient draft bn bv on ov mv mm UploaderConnectionStatus.Authenticating))
        s in
    (s', DoSend (connId conn) (MessageType.PasswordRequired None) :: out)
  else
    let '(s', out) :=
      updateConnection conn
        (pureUpdater (fun draft =>
           if negb (isPending (status draft)) then draft
           else withClient draft bn bv on ov mv mm UploaderConnectionStatus.Ready))
        s in
    (s', out ++ [DoSend (connId conn) (MessageType.Info fileInfo)]).

Definition onUsePassword (conn : DataConnection) (submittedPassword : string)
    (s : Session) : Session * list Action :=
  if String.eqb submittedPassword password then
    let '(s', out) :=
      updateConnection conn
        (pureUpdater (fun draft =>
           if negb (isAuthenticating (status draft))
              && negb (isInvalidPassword (status draft))
           then draft
           else withStatus draft UploaderConnectionStatus.Ready))
        s in
    (s', out ++ [DoSend (connId conn) (MessageType.Info fileInfo)])
  else
    let '(s', out) :=
      updateConnection conn
        (pureUpdater (fun draft =>
           if negb (isAuthenticating (status draft)) then draft
           else withStatus draft UploaderConnectionStatus.InvalidPassword))
        s in
    (s', out ++ [DoSend (connId conn)
                   (MessageType.PasswordRequired (Some "Invalid password"%string))]).

Definition onStart (conn : DataConnection) (fileName : string) (offset : Z)
    (s : Session) : Session * list Action :=
  match validateOffset files fileName offset with
  | None => onDataCatch conn s
  | Some file =>
      updateConnection conn
        (fun draft rt =>
           if negb (isReady (status draft)) && negb (isPaused (status draft))
           then (draft, rt, [])
           else (withUpload draft fileName offset (Ratio offset (size file)),
                 sendNextChunkAsync conn file fileName offset rt, []))
        s
  end.

Definition onPause (conn : DataConnection) (s : Session) : Session * list Action :=
  updateConnection conn
    (fun draft rt =>
       if negb (isUploading (status draft)) then (draft, rt, [])
       else
         let rt' :=
           match readSendChunkTimeout conn rt with
           | Some timer => resetSendChunkTimeout conn (clearTimeout timer rt)
           | None => rt
           end in
         (withStatus draft UploaderConnectionStatus.Paused, rt', []))
    s.

Definition onDone (conn : DataConnection) (s : Session) : Session * list Action :=
  updateConnection conn
    (fun draft rt =>
       if negb (isReady (status draft)) then (draft, rt, [])
       else (withStatus draft UploaderConnectionStatus.Done, rt,
             [DoClose (connId conn)]))
    s.

(** [onData]: [decoded] is the outcome of [decodeMessage(data)]. *)
Definition onData (conn : DataConnection) (decoded : option Message) (s : Session)
    : Session * list Action :=
  match decoded with
  | None => onDataCatch conn s
  | Some message =>
      match message with
      | MessageType.RequestInfo bn bv on ov mv mm => onRequestInfo conn bn bv on ov mv mm s
      | MessageType.UsePassword submittedPassword => onUsePassword conn submittedPassword s
      | MessageType.Start fileName offset => onStart conn fileName offset s
      | MessageType.Pause => onPause conn s
      | MessageType.Done => onDone conn s
      | MessageType.PasswordRequired _
      | MessageType.Info _
      | MessageType.Chunk _ _ _ _
      | MessageType.Report => (s, [])
      end
  end.

Definition onClose (conn : DataConnection) (s : Session) : Session * list Action :=
  let rt :=
    match readSendChunkTimeout conn (runtime s) with
    | Some timer => clearTimeout timer (runtime s)
    | None => runtime s
    end in
  updateConnection conn
    (pureUpdater (fun draft =>
       if isInvalidPassword (status draft) || isDone (status draft) then draft
       else withStatus draft UploaderConnectionStatus.Closed))
    (withConns s (conns s) rt).

Definition isReport (conn : DataConnection) : bool :=
  match metadataType conn with
  | Some t => String.eqb t "report"
  | None => false
  end.

Definition newConn (conn : DataConnection) : UploaderConnection :=
  {| status := UploaderConnectionStatus.Pending;
     dataConnection := conn;
     completedFiles := 0;
     totalFiles := length files;
     currentFileProgress := Ratio 0 1;
     browserName := None; browserVersion := None;
     osName := None; osVersion := None;
     mobileVendor := None; mobileModel := None;
     uploadingFileName := None; uploadingOffset := None |}.

(** The listener of the peer's [connection] event. *)
Definition listener (conn : DataConnection) (s : Session) : Session * list Action :=
  if isReport conn then
    (s,
     List.flat_map
       (fun c => [DoSend (connId (dataConnection c)) MessageType.Report;
                  DoClose (connId (dataConnection c))])
       (connections s)
     ++ [DoRedirect "/reported"])
  else
    ({| conns := newConn conn :: conns s;
        connections := connections s;
        runtime :=
          {| closures :=
               <[connId conn := {| cl_conn := conn; sendChunkTimeout := None |}]>
                 (closures (runtime s));
             timeouts := timeouts (runtime s);
             nextTimeout := nextTimeout (runtime s) |};
        nextConn := nextConn s |},
     []).

(** One event of the page's event loop. *)
Definition step (s : Session) (e : Event) : Session * list Action :=
  match e with
  | OnConnection peer metadataType =>
      listener {| connId := nextConn s; peer := peer; metadataType := metadataType |}
        {| conns := conns s; connections := connections s;
           runtime := runtime s; nextConn := S (nextConn s) |}
  | OnData c decoded =>
      match closures (runtime s) !! c with
      | Some cl => onData (cl_conn cl) decoded s
      | None => (s, [])
      end
  | OnClose c =>
      match closures (runtime s) !! c with
      | Some cl => onClose (cl_conn cl) s
      | None => (s, [])
      end
  | OnTimeout timer =>
      match timeouts (runtime s) !! timer with
      | Some task => sendChunk task (withConns s (conns s) (clearTimeout timer (runtime s)))
      | None => (s, [])
      end
  end.

(** The session when the effect has just run on first render:
    [useState([])], no handler, no timer (the identifiers [setTimeout]
    returns are positive). *)
Definition mount : Session :=
  {| conns := []; connections := [];
     runtime := {| closures := ∅; timeouts := ∅; nextTimeout := 1 |};
     nextConn := 0 |}.

(** A run of the event loop, with what each event put on the wire. *)
Fixpoint run (s : Session) (events : list Event) : Session * list (list Action) :=
  match events with
  | [] => (s, [])
  | e :: rest =>
      let '(s1, out) := step s e in
      let '(s2, outs) := run s1 rest in
      (s2, out :: outs)
  end.

End Uploader.

(** ** Observations on a session *)

Definition recId (r : UploaderConnection) : nat := connId (dataConnection r).

(** The record of connection [c] in the React state. *)
Definition recordOf (s : Session) (c : nat) : option UploaderConnection :=
  List.find (fun r => Nat.eqb (recId r) c) (conns s).

Definition statusOf (s : Session) (c : nat) : option Status :=
  match recordOf s c with
  | Some r => Some (status r)
  | None => None
  end.

(** The timer that [sendChunkTimeout] of connection [c] names, when it has
    not fired and has not been cleared. *)
Definition pendingTimer (s : Session) (c : nat) : option nat :=
  match closures (runtime s) !! c with
  | Some cl =>
      match sendChunkTimeout cl with
      | Some timer =>
          match timeouts (runtime s) !! timer with
          | Some _ => Some timer
          | None => None
          end
      | None => None
      end
  | None => None
  end.

(** The event loop lets the pending chunk timer of connection [c] fire, up
    to [n] times in a row, with no other event in between. *)
Fixpoint pump (files : list UploadedFile) (password : string)
    (c : nat) (n : nat) (s : Session) : Session * list Action :=
  match n with
  | O => (s, [])
  | S n' =>
      match pendingTimer s c with
      | Some timer =>
          let '(s1, out1) := step files password s (OnTimeout timer) in
          let '(s2, out2) := pump files password c n' s1 in
          (s2, out1 ++ out2)
      | None => (s, [])
      end
  end.

(** The emission loop in the words of the specification, run for at most [n]
    rounds: compute [end = min(fileSize, offset + CHUNK_SIZE)], emit
    [Chunk{fileName, offset, bytes[offset,end), final = (end-offset <
    CHUNK_SIZE)}], set [offset = end], and go on unless the chunk was final.
    The timers of [sendNextChunkAsync] are compared with it below. *)
Fixpoint chunksFrom (n : nat) (file : UploadedFile) (fileName : string)
    (offset : Z) : list Message :=
  match n with
  | O => []
  | S n' =>
      let end_ := Z.min (size file) (offset + MAX_CHUNK_SIZE) in
      let final := end_ - offset <? MAX_CHUNK_SIZE in
      MessageType.Chunk fileName offset (slice file offset end_) final
      :: (if final then [] else chunksFrom n' file fileName end_)
  end.

(** What that loop puts on the wire of connection [c]. *)
Definition emitted (c : nat) (file : UploadedFile) (fileName : string)
    (n : nat) (offset : Z) : list Action :=
  List.map (DoSend c) (chunksFrom n file fileName offset).

(** Number of timer firings that serve [file] from [offset] to its end. *)
Definition chunkCount (file : UploadedFile) (offset : Z) : nat :=
  Z.to_nat ((size file - offset) / MAX_CHUNK_SIZE + 1).

Definition chunkOffset (a : Action) : option Z :=
  match a with
  | DoSend _ (MessageType.Chunk _ offset _ _) => Some offset
  | _ => None
  end.

Definition chunkBytes (a : Action) : list byte :=
  match a with
  | DoSend _ (MessageType.Chunk _ _ bytes _) => bytes
  | _ => []
  end.

Definition chunkFinal (a : Action) : option bool :=
  match a with
  | DoSend _ (MessageType.Chunk _ _ _ final) => Some final
  | _ => None
  end.

Definition chunkLength (a : Action) : Z := Z.of_nat (length (chunkBytes a)).

Definition isChunkTo (c : nat) (fileName : string) (a : Action) : Prop :=
  match a with
  | DoSend c' (MessageType.Chunk fileName' _ _ _) => c' = c ∧ fileName' = fileName
  | _ => False
  end.

(** The payloads of the chunks in [out], one after the other. *)
Definition payload (out : list Action) : list byte :=
  List.concat (List.map chunkBytes out).

(** ** Well-formed sessions *)

Definition ids (s : Session) : list nat := List.map recId (conns s).

(** Closures and timers refer to connections that have a record, a closure
    is filed under the identity of its own connection, and every record has
    its closure (handlers are never taken off in the course of the effect). *)
Definition RuntimeOk (l : list nat) (rt : Runtime) : Prop :=
  (forall c cl, closures rt !! c = Some cl -> connId (cl_conn cl) = c /\ In c l)
  /\ (forall t task, timeouts rt !! t = Some task -> In (connId (task_conn task)) l)
  /\ (forall c, In c l -> is_Some (closures rt !! c)).

(** The session the events have led to since the effect ran. *)
Definition reach (files : list UploadedFile) (password : string)
    (events : list Event) : Session :=
  fst (run files password mount events).

(** [conns] with the record of [c] replaced by [r]. *)
Definition setRecord (c : nat) (r : UploaderConnection)
    (cs : list UploaderConnection) : list UploaderConnection :=
  List.map (fun x => if Nat.eqb (recId x) c then r else x) cs.

(** One record per connection, identities handed out so far are below
    [nextConn], and the runtime is consistent with the records. *)
Definition Inv (s : Session) : Prop :=
  NoDup (ids s)
  /\ (forall c, In c (ids s) -> (c < nextConn s)%nat)
  /\ RuntimeOk (ids s) (runtime s).

(** ** The password gate *)

(** The statuses on the far side of the handshake. *)
Definition pastGate (st : Status) : bool :=
  match st with
  | UploaderConnectionStatus.Ready
  | UploaderConnectionStatus.Uploading
  | UploaderConnectionStatus.Paused
  | UploaderConnectionStatus.Done => true
  | _ => false
  end.

(** Among [events] there is a UsePassword of connection [c] that carries
    the configured password, arrived while [c] was [Authenticating] or
    [InvalidPassword], and moved it to [Ready]. *)
Definition authenticatedBy (files : list UploadedFile) (password : string)
    (events : list Event) (c : nat) : Prop :=
  exists before after,
    events = before ++ OnData c (Some (MessageType.UsePassword password)) :: after
    /\ (statusOf (reach files password before) c
         = Some UploaderConnectionStatus.Authenticating
        \/ statusOf (reach files password before) c
           = Some UploaderConnectionStatus.InvalidPassword)
    /\ statusOf (reach files password
                   (before ++ [OnData c (Some (MessageType.UsePassword password))])) c
       = Some UploaderConnectionStatus.Ready.

(** Every record past the gate, and every pending chunk timer, belongs to a
    connection for which [Q] holds. *)
Definition gated (Q : nat -> Prop) (cs : list UploaderConnection) (rt : Runtime) : Prop :=
  (forall r, In r cs -> pastGate (status r) = true -> Q (recId r))
  /\ (forall t task, timeouts rt !! t = Some task -> Q (connId (task_conn task))).

(** ** Chunk chains *)

(** Connection [conn] is [Uploading] and its pending chunk timer is about to
    serve [file] from [offset]. *)
Definition chainAt (s : Session) (conn : DataConnection) (file : UploadedFile)
    (fileName : string) (offset : Z) : Prop :=
  Inv s
  /\ exists timer r,
       closures (runtime s) !! connId conn
       = Some {| cl_conn := conn; sendChunkTimeout := Some timer |}
       /\ timeouts (runtime s) !! timer
          = Some {| task_conn := conn; task_file := file;
                    task_fileName := fileName; task_offset := offset |}
       /\ recordOf s (connId conn) = Some r
       /\ status r = UploaderConnectionStatus.Uploading.

(** The chunks of [out] follow one another from [offset] on: each starts at
    the byte where the one before it ended. *)
Fixpoint contiguousFrom (offset : Z) (out : list Action) : Prop :=
  match out with
  | [] => True
  | a :: rest =>
      chunkOffset a = Some offset /\ contiguousFrom (offset + chunkLength a) rest
  end.

(** ** The destroy route *)

Module DestroyRoute.

(** A JSON value, as [JSON.parse] yields it.  A number is the value of the
    double it parses to (a literal beyond the doubles parses to an infinity,
    which the handler treats as any other non-zero number). *)
#[local] Unset Elimination Schemes.
Inductive Json :=
| JNull
| JBool (b : bool)
| JNumber (n : Q)
| JString (s : string)
| JArray (items : list Json)
| JObject (fields : gmap string Json).
#[local] Set Elimination Schemes.

(** Truthiness of a JSON value: [null], [false], zero and the empty string
    are falsy, everything else (arrays and objects too) is truthy. *)
Definition truthy (v : Json) : bool :=
  match v with
  | JNull => false
  | JBool b => b
  | JNumber n => negb (Qeq_bool n 0)
  | JString s => negb (String.eqb s "")
  | JArray _ | JObject _ => true
  end.

(** [v.slug] for a value [v] other than [null]: the field of an object;
    [undefined] ([None]) when the object has no such field and for every
    array, string, number and boolean. *)
Definition slugOf (v : Json) : option Json :=
  match v with
  | JObject fields => fields !! "slug"%string
  | _ => None
  end.

Inductive ResponseBody :=
| ErrorBody (error : string)
| SuccessBody (success : bool).

Record NextResponse := {
  body : ResponseBody;
  httpStatus : nat;
}.

(** How a call of the handler ends: it returns a response, or it throws
    (its promise rejects) and what is answered is up to the framework. *)
Inductive Outcome :=
| Returns (response : NextResponse)
| Throws.

Section Route.

Context {Repo : Type}.

(** [getOrCreateChannelRepo().destroyChannel(slug)], called on whatever
    value [slug] holds.  The repository lives in module [channel], outside
    the sources at hand; the handler sees the repository the call leaves
    behind and whether the promise resolved ([true]) or rejected
    ([false]). *)
Variable destroyChannel : Json -> Repo -> Repo * bool.

(** [POST].  [request] is what [await request.json()] does: [None] when it
    rejects (the body is empty or is not JSON), the parsed value otherwise.
    That call and the destructuring [const { slug } = ...], which throws on
    [null], stand before the [try]. *)
Definition POST (request : option Json) (repo : Repo) : Outcome * Repo :=
  match request with
  | None => (Throws, repo)
  | Some JNull => (Throws, repo)
  | Some v =>
      let slug := slugOf v in
      match slug with
      | None =>
          (Returns {| body := ErrorBody "Slug is required"; httpStatus := 400 |}, repo)
      | Some slug =>
          if negb (truthy slug) then
            (Returns {| body := ErrorBody "Slug is required"; httpStatus := 400 |}, repo)
          else
            let '(repo', resolved) := destroyChannel slug repo in
            if resolved then
              (Returns {| body := SuccessBody true; httpStatus := 200 |}, repo')
            else
              (Returns {| body := ErrorBody "Failed to destroy channel";
                          httpStatus := 500 |}, repo')
      end
  end.

End Route.

(** Modelled from the spec: the channel record of the directory, which module
    [channel] (absent from the sources) defines: short slug as primary key,
    long slug as alias, owner, secret, creation and expiry times. *)
Record ChannelRecord := {
  shortSlug : string;
  longSlug : string;
  ownerPeerID : string;
  secret : string;
  createdAt : Z;
  expiresAt : Z;
}.

(** Modelled from the spec: a slug addresses a record as its short slug or as
    its long alias. *)
Definition addresses (slug : string) (ch : ChannelRecord) : bool :=
  String.eqb (shortSlug ch) slug || String.eqb (longSlug ch) slug.

(** Modelled from the spec: [destroy(slug)] of the channel repository (module
    [channel] is absent from the sources): it removes the record the slug
    addresses, asks for no secret, and always succeeds, also when no such
    record exists. *)
Definition destroy (slug : string) (repo : list ChannelRecord)
    : list ChannelRecord * bool :=
  (List.filter (fun ch => negb (addresses slug ch)) repo, true).

(** Modelled from the spec: [destroyChannel] of the channel repository as
    the handler calls it, on the value [slug] holds: [destroy] for a string;
    a value that is not a string is the slug of no record. *)
Definition destroyChannel (slug : Json) (repo : list ChannelRecord)
    : list ChannelRecord * bool :=
  match slug with
  | JString slug => destroy slug repo
  | _ => (repo, true)
  end.

(** Modelled from the spec: [resolve(slug)] of the channel repository at time
    [now]: the owner of the record the slug addresses, provided it has not
    expired ([expiresAt > now]); [None] is [NotFound]. *)
Definition resolve (now : Z) (slug : string) (repo : list ChannelRecord)
    : option string :=
  match List.find (fun ch => addresses slug ch && (now <? expiresAt ch)) repo with
  | Some ch => Some (ownerPeerID ch)
  | None => None
  end.

End DestroyRoute.

(** ** The channel of the uploader (hook [useUploaderChannel]) *)

Module UploaderChannel.

(** The fields of [window.location] that [generateURL] reads. *)
Record Location := {
  protocol : string;
  hostname : string;
  port : string;
}.

Definition generateURL (location : Location) (slug : string) : string :=
  let hostPrefix :=
    String.append
      (String.append (String.append (protocol location) "//") (hostname location))
      (if negb (String.eqb (port location) "")
       then String.append ":" (port location)
       else ""%string) in
  String.append (String.append hostPrefix "/download/") slug.

(** [data] of the query, as far as the hook reads it: the fields of the
    response of /api/create, each a string or missing. *)
Record ChannelData := {
  secret : option string;
  longSlug : option string;
  shortSlug : option string;
}.

(** Truthiness of a value that is a string or [undefined]. *)
Definition truthy (v : option string) : bool :=
  match v with
  | Some s => negb (String.eqb s "")
  | None => false
  end.

(** What the hook puts on the network: [fetch(url, { method: 'POST', body })]
    and [navigator.sendBeacon(url, body)], with the object handed to
    [JSON.stringify] as the body. *)
Inductive Request :=
| Fetch (url : string) (body : gmap string string)
| SendBeacon (url : string) (body : gmap string string).

(** A field of an object literal under [JSON.stringify]: a field whose value
    is [undefined] is left out. *)
Definition jsonField (key : string) (v : option string) (o : gmap string string)
    : gmap string string :=
  match v with
  | Some x => <[key := x]> o
  | None => o
  end.

(** What [request.json()] yields at the receiving route for the text
    [JSON.stringify] makes of such an object: an object with the same
    fields, each a string. *)
Definition received (o : gmap string string) : option DestroyRoute.Json :=
  Some (DestroyRoute.JObject (DestroyRoute.JString <$> o)).

(** The renewal effect while it is installed: its variable [timeout], the
    timers it has set that have neither fired nor been cleared, and the
    identifier the next [setTimeout] returns. *)
Record Renewal := {
  timeout : option nat;
  pending : gset nat;
  nextTimer : nat;
}.

(** What happens to an installed renewal effect: one of its timers comes
    due, or React runs its cleanup. *)
Inductive EffectEvent :=
| Timeout (timer : nat)
| Cleanup.

Section Hook.

Variable data : option ChannelData.

(** [data?.secret], [data?.longSlug], [data?.shortSlug] *)
Definition secretOf : option string :=
  match data with Some d => secret d | None => None end.
Definition longSlugOf : option string :=
  match data with Some d => longSlug d | None => None end.
Definition shortSlugOf : option string :=
  match data with Some d => shortSlug d | None => None end.

(** [longSlug ? generateURL(longSlug) : undefined] *)
Definition longURL (location : Location) : option string :=
  match longSlugOf with
  | Some slug => if truthy (Some slug) then Some (generateURL location slug) else None
  | None => None
  end.

Definition shortURL (location : Location) : option string :=
  match shortSlugOf with
  | Some slug => if truthy (Some slug) then Some (generateURL location slug) else None
  | None => None
  end.

(** [renewMutation.mutate({ secret: s })]: the request [mutationFn] makes. *)
Definition mutate (s : option string) : list Request :=
  [Fetch "/api/renew" (jsonField "slug" shortSlugOf (jsonField "secret" s ∅))].

(** [run]: [timeout = setTimeout(..., renewInterval)]. *)
Definition run (e : Renewal) : Renewal :=
  {| timeout := Some (nextTimer e);
     pending := {[nextTimer e]} ∪ pending e;
     nextTimer := S (nextTimer e) |}.

(** The callback handed to [setTimeout], when timer [timer] comes due (a
    timer that is not pending does not come due):
    [renewMutation.mutate({ secret }); run()]. *)
Definition onTimeout (timer : nat) (e : Renewal) : Renewal * list Request :=
  if decide (timer ∈ pending e) then
    (run {| timeout := timeout e;
            pending := pending e ∖ {[timer]};
            nextTimer := nextTimer e |},
     mutate secretOf)
  else (e, []).

(** The cleanup the effect returns: [if (timeout) clearTimeout(timeout)]. *)
Definition cleanup (e : Renewal) : Renewal :=
  match timeout e with
  | Some t =>
      if Nat.eqb t 0 then e
      else {| timeout := timeout e;
              pending := pending e ∖ {[t]};
              nextTimer := nextTimer e |}
  | None => e
  end.

(** The body of the renewal effect, when the next timer identifier is
    [firstTimer]: [None] when it returns at the guard. *)
Definition renewalEffect (firstTimer : nat) : option Renewal :=
  if negb (truthy secretOf) || negb (truthy shortSlugOf) then None
  else Some (run {| timeout := None; pending := ∅; nextTimer := firstTimer |}).

Definition effectStep (e : Renewal) (ev : EffectEvent) : Renewal * list Request :=
  match ev with
  | Timeout timer => onTimeout timer e
  | Cleanup => (cleanup e, [])
  end.

Fixpoint effectRun (e : Renewal) (evs : list EffectEvent) : Renewal * list Request :=
  match evs with
  | [] => (e, [])
  | ev :: rest =>
      let '(e1, out) := effectStep e ev in
      let '(e2, outs) := effectRun e1 rest in
      (e2, out ++ outs)
  end.

(** [handleUnload] *)
Definition handleUnload : list Request :=
  [SendBeacon "/api/destroy" (jsonField "slug" shortSlugOf ∅)].

(** What a [beforeunload] event of the window makes the hook do: the second
    effect registers [handleUnload] unless it returns at its guard. *)
Definition beforeunload : list Request :=
  if negb (truthy shortSlugOf) || negb (truthy secretOf) then [] else handleUnload.

End Hook.

(** The effect has exactly one timer pending, the one [timeout] names. *)
Definition Armed (e : Renewal) : Prop :=
  exists t, (0 < t < nextTimer e)%nat /\ timeout e = Some t /\ pending e = {[t]}.

End UploaderChannel.

(** ** The handlers seen from one record *)

(** What [onData] of [conn] does when the connection has the one record [r]:
    the record it leaves, the runtime it leaves, and what it puts on the
    wire.  Sessions with one record per connection are reasoned about
    through it (see [onData_react]). *)
Definition react (files : list UploadedFile) (password : string)
    (conn : DataConnection) (decoded : option Message)
    (r : UploaderConnection) (rt : Runtime)
    : UploaderConnection * Runtime * list Action :=
  match decoded with
  | None =>
      (withStatus r UploaderConnectionStatus.Closed, rt, [DoClose (connId conn)])
  | Some (MessageType.RequestInfo bn bv on ov mv mm) =>
      if passwordSet password then
        (if negb (isPending (status r)) then r
         else withClient r bn bv on ov mv mm UploaderConnectionStatus.Authenticating,
         rt, [DoSend (connId conn) (MessageType.PasswordRequired None)])
      else
        (if negb (isPending (status r)) then r
         else withClient r bn bv on ov mv mm UploaderConnectionStatus.Ready,
         rt, [DoSend (connId conn) (MessageType.Info (fileInfo files))])
  | Some (MessageType.UsePassword submittedPassword) =>
      if String.eqb submittedPassword password then
        (if negb (isAuthenticating (status r)) && negb (isInvalidPassword (status r))
         then r else withStatus r UploaderConnectionStatus.Ready,
         rt, [DoSend (connId conn) (MessageType.Info (fileInfo files))])
      else
        (if negb (isAuthenticating (status r)) then r
         else withStatus r UploaderConnectionStatus.InvalidPassword,
         rt,
         [DoSend (connId conn)
            (MessageType.PasswordRequired (Some "Invalid password"%string))])
  | Some (MessageType.Start fileName offset) =>
      match validateOffset files fileName offset with
      | None =>
          (withStatus r UploaderConnectionStatus.Closed, rt, [DoClose (connId conn)])
      | Some file =>
          if negb (isReady (status r)) && negb (isPaused (status r)) then (r, rt, [])
          else (withUpload r fileName offset (Ratio offset (size file)),
                sendNextChunkAsync conn file fileName offset rt, [])
      end
  | Some MessageType.Pause =>
      if negb (isUploading (status r)) then (r, rt, [])
      else (withStatus r UploaderConnectionStatus.Paused,
            match readSendChunkTimeout conn rt with
            | Some timer => resetSendChunkTimeout conn (clearTimeout timer rt)
            | None => rt
            end, [])
  | Some MessageType.Done =>
      if negb (isReady (status r)) then (r, rt, [])
      else (withStatus r UploaderConnectionStatus.Done, rt, [DoClose (connId conn)])
  | Some (MessageType.PasswordRequired _)
  | Some (MessageType.Info _)
  | Some (MessageType.Chunk _ _ _ _)
  | Some MessageType.Report => (r, rt, [])
  end.

(** The same for [onClose]. *)
Definition reactClose (conn : DataConnection) (r : UploaderConnection) (rt : Runtime)
    : UploaderConnection * Runtime * list Action :=
  (if isInvalidPassword (status r) || isDone (status r) then r
   else withStatus r UploaderConnectionStatus.Closed,
   match readSendChunkTimeout conn rt with
   | Some timer => clearTimeout timer rt
   | None => rt
   end, []).

(** The same for the callback of timer [timer], which serves [task]. *)
Definition reactTimeout (timer : nat) (task : ChunkTask)
    (r : UploaderConnection) (rt : Runtime)
    : UploaderConnection * Runtime * list Action :=
  let end_ := Z.min (size (task_file task)) (task_offset task + MAX_CHUNK_SIZE) in
  let final := end_ - task_offset task <? MAX_CHUNK_SIZE in
  (if final then withCompleted r
   else withOffset r end_ (Ratio end_ (size (task_file task))),
   if final then clearTimeout timer rt
   else sendNextChunkAsync (task_conn task) (task_file task) (task_fileName task)
          end_ (clearTimeout timer rt),
   [DoSend (connId (task_conn task))
      (MessageType.Chunk (task_fileName task) (task_offset task)
         (slice (task_file task) (task_offset task) end_) final)]).

(** ** Whose event, whose action *)

(** The connection an action is addressed to. *)
Definition actionConn (a : Action) : option nat :=
  match a with
  | DoSend c _ => Some c
  | DoClose c => Some c
  | DoRedirect _ => None
  end.

(** The connection an event belongs to: the one that sent the data or
    closed, the one a timer serves, the one that is just arriving. *)
Definition eventConn (s : Session) (e : Event) : option nat :=
  match e with
  | OnConnection _ _ => Some (nextConn s)
  | OnData c _ => Some c
  | OnClose c => Some c
  | OnTimeout timer =>
      match timeouts (runtime s) !! timer with
      | Some task => Some (connId (task_conn task))
      | None => None
      end
  end.

(** No pending timer serves connection [c]. *)
Definition noPending (rt : Runtime) (c : nat) : Prop :=
  forall t task, timeouts rt !! t = Some task -> connId (task_conn task) <> c.

(** Timers and the [sendChunkTimeout] variables: a pending timer is the one
    its connection's variable names; the variables hold identifiers already
    handed out; a variable never names the timer of another connection; and
    a connection with a pending timer is [Uploading] or [Closed]. *)
Definition TimersOk (cs : list UploaderConnection) (rt : Runtime) : Prop :=
  (forall t task, timeouts rt !! t = Some task ->
     exists cl, closures rt !! connId (task_conn task) = Some cl
                /\ sendChunkTimeout cl = Some t)
  /\ (forall c cl t, closures rt !! c = Some cl -> sendChunkTimeout cl = Some t ->
        (t < nextTimeout rt)%nat)
  /\ (forall c cl t task, closures rt !! c = Some cl -> sendChunkTimeout cl = Some t ->
        timeouts rt !! t = Some task -> connId (task_conn task) = c)
  /\ (forall t task r, timeouts rt !! t = Some task ->
        List.find (fun x => Nat.eqb (recId x) (connId (task_conn task))) cs = Some r ->
        status r = UploaderConnectionStatus.Uploading
        \/ status r = UploaderConnectionStatus.Closed).

(** The event loop holds no timer for connection [c] but the one its
    [sendChunkTimeout] names: every pending timer that serves [c] is that
    one. *)
Definition soleTimer (s : Session) (c : nat) : Prop :=
  forall timer task,
    timeouts (runtime s) !! timer = Some task ->
    connId (task_conn task) = c ->
    pendingTimer s c = Some timer.

(** The event is a connection that gets a record (any but a report). *)
Definition registers (e : Event) : bool :=
  match e with
  | OnConnection _ (Some t) => negb (String.eqb t "report")
  | OnConnection _ None => true
  | _ => false
  end.

Definition isConnection (e : Event) : bool :=
  match e with
  | OnConnection _ _ => true
  | _ => false
  end.

(** Event [e] is a RequestInfo message of connection [c]. *)
Definition isRequestInfoOf (c : nat) (e : Event) : bool :=
  match e with
  | OnData c' (Some (MessageType.RequestInfo _ _ _ _ _ _)) => Nat.eqb c' c
  | _ => false
  end.

(** ** Sample data for the worked examples *)

Definition notes : UploadedFile :=
  {| getFileName := "notes.txt"; type := "text/plain";
     content := ["h"; "i"; "!"]%byte |}.

Definition video : UploadedFile :=
  {| getFileName := "video.bin"; type := "application/octet-stream";
     content := repeat "x"%byte (Z.to_nat 300000) |}.

(** Two offered files under one name. *)
Definition draftOld : UploadedFile :=
  {| getFileName := "draft.txt"; type := "text/plain";
     content := ["o"; "l"; "d"]%byte |}.

Definition draftNew : UploadedFile :=
  {| getFileName := "draft.txt"; type := "text/plain";
     content := ["n"; "e"; "w"; "e"; "r"]%byte |}.

Definition hello : Message :=
  MessageType.RequestInfo "Firefox" "128" "Linux" "6.1" None None.

Definition notesInfo : FileInfo :=
  {| fi_fileName := "notes.txt"; fi_size := 3; fi_type := "text/plain" |}.

Definition sampleChannel : DestroyRoute.ChannelRecord :=
  {| DestroyRoute.shortSlug := "k3ym9x";
     DestroyRoute.longSlug := "bacon/olive/basil/onion";
     DestroyRoute.ownerPeerID := "peer-1";
     DestroyRoute.secret := "s3cr3t";
     DestroyRoute.createdAt := 0;
     DestroyRoute.expiresAt := 3600000 |}.

Definition sampleData : UploaderChannel.ChannelData :=
  {| UploaderChannel.secret := Some "s3cr3t"%string;
     UploaderChannel.longSlug := Some "bacon/olive/basil/onion"%string;
     UploaderChannel.shortSlug := Some "k3ym9x"%string |}.

Definition peer0 : DataConnection :=
  {| connId := 0; peer := "peer"; metadataType := None |}.

(** The record of connection 0 after [hello], with one file on offer and no
    password. *)
Definition firefoxReady : UploaderConnection :=
  {| status := UploaderConnectionStatus.Ready;
     dataConnection := peer0;
     completedFiles := 0;
     totalFiles := 1;
     currentFileProgress := Ratio 0 1;
     browserName := Some "Firefox"%string;
     browserVersion := Some "128"%string;
     osName := Some "Linux"%string;
     osVersion := Some "6.1"%string;
     mobileVendor := None;
     mobileModel := None;
     uploadingFileName := None;
     uploadingOffset := None |}.

(** * Properties *)

(** ** The destroy route *)

Section DestroyRouteFacts.

Import DestroyRoute.

Lemma destroy_unaddressed (slug : string) (repo : list ChannelRecord) :
  Forall (fun ch => addresses slug ch = false) (fst (destroy slug repo)).
Proof.
  unfold destroy; simpl.
  induction repo as [|ch repo IH]; simpl; [constructor|].
  destruct (addresses slug ch) eqn:E; simpl; [exact IH|].
  constructor; [exact E|exact IH].
Qed.

Lemma resolve_unaddressed (now : Z) (slug : string) (repo : list ChannelRecord) :
  Forall (fun ch => addresses slug ch = false) repo -> resolve now slug repo = None.
Proof.
  unfold resolve. induction 1 as [|ch repo Hch _ IH]; simpl; [reflexivity|].
  rewrite Hch. simpl. exact IH.
Qed.

Lemma destroy_absent (slug : string) (repo : list ChannelRecord) :
  Forall (fun ch => addresses slug ch = false) repo ->
  fst (destroy slug repo) = repo.
Proof.
  unfold destroy; simpl.
  induction 1 as [|ch repo Hch _ IH]; simpl; [reflexivity|].
  rewrite Hch. simpl. f_equal. exact IH.
Qed.

(** C9.  For every (non-empty) slug the destroy route answers 200 with
    [{ success: true }], whatever else the request carries (it reads no
    secret) and whatever the repository holds; it does so also when no
    record is addressed by the slug, in which case the repository is left as
    it was; and afterwards the slug resolves to nothing at any time. *)
Theorem destroy_needs_no_secret_and_always_succeeds
    (request : gmap string Json) (slug : string)
    (repo : list ChannelRecord) (now : Z) :
  request !! "slug"%string = Some (JString slug) ->
  slug <> ""%string ->
  let result := POST destroyChannel (Some (JObject request)) repo in
  fst result = Returns {| body := SuccessBody true; httpStatus := 200 |}
  /\ resolve now slug (snd result) = None
  /\ (Forall (fun ch => addresses slug ch = false) repo -> snd result = repo).
Proof.
  intros Hslug Hne. unfold POST, slugOf. rewrite Hslug. cbn [truthy].
  destruct (String.eqb_spec slug "") as [->|_]; [congruence|].
  cbn -[resolve]. repeat split.
  - apply resolve_unaddressed, (destroy_unaddressed slug repo).
  - intros Habs. exact (destroy_absent slug repo Habs).
Qed.

(** C10.  A request whose body is JSON other than [null] and has no [slug]
    (an object without the field, or any array, string, number or boolean),
    or whose [slug] is empty or falsy in another way, is answered 400
    [{ error: 'Slug is required' }] and the repository is not touched: this
    holds for every repository and every behaviour of its
    [destroyChannel]. *)
Theorem destroy_rejects_missing_slug
    {Repo : Type} (destroy : Json -> Repo -> Repo * bool)
    (v : Json) (repo : Repo) :
  v <> JNull ->
  (forall slug, slugOf v = Some slug -> truthy slug = false) ->
  POST destroy (Some v) repo
  = (Returns {| body := ErrorBody "Slug is required"; httpStatus := 400 |}, repo).
Proof.
  intros Hnull Hfalsy. unfold POST.
  destruct (slugOf v) as [slug|] eqn:Hslug.
  - rewrite (Hfalsy slug eq_refl). destruct v; try reflexivity. contradiction.
  - destruct v; try reflexivity. contradiction.
Qed.

(** A body that is not JSON, or is [null], makes the handler throw before
    it looks for the slug: no response of its own, and the repository is
    not touched. *)
Lemma destroy_throws_without_a_parsed_object
    {Repo : Type} (destroy : Json -> Repo -> Repo * bool) (repo : Repo) :
  POST destroy None repo = (Throws, repo)
  /\ POST destroy (Some JNull) repo = (Throws, repo).
Proof. split; reflexivity. Qed.

End DestroyRouteFacts.

(** ** [updateConnection] *)

Section MapConns.

Variable conn : DataConnection.
Variable fn : Updater.

Lemma mapConns_absent (cs : list UploaderConnection) (rt : Runtime) :
  Forall (fun r => recId r <> connId conn) cs ->
  mapConns conn fn cs rt = (cs, rt, []).
Proof.
  induction 1 as [|x cs Hx _ IH]; simpl; [reflexivity|].
  fold (recId x). destruct (Nat.eqb_spec (recId x) (connId conn)) as [E|_]; [contradiction|].
  rewrite IH. reflexivity.
Qed.

Lemma mapConns_ids (cs : list UploaderConnection) (rt : Runtime) :
  (forall d rt0, recId (fst (fst (fn d rt0))) = recId d) ->
  List.map recId (fst (fst (mapConns conn fn cs rt))) = List.map recId cs.
Proof.
  intros Hfn. revert rt. induction cs as [|x cs IH]; intros rt; simpl; [reflexivity|].
  fold (recId x). destruct (Nat.eqb (recId x) (connId conn)).
  - specialize (Hfn x rt). destruct (fn x rt) as [[x' rt1] out1]. simpl in Hfn.
    specialize (IH rt1). destruct (mapConns conn fn cs rt1) as [[cs' rt2] out2].
    simpl in *. congruence.
  - specialize (IH rt). destruct (mapConns conn fn cs rt) as [[cs' rt2] out2].
    simpl in *. congruence.
Qed.

(** What the updater does to the runtime is what it does on the records of
    [conn], one after the other. *)
Lemma mapConns_runtime (P : Runtime -> Prop) (cs : list UploaderConnection) (rt : Runtime) :
  (forall d rt0, In d cs -> recId d = connId conn -> P rt0 -> P (snd (fst (fn d rt0)))) ->
  P rt -> P (snd (fst (mapConns conn fn cs rt))).
Proof.
  revert rt. induction cs as [|x cs IH]; intros rt Hfn HP; simpl; [exact HP|].
  fold (recId x). destruct (Nat.eqb_spec (recId x) (connId conn)) as [E|_].
  - pose proof (Hfn x rt (or_introl eq_refl) E HP) as H1.
    destruct (fn x rt) as [[x' rt1] out1]. simpl in H1.
    assert (H2 : P (snd (fst (mapConns conn fn cs rt1)))).
    { apply IH; [|exact H1]. intros d rt0 Hd. apply Hfn. right; exact Hd. }
    destruct (mapConns conn fn cs rt1) as [[cs' rt2] out2]. exact H2.
  - assert (H2 : P (snd (fst (mapConns conn fn cs rt)))).
    { apply IH; [|exact HP]. intros d rt0 Hd. apply Hfn. right; exact Hd. }
    destruct (mapConns conn fn cs rt) as [[cs' rt2] out2]. exact H2.
Qed.

(** What the updater puts on the wire comes from a record of [conn]. *)
Lemma mapConns_out (a : Action) (cs : list UploaderConnection) (rt : Runtime) :
  In a (snd (mapConns conn fn cs rt)) ->
  exists d rt0, In d cs /\ recId d = connId conn /\ In a (snd (fn d rt0)).
Proof.
  revert rt. induction cs as [|x cs IH]; intros rt; simpl; [intros []|].
  fold (recId x). destruct (Nat.eqb_spec (recId x) (connId conn)) as [E|_].
  - destruct (fn x rt) as [[x' rt1] out1] eqn:Efn.
    specialize (IH rt1). destruct (mapConns conn fn cs rt1) as [[cs' rt2] out2].
    simpl in *. intros Ha. apply in_app_or in Ha as [Ha|Ha].
    + exists x, rt. rewrite Efn. auto.
    + destruct (IH Ha) as (d & rt0 & Hd & Hid & Hin). exists d, rt0. auto.
  - specialize (IH rt). destruct (mapConns conn fn cs rt) as [[cs' rt2] out2].
    simpl in *. intros Ha.
    destruct (IH Ha) as (d & rt0 & Hd & Hid & Hin). exists d, rt0. auto.
Qed.

(** With one record per connection the updater runs once, on that record. *)
Lemma mapConns_find (cs : list UploaderConnection) (rt : Runtime)
    (r : UploaderConnection) :
  NoDup (List.map recId cs) ->
  List.find (fun x => Nat.eqb (recId x) (connId conn)) cs = Some r ->
  mapConns conn fn cs rt
  = (List.map (fun x => if Nat.eqb (recId x) (connId conn)
                        then fst (fst (fn r rt)) else x) cs,
     snd (fst (fn r rt)), snd (fn r rt)).
Proof.
  revert rt. induction cs as [|x cs IH]; intros rt Hnd Hfind; simpl in *; [discriminate|].
  fold (recId x). inversion Hnd as [|? ? Hnotin Hnd']; subst.
  destruct (Nat.eqb_spec (recId x) (connId conn)) as [E|NE].
  - injection Hfind as ->.
    assert (Habs : Forall (fun y => recId y <> connId conn) cs).
    { apply Forall_forall. intros y Hy Heq. apply Hnotin. rewrite E, <- Heq.
      apply list_elem_of_In, in_map, list_elem_of_In, Hy. }
    destruct (fn r rt) as [[r' rt1] out1]. simpl.
    rewrite (mapConns_absent cs rt1 Habs), app_nil_r. do 2 f_equal.
    f_equal. clear -Habs. induction Habs as [|y cs Hy _ IH]; simpl; [reflexivity|].
    destruct (Nat.eqb_spec (recId y) (connId conn)); [contradiction|]. f_equal. exact IH.
  - rewrite (IH rt Hnd' Hfind). reflexivity.
Qed.

Lemma mapConns_no_record (cs : list UploaderConnection) (rt : Runtime) :
  List.find (fun x => Nat.eqb (recId x) (connId conn)) cs = None ->
  mapConns conn fn cs rt = (cs, rt, []).
Proof.
  intros Hfind. apply mapConns_absent, Forall_forall. intros y Hy Heq.
  apply list_elem_of_In in Hy.
  apply (find_none _ _ Hfind) in Hy. apply Nat.eqb_neq in Hy. contradiction.
Qed.

End MapConns.

(** ** Reachable sessions are well formed *)

Lemma RuntimeOk_sendNextChunkAsync l conn file fileName offset rt :
  In (connId conn) l -> RuntimeOk l rt ->
  RuntimeOk l (sendNextChunkAsync conn file fileName offset rt).
Proof.
  intros Hin (Hc & Ht & Hr). split; [|split]; simpl.
  - intros c cl. rewrite lookup_insert. case_decide as E.
    + intros [= <-]. subst c. simpl. auto.
    + apply Hc.
  - intros t task. rewrite lookup_insert. case_decide as E.
    + intros [= <-]. simpl. exact Hin.
    + apply Ht.
  - intros c Hcl. rewrite lookup_insert. case_decide; [eauto|apply Hr, Hcl].
Qed.

Lemma RuntimeOk_clearTimeout l timer rt :
  RuntimeOk l rt -> RuntimeOk l (clearTimeout timer rt).
Proof.
  intros (Hc & Ht & Hr). split; [|split]; simpl; [exact Hc| |exact Hr].
  intros t task. rewrite lookup_delete. case_decide; [discriminate|apply Ht].
Qed.

Lemma RuntimeOk_resetSendChunkTimeout l conn rt :
  In (connId conn) l -> RuntimeOk l rt -> RuntimeOk l (resetSendChunkTimeout conn rt).
Proof.
  intros Hin (Hc & Ht & Hr). split; [|split]; simpl; [|exact Ht|].
  - intros c cl. rewrite lookup_insert. case_decide as E.
    + intros [= <-]. subst c. simpl. auto.
    + apply Hc.
  - intros c Hcl. rewrite lookup_insert. case_decide; [eauto|apply Hr, Hcl].
Qed.

Lemma updateConnection_ids conn fn s :
  (forall d rt0, recId (fst (fst (fn d rt0))) = recId d) ->
  ids (fst (updateConnection conn fn s)) = ids s.
Proof.
  intros Hid. unfold updateConnection.
  pose proof (mapConns_ids conn fn (conns s) (runtime s) Hid) as H.
  destruct (mapConns conn fn (conns s) (runtime s)) as [[cs rt] out]. exact H.
Qed.

Lemma updateConnection_Inv conn fn s :
  Inv s ->
  (forall d rt0, recId (fst (fst (fn d rt0))) = recId d) ->
  (forall d rt0, In (connId conn) (ids s) -> RuntimeOk (ids s) rt0 ->
                 RuntimeOk (ids s) (snd (fst (fn d rt0)))) ->
  Inv (fst (updateConnection conn fn s)).
Proof.
  intros (Hnd & Hlt & Hrt) Hid Hfn.
  pose proof (updateConnection_ids conn fn s Hid) as Hids.
  unfold Inv. rewrite Hids. unfold updateConnection in *.
  pose proof (mapConns_runtime conn fn (RuntimeOk (ids s)) (conns s) (runtime s)) as H.
  destruct (mapConns conn fn (conns s) (runtime s)) as [[cs rt] out]. simpl in *.
  split; [exact Hnd|split; [exact Hlt|]]. apply H; [|exact Hrt].
  intros d rt0 Hd Heq. apply Hfn. rewrite <- Heq. apply in_map. exact Hd.
Qed.

Lemma Inv_withRuntime s rt :
  Inv s -> RuntimeOk (ids s) rt -> Inv (withConns s (conns s) rt).
Proof. intros (Hnd & Hlt & _) Hrt. split; [exact Hnd|split; [exact Hlt|exact Hrt]]. Qed.

Ltac status_cases :=
  repeat match goal with
         | |- context [if ?b then _ else _] => destruct b
         end.

Section UploaderInvariant.

Variable files : list UploadedFile.
Variable password : string.

Lemma sendChunk_Inv task s :
  Inv s -> In (connId (task_conn task)) (ids s) -> Inv (fst (sendChunk task s)).
Proof.
  intros HI Hin. unfold sendChunk.
  match goal with
  | |- context [updateConnection ?c ?f s] =>
      pose proof (updateConnection_Inv c f s HI) as H;
      destruct (updateConnection c f s) as [s' out]
  end.
  simpl. apply H.
  - intros d rt0. status_cases; reflexivity.
  - intros d rt0 Hc Hrt. status_cases; simpl; [exact Hrt|].
    apply RuntimeOk_sendNextChunkAsync; assumption.
Qed.

Lemma onDataCatch_Inv conn s : Inv s -> Inv (fst (onDataCatch conn s)).
Proof.
  intros HI. unfold onDataCatch.
  match goal with
  | |- context [updateConnection ?c ?f s] =>
      pose proof (updateConnection_Inv c f s HI) as H;
      destruct (updateConnection c f s) as [s' out]
  end.
  simpl. apply H; intros d rt0; [reflexivity|intros _ Hrt; exact Hrt].
Qed.

Lemma onData_Inv conn decoded s :
  Inv s -> Inv (fst (onData files password conn decoded s)).
Proof.
  intros HI. destruct decoded as [message|]; [|apply onDataCatch_Inv, HI].
  destruct message; simpl; try exact HI.
  - unfold onRequestInfo. destruct (passwordSet password);
    match goal with
    | |- context [updateConnection ?c ?f s] =>
        pose proof (updateConnection_Inv c f s HI) as H;
        destruct (updateConnection c f s) as [s' out]
    end;
    simpl; apply H; intros d rt0; unfold pureUpdater; simpl;
      try (intros _ Hrt; exact Hrt); status_cases; reflexivity.
  - unfold onUsePassword. destruct (String.eqb _ _);
    match goal with
    | |- context [updateConnection ?c ?f s] =>
        pose proof (updateConnection_Inv c f s HI) as H;
        destruct (updateConnection c f s) as [s' out]
    end;
    simpl; apply H; intros d rt0; unfold pureUpdater; simpl;
      try (intros _ Hrt; exact Hrt); status_cases; reflexivity.
  - unfold onStart. destruct (validateOffset files fileName offset) as [file|];
      [|apply onDataCatch_Inv, HI].
    apply updateConnection_Inv; [exact HI| |].
    + intros d rt0. status_cases; reflexivity.
    + intros d rt0 Hc Hrt. status_cases; simpl; [exact Hrt|].
      apply RuntimeOk_sendNextChunkAsync; assumption.
  - unfold onPause. apply updateConnection_Inv; [exact HI| |].
    + intros d rt0. status_cases; reflexivity.
    + intros d rt0 Hc Hrt. destruct (negb (isUploading (status d))); simpl; [exact Hrt|].
      destruct (readSendChunkTimeout conn rt0); [|exact Hrt].
      apply RuntimeOk_resetSendChunkTimeout, RuntimeOk_clearTimeout; assumption.
  - unfold onDone. apply updateConnection_Inv; [exact HI| |].
    + intros d rt0. status_cases; reflexivity.
    + intros d rt0 Hc Hrt. status_cases; exact Hrt.
Qed.

Lemma onClose_Inv conn s : Inv s -> Inv (fst (onClose conn s)).
Proof.
  intros HI. unfold onClose. apply updateConnection_Inv.
  - apply Inv_withRuntime; [exact HI|].
    destruct HI as (_ & _ & Hrt).
    destruct (readSendChunkTimeout conn (runtime s)); [|exact Hrt].
    apply RuntimeOk_clearTimeout, Hrt.
  - intros d rt0. unfold pureUpdater. simpl. status_cases; reflexivity.
  - intros d rt0 _ Hrt. exact Hrt.
Qed.

Lemma listener_Inv conn s :
  Inv s -> (connId conn < nextConn s)%nat -> ~ In (connId conn) (ids s) ->
  Inv (fst (listener files conn s)).
Proof.
  intros (Hnd & Hlt & Hc & Ht & Hr) Hconn Hfresh. unfold listener.
  destruct (isReport conn); simpl; [split; [|split; [|split; [|split]]]; assumption|].
  split; [|split; [|split; [|split]]]; simpl.
  - unfold ids. simpl. apply NoDup_cons. split; [|exact Hnd].
    intros Hin. apply Hfresh, list_elem_of_In, Hin.
  - intros c [<-|Hin]; [exact Hconn|apply Hlt, Hin].
  - intros c cl H. rewrite lookup_insert in H. unfold ids; simpl.
    case_decide as E.
    + injection H as <-. subst c. simpl. auto.
    + destruct (Hc _ _ H). auto.
  - intros t task Htask. unfold ids; simpl. right. apply (Ht _ _ Htask).
  - unfold ids; simpl. intros c Hin. rewrite lookup_insert.
    case_decide as E; [eauto|]. destruct Hin as [Hin|Hin]; [|apply Hr, Hin].
    exfalso. apply E. exact Hin.
Qed.

Lemma step_Inv s e : Inv s -> Inv (fst (step files password s e)).
Proof.
  intros HI. destruct e as [p md|c decoded|c|timer]; simpl.
  - apply listener_Inv; simpl.
    + destruct HI as (Hnd & Hlt & Hrt). split; [exact Hnd|split; [|exact Hrt]].
      intros c Hc. simpl. specialize (Hlt c Hc). lia.
    + lia.
    + intros Hin. destruct HI as (_ & Hlt & _). specialize (Hlt _ Hin). lia.
  - destruct (closures (runtime s) !! c); [apply onData_Inv, HI|exact HI].
  - destruct (closures (runtime s) !! c); [apply onClose_Inv, HI|exact HI].
  - destruct (timeouts (runtime s) !! timer) as [task|] eqn:Et; [|exact HI].
    apply sendChunk_Inv.
    + apply Inv_withRuntime; [exact HI|]. apply RuntimeOk_clearTimeout, HI.
    + destruct HI as (_ & _ & _ & Ht & _). apply (Ht _ _ Et).
Qed.

Lemma mount_Inv : Inv mount.
Proof.
  split; [|split; [|split; [|split]]]; simpl.
  - apply NoDup_nil. exact I.
  - intros c [].
  - intros c cl H. rewrite lookup_empty in H. discriminate.
  - intros t task H. rewrite lookup_empty in H. discriminate.
  - intros c [].
Qed.

Lemma run_app s evs1 evs2 :
  run files password s (evs1 ++ evs2)
  = (fst (run files password (fst (run files password s evs1)) evs2),
     snd (run files password s evs1)
     ++ snd (run files password (fst (run files password s evs1)) evs2)).
Proof.
  revert s. induction evs1 as [|e evs1 IH]; intros s; simpl.
  - destruct (run files password s evs2); reflexivity.
  - destruct (step files password s e) as [s1 out] eqn:E1.
    rewrite IH. destruct (run files password s1 evs1) as [s2 outs]. reflexivity.
Qed.

Lemma run_Inv s evs : Inv s -> Inv (fst (run files password s evs)).
Proof.
  revert s. induction evs as [|e evs IH]; intros s HI; simpl; [exact HI|].
  pose proof (step_Inv s e HI) as H1.
  destruct (step files password s e) as [s1 out]. specialize (IH s1 H1).
  destruct (run files password s1 evs) as [s2 outs]. exact IH.
Qed.

End UploaderInvariant.

(** ** Records of a well-formed session *)

Lemma find_setRecord_same c r r' cs :
  List.find (fun x => Nat.eqb (recId x) c) cs = Some r ->
  recId r' = c ->
  List.find (fun x => Nat.eqb (recId x) c) (setRecord c r' cs) = Some r'.
Proof.
  intros Hfind Hid. induction cs as [|x cs IH]; simpl in *; [discriminate|].
  destruct (Nat.eqb_spec (recId x) c) as [E|NE].
  - rewrite Hid, Nat.eqb_refl. reflexivity.
  - destruct (Nat.eqb_spec (recId x) c); [contradiction|]. apply IH, Hfind.
Qed.

Lemma find_setRecord_other c c' r' cs :
  c' <> c -> recId r' = c ->
  List.find (fun x => Nat.eqb (recId x) c') (setRecord c r' cs)
  = List.find (fun x => Nat.eqb (recId x) c') cs.
Proof.
  intros Hne Hid. induction cs as [|x cs IH]; simpl; [reflexivity|].
  destruct (Nat.eqb_spec (recId x) c) as [E|NE].
  - rewrite Hid. destruct (Nat.eqb_spec c c'); [congruence|].
    destruct (Nat.eqb_spec (recId x) c'); [congruence|]. exact IH.
  - destruct (Nat.eqb (recId x) c'); [reflexivity|exact IH].
Qed.

Lemma setRecord_same c r cs :
  NoDup (List.map recId cs) ->
  List.find (fun x => Nat.eqb (recId x) c) cs = Some r ->
  setRecord c r cs = cs.
Proof.
  induction cs as [|x cs IH]; intros Hnd Hfind; simpl in *; [reflexivity|].
  inversion Hnd as [|? ? Hnotin Hnd']; subst.
  destruct (Nat.eqb_spec (recId x) c) as [E|NE].
  - injection Hfind as ->. f_equal.
    clear IH Hnd Hnd'. induction cs as [|y cs IH]; simpl; [reflexivity|].
    destruct (Nat.eqb_spec (recId y) c) as [E'|_].
    + exfalso. apply Hnotin. simpl. rewrite E, <- E'. apply list_elem_of_here.
    + f_equal. apply IH. intros Hin. apply Hnotin. simpl. apply list_elem_of_further, Hin.
  - f_equal. apply IH; assumption.
Qed.

Lemma withConns_same s : withConns s (conns s) (runtime s) = s.
Proof. destruct s; reflexivity. Qed.

Lemma updateConnection_record conn fn s r :
  NoDup (ids s) ->
  recordOf s (connId conn) = Some r ->
  updateConnection conn fn s
  = (withConns s
       (setRecord (connId conn) (fst (fst (fn r (runtime s)))) (conns s))
       (snd (fst (fn r (runtime s)))),
     snd (fn r (runtime s))).
Proof.
  intros Hnd Hrec. unfold updateConnection.
  rewrite (mapConns_find conn fn (conns s) (runtime s) r Hnd Hrec). reflexivity.
Qed.

Lemma statusOf_record s c st :
  statusOf s c = Some st -> exists r, recordOf s c = Some r /\ status r = st.
Proof.
  unfold statusOf. destruct (recordOf s c) as [r|]; [|discriminate].
  intros [= <-]. eauto.
Qed.

Lemma recordOf_id s c r : recordOf s c = Some r -> recId r = c /\ In r (conns s).
Proof.
  intros H. apply find_some in H as [Hin Heq]. apply Nat.eqb_eq in Heq. auto.
Qed.

Lemma record_registered s c r :
  Inv s -> recordOf s c = Some r ->
  exists cl, closures (runtime s) !! c = Some cl /\ connId (cl_conn cl) = c.
Proof.
  intros (_ & _ & Hc & _ & Hr) Hrec. apply recordOf_id in Hrec as [Hid Hin].
  destruct (Hr c) as [cl Hcl].
  { rewrite <- Hid. unfold ids. apply in_map, Hin. }
  exists cl. split; [exact Hcl|]. apply (Hc _ _ Hcl).
Qed.

Lemma recordOf_withConns s c r r' rt :
  recordOf s c = Some r -> recId r' = c ->
  recordOf (withConns s (setRecord c r' (conns s)) rt) c = Some r'.
Proof. intros. unfold recordOf; simpl. eapply find_setRecord_same; eassumption. Qed.

Lemma statusOf_withConns s c r r' rt :
  recordOf s c = Some r -> recId r' = c ->
  statusOf (withConns s (setRecord c r' (conns s)) rt) c = Some (status r').
Proof.
  intros H1 H2. unfold statusOf. rewrite (recordOf_withConns s c r r' rt H1 H2).
  reflexivity.
Qed.

Section UploaderFacts.

Variable files : list UploadedFile.
Variable password : string.

Lemma reach_Inv events : Inv (reach files password events).
Proof. apply run_Inv, mount_Inv. Qed.

(** ** Transport close *)

(** C7.  When the transport of a connection closes, its status becomes
    [Closed], whatever it was, except that [InvalidPassword] and [Done] are
    kept; nothing is sent. *)
Theorem close_moves_to_Closed_except_InvalidPassword_and_Done
    (events : list Event) (c : nat) (st : Status) :
  let s := reach files password events in
  statusOf s c = Some st ->
  statusOf (fst (step files password s (OnClose c))) c
  = Some (match st with
          | UploaderConnectionStatus.InvalidPassword =>
              UploaderConnectionStatus.InvalidPassword
          | UploaderConnectionStatus.Done => UploaderConnectionStatus.Done
          | _ => UploaderConnectionStatus.Closed
          end)
  /\ snd (step files password s (OnClose c)) = [].
Proof.
  intros s Hst. pose proof (reach_Inv events) as HI. fold s in HI.
  apply statusOf_record in Hst as (r & Hrec & <-).
  destruct (record_registered s c r HI Hrec) as (cl & Hcl & Hid).
  simpl. rewrite Hcl. unfold onClose.
  set (s1 := withConns s (conns s) _).
  assert (Hrec1 : recordOf s1 (connId (cl_conn cl)) = Some r) by (rewrite Hid; exact Hrec).
  rewrite (updateConnection_record _ _ s1 r (proj1 HI) Hrec1). simpl.
  split; [|reflexivity].
  rewrite Hid. rewrite (statusOf_withConns s1 c r _ _ Hrec).
  - destruct (status r) eqn:E; simpl; rewrite ?E; reflexivity.
  - apply recordOf_id in Hrec as [Hr _]. destruct (status r); exact Hr.
Qed.

(** ** RequestInfo outside [Pending] *)

(** C8, as the code has it.  A RequestInfo that arrives when the connection
    is not [Pending] leaves the whole session as it was, records and timers
    alike, but it is answered all the same: with PasswordRequired when a
    password is set, with Info and the file catalog otherwise. *)
Theorem request_info_outside_Pending_keeps_state_but_replies
    (events : list Event) (c : nat) (st : Status)
    (bn bv on ov : string) (mv mm : option string) :
  let s := reach files password events in
  statusOf s c = Some st ->
  st <> UploaderConnectionStatus.Pending ->
  step files password s (OnData c (Some (MessageType.RequestInfo bn bv on ov mv mm)))
  = (s, [DoSend c (if passwordSet password
                   then MessageType.PasswordRequired None
                   else MessageType.Info (fileInfo files))]).
Proof.
  intros s Hst Hne. pose proof (reach_Inv events) as HI. fold s in HI.
  apply statusOf_record in Hst as (r & Hrec & <-).
  destruct (record_registered s c r HI Hrec) as (cl & Hcl & Hid).
  simpl. rewrite Hcl. unfold onRequestInfo.
  assert (Hrec1 : recordOf s (connId (cl_conn cl)) = Some r) by (rewrite Hid; exact Hrec).
  assert (Hpend : isPending (status r) = false) by (destruct (status r); simpl; congruence).
  destruct (passwordSet password);
    rewrite (updateConnection_record _ _ s r (proj1 HI) Hrec1);
    unfold pureUpdater; simpl; rewrite Hpend; simpl;
    rewrite Hid, (setRecord_same c r (conns s) (proj1 HI) Hrec), withConns_same;
    reflexivity.
Qed.

End UploaderFacts.

Lemma updateConnection_out conn fn s a :
  In a (snd (updateConnection conn fn s)) ->
  exists d rt0, In d (conns s) /\ recId d = connId conn /\ In a (snd (fn d rt0)).
Proof.
  unfold updateConnection.
  pose proof (mapConns_out conn fn a (conns s) (runtime s)) as H.
  destruct (mapConns conn fn (conns s) (runtime s)) as [[cs rt] out]. exact H.
Qed.

Lemma validateOffset_Some files fileName offset file :
  validateOffset files fileName offset = Some file ->
  In file files /\ getFileName file = fileName /\ offset <= size file.
Proof.
  intros H. apply find_some in H as [Hin Hb].
  apply andb_true_iff in Hb as [Hn Ho].
  apply String.eqb_eq in Hn. apply Z.leb_le in Ho. auto.
Qed.

Lemma validateOffset_None files fileName offset :
  validateOffset files fileName offset = None ->
  forall file, In file files -> getFileName file = fileName -> size file < offset.
Proof.
  intros H file Hin Hn. pose proof (find_none _ _ H file Hin) as Hb. simpl in Hb.
  apply andb_false_iff in Hb as [Hb|Hb].
  - apply String.eqb_neq in Hb. contradiction.
  - apply Z.leb_gt in Hb. exact Hb.
Qed.

Section StartFacts.

Variable files : list UploadedFile.
Variable password : string.

Lemma start_rejected (s : Session) (c : nat) (r : UploaderConnection)
    (fileName : string) (offset : Z) :
  Inv s -> recordOf s c = Some r ->
  validateOffset files fileName offset = None ->
  let result := step files password s (OnData c (Some (MessageType.Start fileName offset))) in
  snd result = [DoClose c]
  /\ statusOf (fst result) c = Some UploaderConnectionStatus.Closed
  /\ timeouts (runtime (fst result)) = timeouts (runtime s).
Proof.
  intros HI Hrec Hval.
  destruct (record_registered s c r HI Hrec) as (cl & Hcl & Hid).
  simpl. rewrite Hcl. unfold onStart. rewrite Hval. unfold onDataCatch.
  assert (Hrec1 : recordOf s (connId (cl_conn cl)) = Some r) by (rewrite Hid; exact Hrec).
  rewrite (updateConnection_record _ _ s r (proj1 HI) Hrec1). simpl.
  rewrite Hid. split; [reflexivity|]. split; [|reflexivity].
  rewrite (statusOf_withConns s c r _ _ Hrec); [reflexivity|].
  apply (recordOf_id s c r Hrec).
Qed.

Lemma start_accepted (s : Session) (c : nat) (r : UploaderConnection)
    (fileName : string) (offset : Z) (file : UploadedFile) :
  Inv s -> recordOf s c = Some r ->
  status r = UploaderConnectionStatus.Ready \/ status r = UploaderConnectionStatus.Paused ->
  validateOffset files fileName offset = Some file ->
  exists cl,
    closures (runtime s) !! c = Some cl /\ connId (cl_conn cl) = c /\
    step files password s (OnData c (Some (MessageType.Start fileName offset)))
    = (withConns s
         (setRecord c (withUpload r fileName offset (Ratio offset (size file))) (conns s))
         (sendNextChunkAsync (cl_conn cl) file fileName offset (runtime s)),
       []).
Proof.
  intros HI Hrec Hst Hval.
  destruct (record_registered s c r HI Hrec) as (cl & Hcl & Hid).
  exists cl. split; [exact Hcl|]. split; [exact Hid|].
  simpl. rewrite Hcl. unfold onStart. rewrite Hval.
  assert (Hrec1 : recordOf s (connId (cl_conn cl)) = Some r) by (rewrite Hid; exact Hrec).
  rewrite (updateConnection_record _ _ s r (proj1 HI) Hrec1).
  rewrite Hid. destruct Hst as [-> | ->]; reflexivity.
Qed.

(** C3.  A Start message is refused unless some offered file has the name
    asked for and a size of at least the offset asked for: refusing means
    that [close] is called on the connection, its status becomes [Closed]
    and no chunk timer is set.  So it is refused whenever every file of that
    name is shorter than the offset (empty files included).  Otherwise, in
    [Ready] or [Paused], nothing is closed and the connection moves to
    [Uploading] with its chunk timer pending. *)
Theorem start_rejected_unless_known_file_and_offset_within_size
    (events : list Event) (c : nat) (st : Status) (fileName : string) (offset : Z) :
  let s := reach files password events in
  statusOf s c = Some st ->
  let result :=
    step files password s (OnData c (Some (MessageType.Start fileName offset))) in
  ((exists file, In file files /\ getFileName file = fileName /\ offset <= size file) ->
   st = UploaderConnectionStatus.Ready \/ st = UploaderConnectionStatus.Paused ->
   snd result = []
   /\ statusOf (fst result) c = Some UploaderConnectionStatus.Uploading
   /\ is_Some (pendingTimer (fst result) c))
  /\ (~ (exists file, In file files /\ getFileName file = fileName /\ offset <= size file) ->
      snd result = [DoClose c]
      /\ statusOf (fst result) c = Some UploaderConnectionStatus.Closed
      /\ timeouts (runtime (fst result)) = timeouts (runtime s))
  /\ ((forall file, In file files -> getFileName file = fileName -> size file < offset) ->
      snd result = [DoClose c]
      /\ statusOf (fst result) c = Some UploaderConnectionStatus.Closed
      /\ timeouts (runtime (fst result)) = timeouts (runtime s)).
Proof.
  intros s Hst result. pose proof (reach_Inv files password events) as HI. fold s in HI.
  apply statusOf_record in Hst as (r & Hrec & <-).
  assert (Hnone : (forall file, In file files -> getFileName file = fileName ->
                                size file < offset) ->
                  validateOffset files fileName offset = None).
  { intros Hall. destruct (validateOffset files fileName offset) as [file|] eqn:E;
      [|reflexivity].
    apply validateOffset_Some in E as (Hin & Hn & Ho). specialize (Hall file Hin Hn). lia. }
  split; [|split].
  - intros (file0 & Hin & Hn & Ho) Hready.
    destruct (validateOffset files fileName offset) as [file|] eqn:Hval.
    + destruct (start_accepted s c r fileName offset file HI Hrec Hready Hval)
        as (cl & Hcl & Hid & Hstep).
      subst result. rewrite Hstep. simpl. split; [reflexivity|]. split.
      * rewrite (statusOf_withConns s c r _ _ Hrec); [reflexivity|].
        apply (recordOf_id s c r Hrec).
      * unfold pendingTimer. simpl. rewrite Hid, lookup_insert_eq. simpl.
        rewrite lookup_insert_eq. eauto.
    + pose proof (validateOffset_None files fileName offset Hval file0 Hin Hn). lia.
  - intros Hno. apply (start_rejected s c r fileName offset HI Hrec).
    apply Hnone. intros file Hin Hn.
    destruct (Z.lt_ge_cases (size file) offset) as [Hlt|Hge]; [exact Hlt|].
    exfalso. apply Hno. exists file. auto.
  - intros Hall. apply (start_rejected s c r fileName offset HI Hrec), Hnone, Hall.
Qed.

End StartFacts.

Ltac updater_out H :=
  let d := fresh "d" in
  let rt0 := fresh "rt0" in
  apply updateConnection_out in H as (d & rt0 & _ & _ & H);
  unfold pureUpdater in H; revert H; status_cases; simpl; intros H;
  try contradiction.

Section WireFacts.

Variable files : list UploadedFile.
Variable password : string.

Lemma reach_snoc (events : list Event) (e : Event) :
  reach files password (events ++ [e])
  = fst (step files password (reach files password events) e).
Proof.
  unfold reach. rewrite run_app. simpl.
  destruct (step files password (fst (run files password mount events)) e).
  reflexivity.
Qed.

Lemma passwordSet_false : passwordSet password = false -> password = ""%string.
Proof.
  unfold passwordSet. destruct (String.eqb_spec password ""); [auto|discriminate].
Qed.

(** ** The report branch of the listener *)

(** The report branch as the code has it.  When a connection flagged as a
    report arrives,
    the listener sends Report to, and calls [close] on, each connection of
    the [connections] array it holds, one after the other, and then points
    the page to [/reported].  Nothing else happens: no record, handler or
    timer is touched, the report connection gets no record and no handler,
    no Chunk is sent, and [close] is called on the connections of that array
    and on no other. *)
Theorem report_connection_notifies_and_closes_the_held_connections
    (s : Session) (peer : string) :
  let result := step files password s (OnConnection peer (Some "report"%string)) in
  snd result
  = List.flat_map
      (fun r => [DoSend (recId r) MessageType.Report; DoClose (recId r)])
      (connections s)
    ++ [DoRedirect "/reported"]
  /\ conns (fst result) = conns s
  /\ runtime (fst result) = runtime s
  /\ connections (fst result) = connections s
  /\ (forall a, In a (snd result) -> chunkOffset a = None)
  /\ (forall c, In (DoClose c) (snd result) <-> In c (List.map recId (connections s))).
Proof.
  simpl. unfold listener. simpl. repeat split.
  - intros a Ha. apply in_app_or in Ha as [Ha|[<-|[]]]; [|reflexivity].
    apply in_flat_map in Ha as (r & _ & [<-|[<-|[]]]); reflexivity.
  - intros Ha. apply in_app_or in Ha as [Ha|[Ha|[]]]; [|discriminate].
    apply in_flat_map in Ha as (r & Hr & [Ha|[Ha|[]]]); [discriminate|].
    injection Ha as <-. exact (in_map recId _ _ Hr).
  - intros Hc. apply in_map_iff in Hc as (r & <- & Hr).
    apply in_or_app. left. apply in_flat_map. exists r. split; [exact Hr|].
    right. left. reflexivity.
Qed.

(** The array the listener holds is the one of the render in which the
    effect ran: after the first render it is empty and stays so, whatever
    connections have arrived since. *)
Lemma listener_connections_after_mount (events : list Event) :
  connections (reach files password events) = [].
Proof.
  induction events as [|e events IH] using rev_ind; [reflexivity|].
  rewrite reach_snoc. set (s := reach files password events) in *.
  destruct e as [p md|c decoded|c|timer]; simpl.
  - unfold listener. destruct (isReport _); exact IH.
  - destruct (closures (runtime s) !! c) as [cl|]; [|exact IH].
    destruct decoded as [[]|]; simpl; try exact IH;
      unfold onRequestInfo, onUsePassword, onStart, onPause, onDone, onDataCatch,
        updateConnection;
      repeat match goal with
             | |- context [if ?b then _ else _] => destruct b
             | |- context [match validateOffset ?a ?b ?c with _ => _ end] =>
                 destruct (validateOffset a b c)
             | |- context [mapConns ?a ?b ?c ?d] => destruct (mapConns a b c d) as [[? ?] ?]
             end; exact IH.
  - destruct (closures (runtime s) !! c) as [cl|]; [|exact IH].
    unfold onClose, updateConnection.
    match goal with
    | |- context [mapConns ?a ?b ?c ?d] => destruct (mapConns a b c d) as [[? ?] ?]
    end. exact IH.
  - destruct (timeouts (runtime s) !! timer) as [task|]; [|exact IH].
    unfold sendChunk, updateConnection.
    match goal with
    | |- context [mapConns ?a ?b ?c ?d] => destruct (mapConns a b c d) as [[? ?] ?]
    end. exact IH.
Qed.

(** So in a session that started with the first render a report connection
    reaches nobody: all it causes is the redirect. *)
Lemma report_after_mount_only_redirects (events : list Event) (peer : string) :
  snd (step files password (reach files password events)
         (OnConnection peer (Some "report"%string)))
  = [DoRedirect "/reported"].
Proof.
  simpl. unfold listener. simpl. rewrite listener_connections_after_mount. reflexivity.
Qed.

(** ** Who is sent what *)

(** C6, as the code has it.  Info goes to a connection only as the answer to
    a message of that very connection: a RequestInfo when no password is set,
    or a UsePassword whose candidate is the configured password, whether or
    not a RequestInfo came before; and it carries the file catalog. *)
Theorem info_only_answers_request_info_or_matching_password
    (events : list Event) (e : Event) (c : nat) (fs : list FileInfo) :
  In (DoSend c (MessageType.Info fs))
     (snd (step files password (reach files password events) e)) ->
  fs = fileInfo files
  /\ ((exists bn bv on ov mv mm,
         e = OnData c (Some (MessageType.RequestInfo bn bv on ov mv mm))
         /\ password = ""%string)
      \/ e = OnData c (Some (MessageType.UsePassword password))).
Proof.
  pose proof (reach_Inv files password events) as HI.
  set (s := reach files password events) in *. intros H.
  destruct e as [p md|c0 decoded|c0|timer]; simpl in H.
  - unfold listener in H. destruct (isReport _); simpl in H; [|contradiction].
    apply in_app_or in H as [H|[H|[]]]; [|discriminate].
    apply in_flat_map in H as (r & _ & [H|[H|[]]]); discriminate.
  - destruct (closures (runtime s) !! c0) as [cl|] eqn:Hcl; [|contradiction].
    destruct HI as (_ & _ & Hc & _). destruct (Hc _ _ Hcl) as [Hid _].
    destruct decoded as [message|]; simpl in H.
    2:{ unfold onDataCatch in H.
        destruct (updateConnection _ _ s) as [s' out] eqn:E; simpl in H.
        apply in_app_or in H as [H|[H|[]]]; [|discriminate].
        change out with (snd (s', out)) in H. rewrite <- E in H. updater_out H. }
    destruct message; simpl in H; try contradiction.
    + unfold onRequestInfo in H. destruct (passwordSet password) eqn:Hp;
        destruct (updateConnection _ _ s) as [s' out] eqn:E; simpl in H.
      * destruct H as [H|H]; [discriminate|].
        change out with (snd (s', out)) in H. rewrite <- E in H. updater_out H.
      * apply in_app_or in H as [H|[H|[]]].
        { change out with (snd (s', out)) in H. rewrite <- E in H. updater_out H. }
        injection H as <- <-. split; [reflexivity|]. left.
        rewrite Hid. do 6 eexists. split; [reflexivity|]. apply passwordSet_false, Hp.
    + unfold onUsePassword in H. destruct (String.eqb_spec password0 password) as [->|_];
        destruct (updateConnection _ _ s) as [s' out] eqn:E; simpl in H;
        apply in_app_or in H as [H|[H|[]]];
        try (change out with (snd (s', out)) in H; rewrite <- E in H; updater_out H);
        try discriminate.
      injection H as <- <-. split; [reflexivity|]. right. rewrite Hid. reflexivity.
    + unfold onStart in H. destruct (validateOffset files fileName offset).
      * updater_out H.
      * unfold onDataCatch in H.
        destruct (updateConnection _ _ s) as [s' out] eqn:E; simpl in H.
        apply in_app_or in H as [H|[H|[]]]; [|discriminate].
        change out with (snd (s', out)) in H. rewrite <- E in H. updater_out H.
    + unfold onPause in H. updater_out H.
    + unfold onDone in H. updater_out H. destruct H as [H|[]]. discriminate.
  - destruct (closures (runtime s) !! c0) as [cl|]; [|contradiction].
    unfold onClose in H. updater_out H.
  - destruct (timeouts (runtime s) !! timer) as [task|]; [|contradiction].
    unfold sendChunk in H.
    destruct (updateConnection _ _ _) as [s' out] eqn:E; simpl in H.
    destruct H as [H|H]; [discriminate|].
    change out with (snd (s', out)) in H. rewrite <- E in H. updater_out H.
Qed.

End WireFacts.

(** ** The password gate *)

Lemma mapConns_gated (Q : nat -> Prop) conn fn cs rt :
  (forall d rt0, In d cs -> recId d = connId conn ->
     (pastGate (status d) = true -> Q (recId d)) ->
     (forall t task, timeouts rt0 !! t = Some task -> Q (connId (task_conn task))) ->
     (pastGate (status (fst (fst (fn d rt0)))) = true -> Q (recId (fst (fst (fn d rt0)))))
     /\ (forall t task, timeouts (snd (fst (fn d rt0))) !! t = Some task ->
                        Q (connId (task_conn task)))) ->
  gated Q cs rt ->
  gated Q (fst (fst (mapConns conn fn cs rt))) (snd (fst (mapConns conn fn cs rt))).
Proof.
  revert rt. induction cs as [|x cs IH]; intros rt Hfn [Hr Ht]; simpl; [split; assumption|].
  fold (recId x). destruct (Nat.eqb_spec (recId x) (connId conn)) as [E|_].
  - destruct (Hfn x rt (or_introl eq_refl) E (Hr x (or_introl eq_refl)) Ht) as [Hx' Ht1].
    destruct (fn x rt) as [[x' rt1] out1]. simpl in Hx', Ht1.
    assert (H2 : gated Q (fst (fst (mapConns conn fn cs rt1)))
                         (snd (fst (mapConns conn fn cs rt1)))).
    { apply IH.
      - intros d rt0 Hd. apply Hfn. right; exact Hd.
      - split; [|exact Ht1]. intros r Hin. apply Hr. right; exact Hin. }
    destruct (mapConns conn fn cs rt1) as [[cs' rt2] out2]. simpl in *.
    destruct H2 as [Hr2 Ht2]. split; [|exact Ht2].
    intros r [<-|Hin]; [exact Hx'|apply Hr2, Hin].
  - assert (H2 : gated Q (fst (fst (mapConns conn fn cs rt)))
                         (snd (fst (mapConns conn fn cs rt)))).
    { apply IH.
      - intros d rt0 Hd. apply Hfn. right; exact Hd.
      - split; [|exact Ht]. intros r Hin. apply Hr. right; exact Hin. }
    destruct (mapConns conn fn cs rt) as [[cs' rt2] out2]. simpl in *.
    destruct H2 as [Hr2 Ht2]. split; [|exact Ht2].
    intros r [<-|Hin]; [apply Hr; left; reflexivity|apply Hr2, Hin].
Qed.

Lemma updateConnection_gated (Q : nat -> Prop) conn fn s :
  (forall d rt0, In d (conns s) -> recId d = connId conn ->
     (pastGate (status d) = true -> Q (recId d)) ->
     (forall t task, timeouts rt0 !! t = Some task -> Q (connId (task_conn task))) ->
     (pastGate (status (fst (fst (fn d rt0)))) = true -> Q (recId (fst (fst (fn d rt0)))))
     /\ (forall t task, timeouts (snd (fst (fn d rt0))) !! t = Some task ->
                        Q (connId (task_conn task)))) ->
  gated Q (conns s) (runtime s) ->
  gated Q (conns (fst (updateConnection conn fn s)))
          (runtime (fst (updateConnection conn fn s))).
Proof.
  intros Hfn Hg. pose proof (mapConns_gated Q conn fn (conns s) (runtime s) Hfn Hg) as H.
  unfold updateConnection.
  destruct (mapConns conn fn (conns s) (runtime s)) as [[cs rt] out]. exact H.
Qed.

Lemma gated_clearTimeout Q cs timer rt :
  gated Q cs rt -> gated Q cs (clearTimeout timer rt).
Proof.
  intros [Hr Ht]. split; [exact Hr|]. simpl. intros t task.
  rewrite lookup_delete. case_decide; [discriminate|apply Ht].
Qed.

Lemma timeouts_sendNextChunkAsync (Q : nat -> Prop) conn file fileName offset rt :
  Q (connId conn) ->
  (forall t task, timeouts rt !! t = Some task -> Q (connId (task_conn task))) ->
  forall t task,
    timeouts (sendNextChunkAsync conn file fileName offset rt) !! t = Some task ->
    Q (connId (task_conn task)).
Proof.
  intros HQ Ht t task. simpl. rewrite lookup_insert. case_decide.
  - intros [= <-]. exact HQ.
  - apply Ht.
Qed.

Lemma recordOf_In s c d :
  NoDup (ids s) -> In d (conns s) -> recId d = c -> recordOf s c = Some d.
Proof.
  unfold ids, recordOf. induction (conns s) as [|x cs IH]; intros Hnd Hin Hid; [destruct Hin|].
  simpl in *. inversion Hnd as [|? ? Hnotin Hnd']; subst.
  destruct Hin as [->|Hin].
  - rewrite Nat.eqb_refl. reflexivity.
  - destruct (Nat.eqb_spec (recId x) (recId d)) as [E|_]; [|apply IH; auto].
    exfalso. apply Hnotin. rewrite E. apply list_elem_of_In, in_map, Hin.
Qed.

Ltac through_update :=
  match goal with
  | |- context [updateConnection ?c ?f ?s] =>
      let s' := fresh "s'" in
      let out := fresh "out" in
      let E := fresh "E" in
      destruct (updateConnection c f s) as [s' out] eqn:E; simpl;
      change s' with (fst (s', out)); rewrite <- E; clear E s' out
  end.

Ltac record_cases d :=
  let Es := fresh "Es" in
  destruct (status d) eqn:Es; simpl; unfold recId in *; simpl; rewrite ?Es; simpl.

Section GateFacts.

Variable files : list UploadedFile.
Variable password : string.
Hypothesis password_set : passwordSet password = true.

Lemma authenticatedBy_snoc events e c :
  authenticatedBy files password events c ->
  authenticatedBy files password (events ++ [e]) c.
Proof.
  intros (before & after & -> & Hst & Hready).
  exists before, (after ++ [e]). split; [|split; assumption].
  rewrite <- app_assoc. reflexivity.
Qed.

Lemma correct_password_authenticates events c d :
  In d (conns (reach files password events)) ->
  recId d = c ->
  status d = UploaderConnectionStatus.Authenticating
  \/ status d = UploaderConnectionStatus.InvalidPassword ->
  authenticatedBy files password
    (events ++ [OnData c (Some (MessageType.UsePassword password))]) c.
Proof.
  intros Hin Hid Hst. pose proof (reach_Inv files password events) as HI.
  set (s := reach files password events) in *.
  pose proof (recordOf_In s c d (proj1 HI) Hin Hid) as Hrec.
  exists events, []. split; [reflexivity|]. split.
  - fold s. unfold statusOf. rewrite Hrec. destruct Hst as [-> | ->]; auto.
  - rewrite reach_snoc. fold s.
    destruct (record_registered s c d HI Hrec) as (cl & Hcl & Hc).
    simpl. rewrite Hcl. unfold onUsePassword. rewrite String.eqb_refl.
    assert (Hrec1 : recordOf s (connId (cl_conn cl)) = Some d) by (rewrite Hc; exact Hrec).
    rewrite (updateConnection_record _ _ s d (proj1 HI) Hrec1). simpl.
    rewrite Hc. rewrite (statusOf_withConns s c d _ _ Hrec).
    + destruct Hst as [-> | ->]; reflexivity.
    + destruct Hst as [-> | ->]; exact Hid.
Qed.

Lemma gate_step events e :
  gated (authenticatedBy files password events)
        (conns (reach files password events)) (runtime (reach files password events)) ->
  gated (authenticatedBy files password (events ++ [e]))
        (conns (reach files password (events ++ [e])))
        (runtime (reach files password (events ++ [e]))).
Proof.
  intros Hold.
  assert (Hg : gated (authenticatedBy files password (events ++ [e]))
                 (conns (reach files password events))
                 (runtime (reach files password events))).
  { destruct Hold as [Hr Ht]. split.
    - intros r Hin Hp. apply authenticatedBy_snoc, Hr; assumption.
    - intros t task Htask. apply authenticatedBy_snoc, (Ht _ _ Htask). }
  clear Hold. rewrite reach_snoc.
  pose proof (reach_Inv files password events) as HI.
  pose proof (correct_password_authenticates events) as Hauth.
  set (s := reach files password events) in *.
  set (Q := authenticatedBy files password (events ++ [e])) in *.
  destruct e as [p md|c decoded|c|timer]; simpl.
  - unfold listener. destruct (isReport _); simpl; [exact Hg|].
    destruct Hg as [Hr Ht]. split; [|exact Ht].
    intros r [<-|Hin] Hp; [discriminate|apply Hr; assumption].
  - destruct (closures (runtime s) !! c) as [cl|] eqn:Hcl; [|exact Hg].
    destruct HI as (_ & _ & Hc & _). destruct (Hc _ _ Hcl) as [Hid _].
    assert (Hcatch : gated Q (conns (fst (onDataCatch (cl_conn cl) s)))
                             (runtime (fst (onDataCatch (cl_conn cl) s)))).
    { unfold onDataCatch. through_update. apply updateConnection_gated; [|exact Hg].
      intros d rt0 _ _ Hd Ht0. unfold pureUpdater; simpl. split; [discriminate|exact Ht0]. }
    destruct decoded as [message|]; [|exact Hcatch].
    destruct message; simpl; try exact Hg.
    + unfold onRequestInfo. rewrite password_set. through_update.
      apply updateConnection_gated; [|exact Hg].
      intros d rt0 _ _ Hd Ht0. unfold pureUpdater; simpl. split; [|exact Ht0].
      record_cases d; intros; try discriminate; apply Hd; reflexivity.
    + unfold onUsePassword.
      destruct (String.eqb_spec password0 password) as [->|_]; through_update;
        (apply updateConnection_gated; [|exact Hg]);
        intros d rt0 Hin Hd_id Hd Ht0; unfold pureUpdater; simpl; (split; [|exact Ht0]).
      * rewrite Hid in Hd_id. specialize (Hauth c d Hin Hd_id).
        record_cases d; intros; try discriminate; try (apply Hd; reflexivity);
          unfold recId in Hd_id; rewrite Hd_id; apply Hauth; auto.
      * record_cases d; intros; try discriminate; apply Hd; reflexivity.
    + unfold onStart. destruct (validateOffset files fileName offset) as [file|];
        [|exact Hcatch].
      apply updateConnection_gated; [|exact Hg].
      intros d rt0 _ Hd_id Hd Ht0.
      record_cases d; (split; [|try exact Ht0]); intros; try discriminate;
        try (apply Hd; reflexivity);
        match goal with
        | H : <[_ := _]> _ !! _ = Some _ |- _ =>
            rewrite lookup_insert in H; case_decide;
            [injection H as <-; simpl; rewrite <- Hd_id; apply Hd; reflexivity
            |eapply Ht0; eassumption]
        end.
    + unfold onPause. apply updateConnection_gated; [|exact Hg].
      intros d rt0 _ Hd_id Hd Ht0.
      record_cases d; (split; [|try exact Ht0]); intros; try discriminate;
        try (apply Hd; reflexivity).
      destruct (readSendChunkTimeout (cl_conn cl) rt0); [|eapply Ht0; eassumption].
      simpl in *. rewrite lookup_delete in *. case_decide; [discriminate|].
      eapply Ht0; eassumption.
    + unfold onDone. apply updateConnection_gated; [|exact Hg].
      intros d rt0 _ Hd_id Hd Ht0.
      record_cases d; (split; [|try exact Ht0]); intros; try discriminate;
        apply Hd; reflexivity.
  - destruct (closures (runtime s) !! c) as [cl|] eqn:Hcl; [|exact Hg].
    unfold onClose. apply updateConnection_gated.
    + intros d rt0 _ _ Hd Ht0. unfold pureUpdater; simpl. split; [|exact Ht0].
      record_cases d; intros; try discriminate; apply Hd; reflexivity.
    + simpl. destruct (readSendChunkTimeout (cl_conn cl) (runtime s)); [|exact Hg].
      apply gated_clearTimeout, Hg.
  - destruct (timeouts (runtime s) !! timer) as [task|] eqn:Htask; [|exact Hg].
    assert (HQ : Q (connId (task_conn task))) by (apply (proj2 Hg _ _ Htask)).
    unfold sendChunk. through_update. apply updateConnection_gated.
    + intros d rt0 _ Hd_id Hd Ht0.
      destruct (_ <? MAX_CHUNK_SIZE); simpl; (split; [|try exact Ht0]).
      * intros _. unfold recId in *. simpl. rewrite Hd_id. exact HQ.
      * unfold recId in *. simpl. exact Hd.
      * apply timeouts_sendNextChunkAsync; assumption.
    + simpl. apply gated_clearTimeout, Hg.
Qed.

Lemma gate_holds events :
  gated (authenticatedBy files password events)
        (conns (reach files password events)) (runtime (reach files password events)).
Proof.
  induction events as [|e events IH] using rev_ind.
  - split; simpl.
    + intros r [].
    + intros t task H. rewrite lookup_empty in H. discriminate.
  - apply gate_step, IH.
Qed.

End GateFacts.

Section ChunkOrigin.

Variable files : list UploadedFile.
Variable password : string.

(** A Chunk is only ever sent by a chunk timer that fires, to the connection
    that timer belongs to. *)
Lemma chunk_comes_from_timer (s : Session) (e : Event) (c : nat)
    (fileName : string) (offset : Z) (bytes : list byte) (final : bool) :
  In (DoSend c (MessageType.Chunk fileName offset bytes final))
     (snd (step files password s e)) ->
  exists timer task,
    e = OnTimeout timer
    /\ timeouts (runtime s) !! timer = Some task
    /\ connId (task_conn task) = c.
Proof.
  intros H. destruct e as [p md|c0 decoded|c0|timer]; simpl in H.
  - unfold listener in H. destruct (isReport _); simpl in H; [|contradiction].
    apply in_app_or in H as [H|[H|[]]]; [|discriminate].
    apply in_flat_map in H as (r & _ & [H|[H|[]]]); discriminate.
  - destruct (closures (runtime s) !! c0) as [cl|] eqn:Hcl; [|contradiction].
    destruct decoded as [message|]; simpl in H.
    2:{ unfold onDataCatch in H.
        destruct (updateConnection _ _ s) as [s' out] eqn:E; simpl in H.
        apply in_app_or in H as [H|[H|[]]]; [|discriminate].
        change out with (snd (s', out)) in H. rewrite <- E in H. updater_out H. }
    destruct message; simpl in H; try contradiction.
    + unfold onRequestInfo in H. destruct (passwordSet password);
        destruct (updateConnection _ _ s) as [s' out] eqn:E; simpl in H.
      * destruct H as [H|H]; [discriminate|].
        change out with (snd (s', out)) in H. rewrite <- E in H. updater_out H.
      * apply in_app_or in H as [H|[H|[]]]; [|discriminate].
        change out with (snd (s', out)) in H. rewrite <- E in H. updater_out H.
    + unfold onUsePassword in H. destruct (String.eqb password0 password);
        destruct (updateConnection _ _ s) as [s' out] eqn:E; simpl in H;
        apply in_app_or in H as [H|[H|[]]];
        try (change out with (snd (s', out)) in H; rewrite <- E in H; updater_out H);
        discriminate.
    + unfold onStart in H. destruct (validateOffset files fileName0 offset0).
      * updater_out H.
      * unfold onDataCatch in H.
        destruct (updateConnection _ _ s) as [s' out] eqn:E; simpl in H.
        apply in_app_or in H as [H|[H|[]]]; [|discriminate].
        change out with (snd (s', out)) in H. rewrite <- E in H. updater_out H.
    + unfold onPause in H. updater_out H.
    + unfold onDone in H. updater_out H. destruct H as [H|[]]. discriminate.
  - destruct (closures (runtime s) !! c0) as [cl|]; [|contradiction].
    unfold onClose in H. updater_out H.
  - destruct (timeouts (runtime s) !! timer) as [task|] eqn:Htask; [|contradiction].
    exists timer, task. split; [reflexivity|]. split; [exact Htask|].
    unfold sendChunk in H.
    destruct (updateConnection _ _ _) as [s' out] eqn:E; simpl in H.
    destruct H as [H|H]; [injection H as <-; reflexivity|].
    change out with (snd (s', out)) in H. rewrite <- E in H. updater_out H.
Qed.

(** C4.  With a password configured, whenever a Chunk is sent to a
    connection, an earlier event of that connection was a UsePassword
    carrying exactly the configured password, which arrived while the
    connection was [Authenticating] or [InvalidPassword] and moved it to
    [Ready]. *)
Theorem no_chunk_before_correct_password
    (events : list Event) (e : Event) (c : nat)
    (fileName : string) (offset : Z) (bytes : list byte) (final : bool) :
  password <> ""%string ->
  In (DoSend c (MessageType.Chunk fileName offset bytes final))
     (snd (step files password (reach files password events) e)) ->
  exists before after,
    events = before ++ OnData c (Some (MessageType.UsePassword password)) :: after
    /\ (statusOf (reach files password before) c
          = Some UploaderConnectionStatus.Authenticating
        \/ statusOf (reach files password before) c
          = Some UploaderConnectionStatus.InvalidPassword)
    /\ statusOf (reach files password
                   (before ++ [OnData c (Some (MessageType.UsePassword password))])) c
       = Some UploaderConnectionStatus.Ready.
Proof.
  intros Hpw Hsend.
  assert (Hset : passwordSet password = true).
  { unfold passwordSet. destruct (String.eqb_spec password ""); [contradiction|reflexivity]. }
  apply chunk_comes_from_timer in Hsend as (timer & task & _ & Htask & <-).
  exact (proj2 (gate_holds files password Hset events) timer task Htask).
Qed.

End ChunkOrigin.

(** ** The emission loop *)

Lemma MAX_CHUNK_SIZE_pos : 0 < MAX_CHUNK_SIZE.
Proof. reflexivity. Qed.

Lemma size_nonneg file : 0 <= size file.
Proof. unfold size. lia. Qed.

Lemma slice_inside file a b :
  0 <= a <= b -> b <= size file ->
  slice file a b = take (Z.to_nat (b - a)) (drop (Z.to_nat a) (content file)).
Proof.
  intros Ha Hb. unfold slice.
  destruct (Z.ltb_spec a 0); [lia|]. destruct (Z.ltb_spec b 0); [lia|].
  rewrite (Z.min_l a), (Z.min_l b), Z.max_l by lia. reflexivity.
Qed.

Lemma length_slice file a b :
  0 <= a <= b -> b <= size file -> Z.of_nat (length (slice file a b)) = b - a.
Proof.
  intros Ha Hb. rewrite slice_inside by assumption.
  rewrite length_take, length_drop. unfold size in Hb. lia.
Qed.

Lemma chunkCount_final file offset :
  0 <= offset <= size file ->
  (Z.min (size file) (offset + MAX_CHUNK_SIZE) - offset <? MAX_CHUNK_SIZE) = true ->
  chunkCount file offset = 1%nat.
Proof.
  intros Ho Hf. apply Z.ltb_lt in Hf. unfold chunkCount.
  rewrite Z.div_small by lia. reflexivity.
Qed.

Lemma chunkCount_next file offset :
  0 <= offset <= size file ->
  (Z.min (size file) (offset + MAX_CHUNK_SIZE) - offset <? MAX_CHUNK_SIZE) = false ->
  Z.min (size file) (offset + MAX_CHUNK_SIZE) = offset + MAX_CHUNK_SIZE
  /\ offset + MAX_CHUNK_SIZE <= size file
  /\ chunkCount file offset = S (chunkCount file (offset + MAX_CHUNK_SIZE)).
Proof.
  intros Ho Hf. apply Z.ltb_ge in Hf. pose proof MAX_CHUNK_SIZE_pos as Hpos.
  assert (Hle : offset + MAX_CHUNK_SIZE <= size file) by lia.
  split; [lia|]. split; [exact Hle|]. unfold chunkCount.
  replace (size file - offset)
    with ((size file - (offset + MAX_CHUNK_SIZE)) + 1 * MAX_CHUNK_SIZE) by lia.
  rewrite Z.div_add by lia.
  assert (0 <= (size file - (offset + MAX_CHUNK_SIZE)) / MAX_CHUNK_SIZE)
    by (apply Z.div_pos; lia).
  lia.
Qed.

Section Loop.

Variable c : nat.
Variable file : UploadedFile.
Variable fileName : string.

Local Abbreviation emitted := (emitted c file fileName).

Lemma emitted_isChunk n offset : Forall (isChunkTo c fileName) (emitted n offset).
Proof.
  unfold emitted. revert offset. induction n as [|n IH]; intros offset; simpl;
    [constructor|].
  constructor; [simpl; auto|]. destruct (_ <? _); [constructor|apply IH].
Qed.

Lemma emitted_contiguous n offset :
  0 <= offset <= size file -> contiguousFrom offset (emitted n offset).
Proof.
  unfold emitted. revert offset. induction n as [|n IH]; intros offset Ho; simpl; [exact I|].
  split; [reflexivity|].
  destruct (_ <? MAX_CHUNK_SIZE) eqn:Hf; simpl; [exact I|].
  destruct (chunkCount_next file offset Ho Hf) as (Hend & Hle & _).
  pose proof MAX_CHUNK_SIZE_pos as Hpos.
  unfold chunkLength. simpl. rewrite length_slice by lia.
  rewrite Hend. replace (offset + (offset + MAX_CHUNK_SIZE - offset))
    with (offset + MAX_CHUNK_SIZE) by lia.
  apply IH. lia.
Qed.

Lemma emitted_payload n offset :
  0 <= offset <= size file -> (chunkCount file offset <= n)%nat ->
  payload (emitted n offset) = drop (Z.to_nat offset) (content file).
Proof.
  unfold emitted, payload. revert offset.
  induction n as [|n IH]; intros offset Ho Hn.
  - unfold chunkCount in Hn. pose proof MAX_CHUNK_SIZE_pos.
    assert (0 <= (size file - offset) / MAX_CHUNK_SIZE) by (apply Z.div_pos; lia). lia.
  - simpl. destruct (_ <? MAX_CHUNK_SIZE) eqn:Hf; simpl.
    + apply Z.ltb_lt in Hf. rewrite app_nil_r, slice_inside by lia.
      rewrite Z.min_l by lia. apply take_ge. rewrite length_drop.
      unfold size in *. lia.
    + destruct (chunkCount_next file offset Ho Hf) as (Hend & Hle & Hcount).
      pose proof MAX_CHUNK_SIZE_pos as Hpos.
      rewrite Hend, IH by lia. rewrite slice_inside by lia.
      replace (offset + MAX_CHUNK_SIZE - offset) with MAX_CHUNK_SIZE by lia.
      replace (Z.to_nat (offset + MAX_CHUNK_SIZE))
        with (Z.to_nat offset + Z.to_nat MAX_CHUNK_SIZE)%nat by lia.
      rewrite <- drop_drop. apply take_drop.
Qed.

Lemma emitted_finals n offset :
  0 <= offset <= size file -> (chunkCount file offset <= n)%nat ->
  List.map chunkFinal (emitted n offset)
  = repeat (Some false) (chunkCount file offset - 1) ++ [Some true].
Proof.
  unfold emitted. revert offset. induction n as [|n IH]; intros offset Ho Hn.
  - unfold chunkCount in Hn. pose proof MAX_CHUNK_SIZE_pos.
    assert (0 <= (size file - offset) / MAX_CHUNK_SIZE) by (apply Z.div_pos; lia). lia.
  - simpl. destruct (_ <? MAX_CHUNK_SIZE) eqn:Hf; simpl.
    + rewrite (chunkCount_final file offset Ho Hf). reflexivity.
    + destruct (chunkCount_next file offset Ho Hf) as (Hend & Hle & Hcount).
      pose proof MAX_CHUNK_SIZE_pos as Hpos.
      rewrite Hend, IH by lia. rewrite Hcount.
      assert (1 <= chunkCount file (offset + MAX_CHUNK_SIZE))%nat.
      { unfold chunkCount.
        assert (0 <= (size file - (offset + MAX_CHUNK_SIZE)) / MAX_CHUNK_SIZE)
          by (apply Z.div_pos; lia). lia. }
      replace (S (chunkCount file (offset + MAX_CHUNK_SIZE)) - 1)%nat
        with (S (chunkCount file (offset + MAX_CHUNK_SIZE) - 1)) by lia.
      reflexivity.
Qed.

(** [k] rounds none of which is final, followed by the rest of the loop. *)
Lemma emitted_split k n offset :
  0 <= offset -> offset + Z.of_nat k * MAX_CHUNK_SIZE <= size file ->
  emitted (k + n) offset
  = emitted k offset ++ emitted n (offset + Z.of_nat k * MAX_CHUNK_SIZE)
  /\ Z.of_nat (length (payload (emitted k offset))) = Z.of_nat k * MAX_CHUNK_SIZE.
Proof.
  unfold emitted, payload. revert offset. induction k as [|k IH]; intros offset Ho Hle.
  - simpl. replace (offset + Z.of_nat 0 * MAX_CHUNK_SIZE) with offset by lia.
    split; [reflexivity|lia].
  - pose proof MAX_CHUNK_SIZE_pos as Hpos.
    assert (Hf : (Z.min (size file) (offset + MAX_CHUNK_SIZE) - offset
                  <? MAX_CHUNK_SIZE) = false) by (apply Z.ltb_ge; lia).
    destruct (chunkCount_next file offset ltac:(lia) Hf) as (Hend & Hle' & _).
    change (S k + n)%nat with (S (k + n)). simpl chunksFrom. rewrite Hf, Hend.
    destruct (IH (offset + MAX_CHUNK_SIZE) ltac:(lia) ltac:(lia)) as [IH1 IH2].
    replace (offset + MAX_CHUNK_SIZE + Z.of_nat k * MAX_CHUNK_SIZE)
      with (offset + Z.of_nat (S k) * MAX_CHUNK_SIZE) in IH1 by lia.
    cbn [List.map List.concat chunkBytes app]. rewrite IH1. split; [reflexivity|].
    rewrite length_app, Nat2Z.inj_add, IH2, length_slice by lia. lia.
Qed.

End Loop.

(** ** The handlers on a session with one record per connection *)

Lemma registered_record s c cl :
  Inv s -> closures (runtime s) !! c = Some cl ->
  connId (cl_conn cl) = c /\ exists r, recordOf s c = Some r.
Proof.
  intros (_ & _ & Hc & _ & _) Hcl. destruct (Hc _ _ Hcl) as [Hid Hin].
  split; [exact Hid|]. unfold ids in Hin. apply in_map_iff in Hin as (x & Hx & Hin).
  unfold recordOf. destruct (List.find _ (conns s)) as [r|] eqn:E; [eauto|].
  pose proof (find_none _ _ E x Hin) as Hn. simpl in Hn.
  apply Nat.eqb_neq in Hn. contradiction.
Qed.

Lemma task_record s timer task :
  Inv s -> timeouts (runtime s) !! timer = Some task ->
  exists r, recordOf s (connId (task_conn task)) = Some r.
Proof.
  intros (_ & _ & _ & Ht & _) Htask. pose proof (Ht _ _ Htask) as Hin.
  unfold ids in Hin. apply in_map_iff in Hin as (x & Hx & Hin).
  unfold recordOf. destruct (List.find _ (conns s)) as [r|] eqn:E; [eauto|].
  pose proof (find_none _ _ E x Hin) as Hn. simpl in Hn.
  apply Nat.eqb_neq in Hn. contradiction.
Qed.

Lemma unchanged_session s c r :
  NoDup (ids s) -> recordOf s c = Some r ->
  withConns s (setRecord c r (conns s)) (runtime s) = s.
Proof. intros Hnd Hrec. rewrite (setRecord_same c r _ Hnd Hrec). apply withConns_same. Qed.

Section React.

Variable files : list UploadedFile.
Variable password : string.

Lemma onData_react s conn decoded r :
  NoDup (ids s) -> recordOf s (connId conn) = Some r ->
  onData files password conn decoded s
  = (withConns s
       (setRecord (connId conn)
          (fst (fst (react files password conn decoded r (runtime s)))) (conns s))
       (snd (fst (react files password conn decoded r (runtime s)))),
     snd (react files password conn decoded r (runtime s))).
Proof.
  intros Hnd Hrec.
  assert (Hcatch : onDataCatch conn s
                   = (withConns s
                        (setRecord (connId conn)
                           (withStatus r UploaderConnectionStatus.Closed) (conns s))
                        (runtime s), [DoClose (connId conn)])).
  { unfold onDataCatch. rewrite (updateConnection_record _ _ s r Hnd Hrec). reflexivity. }
  destruct decoded as [message|]; [|exact Hcatch].
  destruct message; simpl;
    try (rewrite (unchanged_session s _ r Hnd Hrec); reflexivity).
  - unfold onRequestInfo. destruct (passwordSet password);
      rewrite (updateConnection_record _ _ s r Hnd Hrec); reflexivity.
  - unfold onUsePassword. destruct (String.eqb _ _);
      rewrite (updateConnection_record _ _ s r Hnd Hrec); reflexivity.
  - unfold onStart. destruct (validateOffset files fileName offset); [|exact Hcatch].
    rewrite (updateConnection_record _ _ s r Hnd Hrec).
    destruct (negb _ && negb _); reflexivity.
  - unfold onPause. rewrite (updateConnection_record _ _ s r Hnd Hrec).
    destruct (negb _); reflexivity.
  - unfold onDone. rewrite (updateConnection_record _ _ s r Hnd Hrec).
    destruct (negb _); reflexivity.
Qed.

Lemma onClose_react s conn r :
  NoDup (ids s) -> recordOf s (connId conn) = Some r ->
  onClose conn s
  = (withConns s
       (setRecord (connId conn) (fst (fst (reactClose conn r (runtime s)))) (conns s))
       (snd (fst (reactClose conn r (runtime s)))),
     []).
Proof.
  intros Hnd Hrec. unfold onClose.
  set (s1 := withConns s (conns s) _).
  assert (Hrec1 : recordOf s1 (connId conn) = Some r) by exact Hrec.
  rewrite (updateConnection_record _ _ s1 r Hnd Hrec1). reflexivity.
Qed.

Lemma sendChunk_react s timer task r :
  NoDup (ids s) -> recordOf s (connId (task_conn task)) = Some r ->
  sendChunk task (withConns s (conns s) (clearTimeout timer (runtime s)))
  = (withConns s
       (setRecord (connId (task_conn task))
          (fst (fst (reactTimeout timer task r (runtime s)))) (conns s))
       (snd (fst (reactTimeout timer task r (runtime s)))),
     snd (reactTimeout timer task r (runtime s))).
Proof.
  intros Hnd Hrec. unfold sendChunk.
  set (s1 := withConns s (conns s) _).
  assert (Hrec1 : recordOf s1 (connId (task_conn task)) = Some r) by exact Hrec.
  rewrite (updateConnection_record _ _ s1 r Hnd Hrec1).
  unfold reactTimeout. simpl. destruct (_ <? MAX_CHUNK_SIZE); reflexivity.
Qed.

Lemma react_keeps conn decoded r rt :
  dataConnection (fst (fst (react files password conn decoded r rt))) = dataConnection r
  /\ totalFiles (fst (fst (react files password conn decoded r rt))) = totalFiles r.
Proof.
  destruct decoded as [[]|]; simpl;
    repeat match goal with
           | |- context [if ?b then _ else _] => destruct b
           | |- context [match validateOffset ?a ?b ?c with _ => _ end] =>
               destruct (validateOffset a b c)
           end; simpl; auto.
Qed.

Lemma reactClose_keeps conn r rt :
  dataConnection (fst (fst (reactClose conn r rt))) = dataConnection r
  /\ totalFiles (fst (fst (reactClose conn r rt))) = totalFiles r.
Proof. unfold reactClose. simpl. destruct (_ || _); auto. Qed.

Lemma reactTimeout_keeps timer task r rt :
  dataConnection (fst (fst (reactTimeout timer task r rt))) = dataConnection r
  /\ totalFiles (fst (fst (reactTimeout timer task r rt))) = totalFiles r.
Proof. unfold reactTimeout. simpl. destruct (_ <? _); auto. Qed.

(** Every event but the arrival of a connection either leaves the session
    alone or rewrites the one record of its connection, and the runtime. *)
Lemma step_local s e :
  Inv s ->
  match e with
  | OnConnection _ _ => True
  | _ =>
      step files password s e = (s, [])
      \/ exists c r triple,
           eventConn s e = Some c /\ recordOf s c = Some r
           /\ step files password s e
              = (withConns s (setRecord c (fst (fst triple)) (conns s)) (snd (fst triple)),
                 snd triple)
           /\ (dataConnection (fst (fst triple)) = dataConnection r
               /\ totalFiles (fst (fst triple)) = totalFiles r)
           /\ ((exists cl decoded,
                  e = OnData c decoded /\ closures (runtime s) !! c = Some cl
                  /\ connId (cl_conn cl) = c
                  /\ triple = react files password (cl_conn cl) decoded r (runtime s))
               \/ (exists cl,
                     e = OnClose c /\ closures (runtime s) !! c = Some cl
                     /\ connId (cl_conn cl) = c
                     /\ triple = reactClose (cl_conn cl) r (runtime s))
               \/ (exists timer task,
                     e = OnTimeout timer /\ timeouts (runtime s) !! timer = Some task
                     /\ connId (task_conn task) = c
                     /\ triple = reactTimeout timer task r (runtime s)))
  end.
Proof.
  intros HI. destruct e as [p md|c decoded|c|timer]; [exact I| | |]; simpl.
  - destruct (closures (runtime s) !! c) as [cl|] eqn:Hcl; [|left; reflexivity].
    destruct (registered_record s c cl HI Hcl) as (Hid & r & Hrec). right.
    exists c, r, (react files password (cl_conn cl) decoded r (runtime s)).
    split; [reflexivity|]. split; [exact Hrec|]. split; [|split].
    + rewrite <- Hid in Hrec. rewrite (onData_react s _ decoded r (proj1 HI) Hrec).
      rewrite Hid. reflexivity.
    + apply react_keeps.
    + left. exists cl, decoded. auto.
  - destruct (closures (runtime s) !! c) as [cl|] eqn:Hcl; [|left; reflexivity].
    destruct (registered_record s c cl HI Hcl) as (Hid & r & Hrec). right.
    exists c, r, (reactClose (cl_conn cl) r (runtime s)).
    split; [reflexivity|]. split; [exact Hrec|]. split; [|split].
    + rewrite <- Hid in Hrec. rewrite (onClose_react s _ r (proj1 HI) Hrec).
      rewrite Hid. reflexivity.
    + apply reactClose_keeps.
    + right. left. exists cl. auto.
  - destruct (timeouts (runtime s) !! timer) as [task|] eqn:Htask; [|left; reflexivity].
    destruct (task_record s timer task HI Htask) as (r & Hrec). right.
    exists (connId (task_conn task)), r, (reactTimeout timer task r (runtime s)).
    split; [reflexivity|]. split; [exact Hrec|]. split; [|split].
    + apply (sendChunk_react s timer task r (proj1 HI) Hrec).
    + apply reactTimeout_keeps.
    + right. right. exists timer, task. auto.
Qed.

End React.

(** ** One chunk timer per connection *)

Lemma noPending_unnamed cs rt c :
  TimersOk cs rt ->
  (forall cl, closures rt !! c = Some cl -> sendChunkTimeout cl = None) ->
  noPending rt c.
Proof.
  intros (HN & _) Hnone t task Htask Hc.
  destruct (HN _ _ Htask) as (cl & Hcl & Hnamed). rewrite Hc in Hcl.
  rewrite (Hnone cl Hcl) in Hnamed. discriminate.
Qed.

Lemma noPending_status cs rt c r :
  TimersOk cs rt ->
  List.find (fun x => Nat.eqb (recId x) c) cs = Some r ->
  status r <> UploaderConnectionStatus.Uploading ->
  status r <> UploaderConnectionStatus.Closed ->
  noPending rt c.
Proof.
  intros (_ & _ & _ & HS) Hrec Hu Hc t task Htask Heq. rewrite <- Heq in Hrec.
  destruct (HS _ _ _ Htask Hrec); contradiction.
Qed.

Lemma noPending_after_clear cs rt c cl t :
  TimersOk cs rt ->
  closures rt !! c = Some cl -> sendChunkTimeout cl = Some t ->
  noPending (clearTimeout t rt) c.
Proof.
  intros (HN & _) Hcl Hnamed t' task Htask Hc. simpl in Htask.
  rewrite lookup_delete in Htask. case_decide as E; [discriminate|].
  destruct (HN _ _ Htask) as (cl' & Hcl' & Hnamed'). rewrite Hc in Hcl'.
  rewrite Hcl in Hcl'. injection Hcl' as <-. congruence.
Qed.

Lemma TimersOk_setRecord cs rt c r r' :
  TimersOk cs rt ->
  List.find (fun x => Nat.eqb (recId x) c) cs = Some r ->
  recId r' = c ->
  status r' = status r \/ noPending rt c
  \/ status r' = UploaderConnectionStatus.Uploading
  \/ status r' = UploaderConnectionStatus.Closed ->
  TimersOk (setRecord c r' cs) rt.
Proof.
  intros (HN & HF & HO & HS) Hrec Hid Hst.
  split; [exact HN|]. split; [exact HF|]. split; [exact HO|].
  intros t task x Htask Hx.
  destruct (Nat.eq_dec (connId (task_conn task)) c) as [E|NE].
  - rewrite E in Hx. rewrite (find_setRecord_same c r r' cs Hrec Hid) in Hx.
    injection Hx as <-. rewrite <- E in Hrec.
    destruct Hst as [Hst|[Hst|Hst]].
    + rewrite Hst. apply (HS _ _ _ Htask Hrec).
    + exfalso. apply (Hst _ _ Htask E).
    + exact Hst.
  - rewrite (find_setRecord_other c _ r' cs NE Hid) in Hx. apply (HS _ _ _ Htask Hx).
Qed.

Lemma TimersOk_clearTimeout cs rt t :
  TimersOk cs rt -> TimersOk cs (clearTimeout t rt).
Proof.
  intros (HN & HF & HO & HS). split; [|split; [|split]]; simpl.
  - intros t' task. rewrite lookup_delete. case_decide; [discriminate|apply HN].
  - exact HF.
  - intros c cl t' task Hcl Hn. rewrite lookup_delete.
    case_decide; [discriminate|apply (HO _ _ _ _ Hcl Hn)].
  - intros t' task r. rewrite lookup_delete. case_decide; [discriminate|apply HS].
Qed.

Lemma TimersOk_resetSendChunkTimeout cs rt conn :
  TimersOk cs rt -> noPending rt (connId conn) ->
  TimersOk cs (resetSendChunkTimeout conn rt).
Proof.
  intros (HN & HF & HO & HS) Hno. split; [|split; [|split]]; simpl.
  - intros t task Htask. rewrite lookup_insert_ne; [apply (HN _ _ Htask)|].
    intros E. apply (Hno _ _ Htask). symmetry. exact E.
  - intros c cl t. rewrite lookup_insert. case_decide.
    + intros [= <-]. discriminate.
    + apply HF.
  - intros c cl t task. rewrite lookup_insert. case_decide.
    + intros [= <-]. discriminate.
    + apply HO.
  - exact HS.
Qed.

Lemma TimersOk_sendNextChunkAsync cs rt conn file fileName offset :
  TimersOk cs rt -> noPending rt (connId conn) ->
  (forall r, List.find (fun x => Nat.eqb (recId x) (connId conn)) cs = Some r ->
             status r = UploaderConnectionStatus.Uploading
             \/ status r = UploaderConnectionStatus.Closed) ->
  TimersOk cs (sendNextChunkAsync conn file fileName offset rt).
Proof.
  intros (HN & HF & HO & HS) Hno Hst.
  assert (Hlt : forall t task, timeouts rt !! t = Some task -> (t < nextTimeout rt)%nat).
  { intros t task Htask. destruct (HN _ _ Htask) as (cl & Hcl & Hn). apply (HF _ _ _ Hcl Hn). }
  split; [|split; [|split]]; simpl.
  - intros t task. rewrite lookup_insert. case_decide as E.
    + intros [= <-]. simpl. rewrite lookup_insert_eq. subst t. eauto.
    + intros Htask. rewrite lookup_insert_ne; [apply (HN _ _ Htask)|].
      intros E'. apply (Hno _ _ Htask). symmetry. exact E'.
  - intros c cl t. rewrite lookup_insert. case_decide.
    + intros [= <-]. simpl. intros [= <-]. lia.
    + intros Hcl Hn. specialize (HF _ _ _ Hcl Hn). lia.
  - intros c cl t task. rewrite lookup_insert. case_decide as E.
    + intros [= <-]. simpl. intros [= <-]. rewrite lookup_insert_eq.
      intros [= <-]. simpl. exact E.
    + intros Hcl Hn. pose proof (HF _ _ _ Hcl Hn) as Hfresh.
      rewrite lookup_insert_ne by lia. apply (HO _ _ _ _ Hcl Hn).
  - intros t task r. rewrite lookup_insert. case_decide.
    + intros [= <-]. simpl. apply Hst.
    + apply HS.
Qed.

Lemma status_dec_UC (st : Status) :
  (st = UploaderConnectionStatus.Uploading \/ st = UploaderConnectionStatus.Closed)
  \/ (st <> UploaderConnectionStatus.Uploading /\ st <> UploaderConnectionStatus.Closed).
Proof. destruct st; auto; right; split; discriminate. Qed.

Ltac quiet_status r Hrec HT :=
  right; left; apply (noPending_status _ _ _ r HT Hrec); congruence.

Ltac set_record r0 HT Hrec Hid :=
  apply TimersOk_setRecord with (r := r0); [exact HT|exact Hrec|exact Hid|].

Section TimersInvariant.

Variable files : list UploadedFile.
Variable password : string.

Lemma react_TimersOk cs rt conn decoded r :
  TimersOk cs rt ->
  List.find (fun x => Nat.eqb (recId x) (connId conn)) cs = Some r ->
  recId r = connId conn ->
  TimersOk
    (setRecord (connId conn) (fst (fst (react files password conn decoded r rt))) cs)
    (snd (fst (react files password conn decoded r rt))).
Proof.
  intros HT Hrec Hid.
  assert (Hsame : TimersOk (setRecord (connId conn) r cs) rt).
  { set_record r HT Hrec Hid. left. reflexivity. }
  assert (Hclosed : TimersOk (setRecord (connId conn)
                                (withStatus r UploaderConnectionStatus.Closed) cs) rt).
  { set_record r HT Hrec Hid. right. right. right. reflexivity. }
  destruct decoded as [message|]; [|exact Hclosed].
  destruct message; simpl; try exact Hsame.
  - destruct (passwordSet password); simpl;
      destruct (status r) eqn:Es; simpl; try exact Hsame;
      set_record r HT Hrec Hid; quiet_status r Hrec HT.
  - destruct (String.eqb _ _); simpl;
      destruct (status r) eqn:Es; simpl; try exact Hsame;
      set_record r HT Hrec Hid; quiet_status r Hrec HT.
  - destruct (validateOffset files fileName offset) as [file|]; [|exact Hclosed].
    assert (Hgo : (status r = UploaderConnectionStatus.Ready
                   \/ status r = UploaderConnectionStatus.Paused) ->
                  TimersOk
                    (setRecord (connId conn)
                       (withUpload r fileName offset (Ratio offset (size file))) cs)
                    (sendNextChunkAsync conn file fileName offset rt)).
    { intros Hst. assert (Hno : noPending rt (connId conn)).
      { apply (noPending_status _ _ _ r HT Hrec); destruct Hst; congruence. }
      apply TimersOk_sendNextChunkAsync; [|exact Hno|].
      - set_record r HT Hrec Hid. right. right. left. reflexivity.
      - intros x Hx.
        rewrite (find_setRecord_same _ r
                   (withUpload r fileName offset (Ratio offset (size file))) cs Hrec Hid)
          in Hx.
        injection Hx as <-. left. reflexivity. }
    destruct (status r) eqn:Es; simpl; try exact Hsame; apply Hgo; auto.
  - destruct (status r) eqn:Es; simpl; try exact Hsame.
    unfold readSendChunkTimeout.
    destruct (closures rt !! connId conn) as [cl|] eqn:Hcl.
    + destruct (sendChunkTimeout cl) as [t|] eqn:Hn.
      * pose proof (noPending_after_clear cs rt _ cl t HT Hcl Hn) as Hno.
        apply TimersOk_setRecord with (r := r); [|exact Hrec|exact Hid|right; left; exact Hno].
        apply TimersOk_resetSendChunkTimeout; [apply TimersOk_clearTimeout, HT|exact Hno].
      * set_record r HT Hrec Hid. right. left.
        apply (noPending_unnamed cs rt _ HT). intros cl' Hcl'. congruence.
    + set_record r HT Hrec Hid. right. left.
      apply (noPending_unnamed cs rt _ HT). intros cl' Hcl'. congruence.
  - destruct (status r) eqn:Es; simpl; try exact Hsame.
    set_record r HT Hrec Hid. quiet_status r Hrec HT.
Qed.

Lemma reactClose_TimersOk cs rt conn r :
  TimersOk cs rt ->
  List.find (fun x => Nat.eqb (recId x) (connId conn)) cs = Some r ->
  recId r = connId conn ->
  TimersOk (setRecord (connId conn) (fst (fst (reactClose conn r rt))) cs)
           (snd (fst (reactClose conn r rt))).
Proof.
  intros HT Hrec Hid. unfold reactClose. simpl.
  assert (HT' : TimersOk cs match readSendChunkTimeout conn rt with
                            | Some timer => clearTimeout timer rt
                            | None => rt
                            end).
  { destruct (readSendChunkTimeout conn rt); [apply TimersOk_clearTimeout, HT|exact HT]. }
  destruct (isInvalidPassword (status r) || isDone (status r));
    set_record r HT' Hrec Hid; auto.
Qed.

Lemma reactTimeout_TimersOk cs rt timer task r :
  TimersOk cs rt ->
  timeouts rt !! timer = Some task ->
  List.find (fun x => Nat.eqb (recId x) (connId (task_conn task))) cs = Some r ->
  recId r = connId (task_conn task) ->
  TimersOk
    (setRecord (connId (task_conn task)) (fst (fst (reactTimeout timer task r rt))) cs)
    (snd (fst (reactTimeout timer task r rt))).
Proof.
  intros HT Htask Hrec Hid. pose proof HT as (HN & _ & _ & HS).
  destruct (HN _ _ Htask) as (cl & Hcl & Hn).
  pose proof (noPending_after_clear cs rt _ cl timer HT Hcl Hn) as Hno.
  pose proof (TimersOk_clearTimeout cs rt timer HT) as HT'.
  unfold reactTimeout. simpl. destruct (_ <? MAX_CHUNK_SIZE); simpl.
  - set_record r HT' Hrec Hid. right. left. exact Hno.
  - apply TimersOk_sendNextChunkAsync; [|exact Hno|].
    + set_record r HT' Hrec Hid. left. reflexivity.
    + intros x Hx.
      match type of Hx with
      | List.find _ (setRecord _ ?r' _) = _ =>
          rewrite (find_setRecord_same _ r r' cs Hrec Hid) in Hx
      end.
      injection Hx as <-. simpl. apply (HS _ _ _ Htask Hrec).
Qed.

Lemma step_TimersOk s e :
  Inv s -> TimersOk (conns s) (runtime s) ->
  TimersOk (conns (fst (step files password s e)))
           (runtime (fst (step files password s e))).
Proof.
  intros HI HT. pose proof (step_local files password s e HI) as Hloc.
  destruct e as [p md|c decoded|c|timer].
  - clear Hloc. simpl. unfold listener. destruct (isReport _); simpl; [exact HT|].
    destruct HI as (_ & Hlt & _ & Htasks & _). destruct HT as (HN & HF & HO & HS).
    assert (Hfresh : forall t task, timeouts (runtime s) !! t = Some task ->
                                    connId (task_conn task) <> nextConn s).
    { intros t task Htask E. specialize (Hlt _ (Htasks _ _ Htask)). lia. }
    split; [|split; [|split]]; simpl.
    + intros t task Htask. rewrite lookup_insert_ne; [apply (HN _ _ Htask)|].
      intros E. apply (Hfresh _ _ Htask). symmetry. exact E.
    + intros c cl t. rewrite lookup_insert. case_decide.
      * intros [= <-]. discriminate.
      * apply HF.
    + intros c cl t task. rewrite lookup_insert. case_decide.
      * intros [= <-]. discriminate.
      * apply HO.
    + intros t task r Htask. unfold recId at 1. simpl.
      destruct (Nat.eqb_spec (nextConn s) (connId (task_conn task))) as [E|_].
      * exfalso. apply (Hfresh _ _ Htask). symmetry. exact E.
      * apply (HS _ _ _ Htask).
  - destruct Hloc as [-> | (c0 & r & triple & _ & Hrec & -> & Hkeep & Hcase)]; [exact HT|].
    destruct Hcase as [(cl & d & [= <- <-] & _ & Hid & ->)
                      |[(cl & [=] & _) | (t & task & [=] & _)]].
    simpl. rewrite <- Hid in Hrec |- *.
    apply react_TimersOk; [exact HT|exact Hrec|apply (recordOf_id _ _ _ Hrec)].
  - destruct Hloc as [-> | (c0 & r & triple & _ & Hrec & -> & Hkeep & Hcase)]; [exact HT|].
    destruct Hcase as [(cl & d & [=] & _)
                      |[(cl & [= <-] & _ & Hid & ->) | (t & task & [=] & _)]].
    simpl. rewrite <- Hid in Hrec |- *.
    apply reactClose_TimersOk; [exact HT|exact Hrec|apply (recordOf_id _ _ _ Hrec)].
  - destruct Hloc as [-> | (c0 & r & triple & _ & Hrec & -> & Hkeep & Hcase)]; [exact HT|].
    destruct Hcase as [(cl & d & [=] & _)
                      |[(cl & [=] & _) | (t & task & [= <-] & Htask & Hid & ->)]].
    simpl. rewrite <- Hid in Hrec |- *.
    apply reactTimeout_TimersOk;
      [exact HT|exact Htask|exact Hrec|apply (recordOf_id _ _ _ Hrec)].
Qed.

Lemma reach_TimersOk events :
  TimersOk (conns (reach files password events)) (runtime (reach files password events)).
Proof.
  induction events as [|e events IH] using rev_ind.
  - split; [|split; [|split]]; simpl; intros *; rewrite lookup_empty; discriminate.
  - rewrite reach_snoc. apply step_TimersOk; [apply reach_Inv|exact IH].
Qed.

End TimersInvariant.

(** ** The timers against the loop *)

Section Chain.

Variable files : list UploadedFile.
Variable password : string.

Lemma pump_idle c n s :
  pendingTimer s c = None -> pump files password c n s = (s, []).
Proof. intros H. destruct n; simpl; [reflexivity|]. rewrite H. reflexivity. Qed.

Lemma TimersOk_soleTimer s c :
  TimersOk (conns s) (runtime s) -> soleTimer s c.
Proof.
  intros (HN & _) timer task Htask <-. destruct (HN _ _ Htask) as (cl & Hcl & Hn).
  unfold pendingTimer. rewrite Hcl, Hn, Htask. reflexivity.
Qed.

Lemma soleTimer_noPending s c :
  soleTimer s c -> pendingTimer s c = None -> noPending (runtime s) c.
Proof.
  intros Hsole Hnone timer task Htask Hc.
  rewrite (Hsole timer task Htask Hc) in Hnone. discriminate.
Qed.

(** What a timer that comes due sends goes to the connection it serves. *)
Lemma timeout_actions s timer :
  Forall (fun a => exists task, timeouts (runtime s) !! timer = Some task
                                /\ actionConn a = Some (connId (task_conn task)))
         (snd (step files password s (OnTimeout timer))).
Proof.
  cbn [step]. destruct (timeouts (runtime s) !! timer) as [task|]; [|constructor].
  unfold sendChunk.
  match goal with
  | |- context [updateConnection ?cn ?fn ?s0] =>
      pose proof (fun a => updateConnection_out cn fn s0 a) as Hout;
      destruct (updateConnection cn fn s0) as [s' out]
  end.
  cbn [snd] in *. constructor; [exists task; split; reflexivity|].
  apply Forall_forall. intros a Ha. apply list_elem_of_In in Ha.
  destruct (Hout a Ha) as (d & rt0 & _ & _ & Hin). cbn beta in Hin.
  destruct (_ <? MAX_CHUNK_SIZE); destruct Hin.
Qed.

(** Firing chunk timers keeps the invariants of reachable sessions. *)
Lemma pump_invariants c n s :
  Inv s -> TimersOk (conns s) (runtime s) ->
  Inv (fst (pump files password c n s))
  /\ TimersOk (conns (fst (pump files password c n s)))
       (runtime (fst (pump files password c n s))).
Proof.
  revert s. induction n as [|n IH]; intros s HI HT; cbn [pump]; [auto|].
  destruct (pendingTimer s c) as [timer|]; [|auto].
  pose proof (step_Inv files password s (OnTimeout timer) HI) as HI1.
  pose proof (step_TimersOk files password s (OnTimeout timer) HI HT) as HT1.
  destruct (step files password s (OnTimeout timer)) as [s1 out1]. cbn [fst] in HI1, HT1.
  specialize (IH s1 HI1 HT1).
  destruct (pump files password c n s1) as [s2 out2]. exact IH.
Qed.

Lemma chainAt_pending s conn file fileName offset :
  chainAt s conn file fileName offset ->
  exists timer, pendingTimer s (connId conn) = Some timer
    /\ timeouts (runtime s) !! timer
       = Some {| task_conn := conn; task_file := file;
                 task_fileName := fileName; task_offset := offset |}.
Proof.
  intros (_ & timer & r & Hcl & Htask & _). exists timer. split; [|exact Htask].
  unfold pendingTimer. rewrite Hcl. simpl. rewrite Htask. reflexivity.
Qed.

(** One firing of the chain's timer: the chunk the loop prescribes goes
    out; unless it is final the chain stands at [end], otherwise the
    connection is [Ready] again with no timer pending. *)
Lemma chain_fire s conn file fileName offset timer :
  chainAt s conn file fileName offset ->
  pendingTimer s (connId conn) = Some timer ->
  let end_ := Z.min (size file) (offset + MAX_CHUNK_SIZE) in
  let final := end_ - offset <? MAX_CHUNK_SIZE in
  let result := step files password s (OnTimeout timer) in
  snd result
  = [DoSend (connId conn)
       (MessageType.Chunk fileName offset (slice file offset end_) final)]
  /\ (final = false -> chainAt (fst result) conn file fileName end_)
  /\ (final = true ->
      Inv (fst result)
      /\ pendingTimer (fst result) (connId conn) = None
      /\ statusOf (fst result) (connId conn) = Some UploaderConnectionStatus.Ready).
Proof.
  intros (HI & timer' & r & Hcl & Htask & Hrec & Hst) Hpend end_ final result.
  assert (timer' = timer) as ->.
  { unfold pendingTimer in Hpend. rewrite Hcl in Hpend. simpl in Hpend.
    rewrite Htask in Hpend. congruence. }
  pose proof (step_Inv files password s (OnTimeout timer) HI) as HI'.
  fold result in HI'. subst result. simpl in *. rewrite Htask in *.
  unfold sendChunk in *. simpl in *. fold end_ in HI' |- *. fold final in HI' |- *.
  set (s1 := withConns s (conns s) (clearTimeout timer (runtime s))) in *.
  assert (Hrec1 : recordOf s1 (connId conn) = Some r) by exact Hrec.
  rewrite (updateConnection_record _ _ s1 r (proj1 HI) Hrec1) in *.
  pose proof (recordOf_id s (connId conn) r Hrec) as [Hrid _].
  destruct final eqn:Hf; simpl in *.
  - split; [reflexivity|]. split; [discriminate|]. intros _.
    split; [exact HI'|]. split.
    + unfold pendingTimer. simpl. rewrite Hcl. simpl. rewrite lookup_delete_eq. reflexivity.
    + exact (statusOf_withConns s1 (connId conn) r (withCompleted r) _ Hrec1 Hrid).
  - split; [reflexivity|]. split; [|discriminate]. intros _.
    split; [exact HI'|]. exists (nextTimeout (runtime s)), (withOffset r end_ (Ratio end_ (size file))).
    simpl. rewrite !lookup_insert_eq.
    split; [reflexivity|]. split; [reflexivity|]. split; [|exact Hst].
    exact (recordOf_withConns s1 (connId conn) r
             (withOffset r end_ (Ratio end_ (size file))) _ Hrec1 Hrid).
Qed.

(** The chain of timers emits what the loop of the specification emits. *)
Lemma pump_emits n s conn file fileName offset :
  chainAt s conn file fileName offset ->
  snd (pump files password (connId conn) n s)
  = emitted (connId conn) file fileName n offset.
Proof.
  revert s offset. induction n as [|n IH]; intros s offset Hchain; [reflexivity|].
  destruct (chainAt_pending s conn file fileName offset Hchain) as (timer & Hpend & _).
  destruct (chain_fire s conn file fileName offset timer Hchain Hpend)
    as (Hout & Hnext & Hlast).
  cbn [pump]. rewrite Hpend.
  destruct (step files password s (OnTimeout timer)) as [s1 out1].
  cbn [fst snd] in Hout, Hnext, Hlast. subst out1.
  unfold emitted. cbn [chunksFrom List.map].
  destruct (_ <? MAX_CHUNK_SIZE) eqn:Hf.
  - destruct (Hlast eq_refl) as (_ & Hnone & _).
    rewrite (pump_idle (connId conn) n s1 Hnone). reflexivity.
  - specialize (IH s1 _ (Hnext eq_refl)).
    destruct (pump files password (connId conn) n s1) as [s2 out2].
    cbn [snd] in IH |- *. rewrite IH. reflexivity.
Qed.

(** Where the session stands after [k] firings: still in the chain if none
    of the [k] chunks was final, [Ready] and idle otherwise. *)
Lemma pump_state k s conn file fileName offset :
  chainAt s conn file fileName offset ->
  0 <= offset <= size file ->
  let s' := fst (pump files password (connId conn) k s) in
  (offset + Z.of_nat k * MAX_CHUNK_SIZE <= size file ->
   chainAt s' conn file fileName (offset + Z.of_nat k * MAX_CHUNK_SIZE))
  /\ (size file < offset + Z.of_nat k * MAX_CHUNK_SIZE ->
      Inv s' /\ pendingTimer s' (connId conn) = None
      /\ statusOf s' (connId conn) = Some UploaderConnectionStatus.Ready).
Proof.
  revert s offset. induction k as [|k IH]; intros s offset Hchain Ho.
  - cbn [pump fst]. replace (offset + Z.of_nat 0 * MAX_CHUNK_SIZE) with offset by lia.
    split; [auto|lia].
  - destruct (chainAt_pending s conn file fileName offset Hchain) as (timer & Hpend & _).
    destruct (chain_fire s conn file fileName offset timer Hchain Hpend)
      as (_ & Hnext & Hlast).
    pose proof MAX_CHUNK_SIZE_pos as Hpos.
    cbn [pump]. rewrite Hpend.
    destruct (step files password s (OnTimeout timer)) as [s1 out1]. simpl fst in *.
    destruct (_ <? MAX_CHUNK_SIZE) eqn:Hf.
    + destruct (Hlast eq_refl) as (HI1 & Hnone & Hready).
      rewrite (pump_idle (connId conn) k s1 Hnone). cbn [fst].
      apply Z.ltb_lt in Hf. split; [lia|auto].
    + destruct (chunkCount_next file offset Ho Hf) as (Hend & Hle & _).
      rewrite Hend in Hnext.
      specialize (IH s1 _ (Hnext eq_refl) ltac:(lia)).
      destruct (pump files password (connId conn) k s1) as [s2 out2].
      cbn [fst] in IH |- *.
      replace (offset + Z.of_nat (S k) * MAX_CHUNK_SIZE)
        with (offset + MAX_CHUNK_SIZE + Z.of_nat k * MAX_CHUNK_SIZE) by lia.
      exact IH.
Qed.

End Chain.

Lemma validateOffset_later files fileName offset offset' file :
  validateOffset files fileName offset = Some file ->
  offset <= offset' <= size file ->
  validateOffset files fileName offset' = Some file.
Proof.
  unfold validateOffset. induction files as [|f files IH]; simpl; [discriminate|].
  intros Hfind Ho.
  destruct (String.eqb (getFileName f) fileName); simpl in *; [|auto].
  destruct (Z.leb_spec offset (size f)).
  - injection Hfind as ->. destruct (Z.leb_spec offset' (size file)); [reflexivity|lia].
  - destruct (Z.leb_spec offset' (size f)); [lia|auto].
Qed.

Lemma contiguousFrom_not_below offset out :
  contiguousFrom offset out ->
  Forall (fun a => forall o, chunkOffset a = Some o -> offset <= o) out.
Proof.
  revert offset. induction out as [|a out IH]; intros offset H; [constructor|].
  destruct H as [Ha Hrest]. constructor.
  - intros o Ho. rewrite Ha in Ho. injection Ho as <-. lia.
  - specialize (IH _ Hrest). eapply Forall_impl; [exact IH|].
    intros b Hb o Ho. specialize (Hb o Ho). unfold chunkLength in Hb. lia.
Qed.

Section Transfer.

Variable files : list UploadedFile.
Variable password : string.

(** An accepted Start sets up the chain at the offset asked for. *)
Lemma start_chain s c r fileName offset file :
  Inv s -> recordOf s c = Some r ->
  status r = UploaderConnectionStatus.Ready \/ status r = UploaderConnectionStatus.Paused ->
  validateOffset files fileName offset = Some file ->
  let result :=
    step files password s (OnData c (Some (MessageType.Start fileName offset))) in
  snd result = []
  /\ exists conn, connId conn = c /\ chainAt (fst result) conn file fileName offset.
Proof.
  intros HI Hrec Hst Hval result.
  pose proof (step_Inv files password s
                (OnData c (Some (MessageType.Start fileName offset))) HI) as HI'.
  fold result in HI'.
  destruct (start_accepted files password s c r fileName offset file HI Hrec Hst Hval)
    as (cl & Hcl & Hid & Hstep).
  subst result. rewrite Hstep in *. split; [reflexivity|].
  exists (cl_conn cl). split; [exact Hid|]. split; [exact HI'|].
  exists (nextTimeout (runtime s)),
    (withUpload r fileName offset (Ratio offset (size file))).
  cbn [fst runtime withConns sendNextChunkAsync closures timeouts].
  rewrite !lookup_insert_eq. split; [reflexivity|]. split; [reflexivity|].
  split; [|reflexivity]. rewrite Hid.
  apply (recordOf_withConns s c r _ _ Hrec). apply (recordOf_id s c r Hrec).
Qed.

(** Pause in mid-chain: nothing is sent, the pending timer is cancelled and
    the connection is [Paused]. *)
Lemma pause_chain s conn file fileName offset :
  chainAt s conn file fileName offset ->
  let result := step files password s (OnData (connId conn) (Some MessageType.Pause)) in
  snd result = []
  /\ Inv (fst result)
  /\ pendingTimer (fst result) (connId conn) = None
  /\ exists r, recordOf (fst result) (connId conn) = Some r
               /\ status r = UploaderConnectionStatus.Paused.
Proof.
  intros (HI & timer & r & Hcl & Htask & Hrec & Hst) result.
  pose proof (step_Inv files password s
                (OnData (connId conn) (Some MessageType.Pause)) HI) as HI'.
  fold result in HI'. subst result. cbn [step] in *. rewrite Hcl in *.
  cbn [onData cl_conn] in *. unfold onPause in *.
  rewrite (updateConnection_record _ _ s r (proj1 HI) Hrec) in *.
  rewrite Hst in *. cbn [isUploading negb] in *.
  unfold readSendChunkTimeout in *. rewrite Hcl in *.
  cbn [sendChunkTimeout fst snd] in *.
  split; [reflexivity|]. split; [exact HI'|]. split.
  - unfold pendingTimer. cbn [runtime withConns resetSendChunkTimeout closures].
    rewrite lookup_insert_eq. reflexivity.
  - exists (withStatus r UploaderConnectionStatus.Paused). split; [|reflexivity].
    apply (recordOf_withConns s (connId conn) r _ _ Hrec).
    apply (recordOf_id s _ r Hrec).
Qed.

(** ** Chunk emission *)

(** C1.  Once a Start is accepted (so [offset <= size]; the offset is a
    safe integer, where the numbers of the code are the integers), the
    chunk timers of the connection emit exactly what the loop of the
    specification emits from that offset, [n] firings giving its first [n]
    rounds, [bytes[offset,end)] being [slice(offset, end)]; and at every
    stage the timer that fires is the only timer the event loop holds for
    the connection, so no chunk of the connection comes from anywhere else.
    For a file of 300000 bytes served from offset 0 that is three chunks,
    of 131072, 131072 and 37856 bytes, only the last of them final, and no
    more however often the event loop looks for a further timer. *)
Theorem chunk_timers_emit_the_loop
    (events : list Event) (c : nat) (st : Status)
    (fileName : string) (offset : Z) (file : UploadedFile) :
  let s := reach files password events in
  statusOf s c = Some st ->
  st = UploaderConnectionStatus.Ready \/ st = UploaderConnectionStatus.Paused ->
  validateOffset files fileName offset = Some file ->
  MIN_SAFE_INTEGER <= offset ->
  let s0 :=
    fst (step files password s (OnData c (Some (MessageType.Start fileName offset)))) in
  (forall n, snd (pump files password c n s0) = emitted c file fileName n offset)
  /\ (forall n, soleTimer (fst (pump files password c n s0)) c)
  /\ (size file = 300000 -> offset = 0 ->
      forall n, (3 <= n)%nat ->
        List.map chunkLength (snd (pump files password c n s0))
        = [131072; 131072; 37856]
        /\ List.map chunkFinal (snd (pump files password c n s0))
           = [Some false; Some false; Some true]).
Proof.
  intros s Hst Hready Hval Hoff s0.
  pose proof (reach_Inv files password events) as HI. fold s in HI.
  pose proof (reach_TimersOk files password events) as HT. fold s in HT.
  pose proof (step_Inv files password s
                (OnData c (Some (MessageType.Start fileName offset))) HI) as HI0.
  pose proof (step_TimersOk files password s
                (OnData c (Some (MessageType.Start fileName offset))) HI HT) as HT0.
  fold s0 in HI0, HT0.
  apply statusOf_record in Hst as (r & Hrec & <-).
  destruct (start_chain s c r fileName offset file HI Hrec Hready Hval)
    as (_ & conn & <- & Hchain).
  fold s0 in Hchain.
  assert (Hloop : forall n, snd (pump files password (connId conn) n s0)
                            = emitted (connId conn) file fileName n offset).
  { intros n. apply pump_emits, Hchain. }
  split; [exact Hloop|]. split.
  { intros n. apply TimersOk_soleTimer.
    apply (pump_invariants files password (connId conn) n s0 HI0 HT0). }
  intros Hsize -> n Hn. rewrite Hloop.
  destruct n as [|[|[|m]]]; try lia. unfold emitted. cbn [chunksFrom]. rewrite Hsize.
  change (Z.min 300000 (0 + MAX_CHUNK_SIZE)) with 131072.
  change (131072 - 0 <? MAX_CHUNK_SIZE) with false. cbv iota.
  change (Z.min 300000 (131072 + MAX_CHUNK_SIZE)) with 262144.
  change (262144 - 131072 <? MAX_CHUNK_SIZE) with false. cbv iota.
  change (Z.min 300000 (262144 + MAX_CHUNK_SIZE)) with 300000.
  change (300000 - 262144 <? MAX_CHUNK_SIZE) with true. cbv iota.
  cbn [List.map chunkFinal]. split; [|reflexivity].
  unfold chunkLength. cbn [chunkBytes].
  rewrite !length_slice by lia. reflexivity.
Qed.

End Transfer.

(** With distinct names, a name belongs to one offered file. *)
Lemma same_name_same_file (files : list UploadedFile) (f g : UploadedFile) :
  NoDup (List.map getFileName files) -> In f files -> In g files ->
  getFileName f = getFileName g -> f = g.
Proof.
  induction files as [|x l IH]; intros Hnd Hf Hg Hname; [destruct Hf|].
  cbn [List.map] in Hnd. apply NoDup_cons in Hnd as [Hx Hnd].
  assert (Hout : forall h, In h l -> getFileName h <> getFileName x).
  { intros h Hh E. apply Hx. rewrite <- E. apply list_elem_of_In, in_map, Hh. }
  destruct Hf as [<-|Hf], Hg as [<-|Hg]; auto.
  - exfalso. apply (Hout g Hg). congruence.
  - exfalso. apply (Hout f Hf). congruence.
Qed.

Section Resume.

Variable files : list UploadedFile.
Variable password : string.

(** C2.  A transfer of [file] is started at [offset]; [whole] is what the
    connection is sent when its timers fire [k + n] times, enough to finish.
    Its chunks all carry the file's name, follow one another without gap or
    overlap from [offset] on, add up to the bytes of the file from [offset]
    to its end (the whole file when [offset = 0]), and only the last is
    final.  [file] is the file [validateOffset] serves under the name; when
    the names of the offered files are distinct it is the one file of that
    name, so this holds for every offered file.

    If instead a Pause arrives after [k] chunks while the connection is
    [Uploading], nothing is sent for it and the pending timer is cancelled:
    the event loop is left with no timer at all that serves the connection,
    so nothing goes out while it is paused.  A Start for the same file at
    the offset the downloader has reached ([offset] plus the bytes of those
    [k] chunks) is accepted silently; from then on the event loop again
    holds one timer for the connection and no other, and the chunks sent
    before the pause followed by those sent after the resume are the chunks
    of the uninterrupted transfer, so the first chunk after the resume
    starts right at that offset and none starts below it. *)
Theorem chunks_rebuild_the_file_and_resume_is_seamless
    (events : list Event) (c : nat) (st : Status)
    (fileName : string) (file : UploadedFile) (offset : Z) (k n : nat) :
  let s := reach files password events in
  statusOf s c = Some st ->
  st = UploaderConnectionStatus.Ready \/ st = UploaderConnectionStatus.Paused ->
  validateOffset files fileName offset = Some file ->
  0 <= offset ->
  let s0 :=
    fst (step files password s (OnData c (Some (MessageType.Start fileName offset)))) in
  let whole := snd (pump files password c (k + n) s0) in
  let s1 := fst (pump files password c k s0) in
  let out1 := snd (pump files password c k s0) in
  statusOf s1 c = Some UploaderConnectionStatus.Uploading ->
  (chunkCount file offset <= k + n)%nat ->
  let lastAckedOffset := offset + Z.of_nat (length (payload out1)) in
  let paused := step files password s1 (OnData c (Some MessageType.Pause)) in
  let resumed :=
    step files password (fst paused)
      (OnData c (Some (MessageType.Start fileName lastAckedOffset))) in
  let out2 := snd (pump files password c n (fst resumed)) in
  (Forall (isChunkTo c fileName) whole
   /\ contiguousFrom offset whole
   /\ payload whole = drop (Z.to_nat offset) (content file)
   /\ (offset = 0 -> payload whole = content file)
   /\ List.map chunkFinal whole
      = repeat (Some false) (chunkCount file offset - 1) ++ [Some true]
   /\ (NoDup (List.map getFileName files) ->
       forall f, In f files -> getFileName f = fileName -> f = file))
  /\ (snd paused = []
      /\ pendingTimer (fst paused) c = None
      /\ noPending (runtime (fst paused)) c
      /\ (forall timer,
            Forall (fun a => actionConn a <> Some c)
              (snd (step files password (fst paused) (OnTimeout timer))))
      /\ statusOf (fst paused) c = Some UploaderConnectionStatus.Paused
      /\ snd resumed = [])
  /\ (out1 ++ out2 = whole
      /\ (forall m, soleTimer (fst (pump files password c m (fst resumed))) c)
      /\ contiguousFrom lastAckedOffset out2
      /\ Forall (fun a => forall o, chunkOffset a = Some o -> lastAckedOffset <= o) out2).
Proof.
  intros s Hst Hready Hval Hoff s0 whole s1 out1 Hup Hcount lastAckedOffset paused resumed out2.
  pose proof (reach_Inv files password events) as HI. fold s in HI.
  pose proof (reach_TimersOk files password events) as HT. fold s in HT.
  pose proof (step_Inv files password s
                (OnData c (Some (MessageType.Start fileName offset))) HI) as HI0.
  pose proof (step_TimersOk files password s
                (OnData c (Some (MessageType.Start fileName offset))) HI HT) as HT0.
  fold s0 in HI0, HT0.
  destruct (pump_invariants files password c k s0 HI0 HT0) as [HI1 HT1].
  fold s1 in HI1, HT1.
  pose proof (step_TimersOk files password s1 (OnData c (Some MessageType.Pause)) HI1 HT1)
    as HTp.
  fold paused in HTp.
  apply statusOf_record in Hst as (r & Hrec & <-).
  destruct (validateOffset_Some files fileName offset file Hval) as (_ & _ & Hsize).
  destruct (start_chain files password s c r fileName offset file HI Hrec Hready Hval)
    as (_ & conn & Hconn & Hchain).
  fold s0 in Hchain. subst c. set (c := connId conn) in *.
  pose proof MAX_CHUNK_SIZE_pos as Hpos.
  assert (Hwhole : whole = emitted c file fileName (k + n) offset)
    by (apply pump_emits, Hchain).
  assert (Hout1 : out1 = emitted c file fileName k offset)
    by (apply pump_emits, Hchain).
  destruct (pump_state files password k s0 conn file fileName offset Hchain
              ltac:(lia)) as [Hstill Hdone].
  fold c in Hstill, Hdone. fold s1 in Hstill, Hdone.
  assert (Hle : offset + Z.of_nat k * MAX_CHUNK_SIZE <= size file).
  { destruct (Z.le_gt_cases (offset + Z.of_nat k * MAX_CHUNK_SIZE) (size file))
      as [H|H]; [exact H|].
    destruct (Hdone ltac:(lia)) as (_ & _ & Hr). rewrite Hr in Hup. discriminate. }
  specialize (Hstill Hle). clear Hdone.
  destruct (emitted_split c file fileName k n offset Hoff Hle) as [Hsplit Hlen].
  assert (Hacked : lastAckedOffset = offset + Z.of_nat k * MAX_CHUNK_SIZE).
  { unfold lastAckedOffset. rewrite Hout1, Hlen. reflexivity. }
  destruct (pause_chain files password s1 conn file fileName _ Hstill)
    as (Hpout & HI2 & Hnone & r2 & Hrec2 & Hst2).
  fold c in Hpout, HI2, Hnone, Hrec2. fold paused in Hpout, HI2, Hnone, Hrec2.
  assert (Hval' : validateOffset files fileName lastAckedOffset = Some file).
  { apply (validateOffset_later files fileName offset); [exact Hval|].
    rewrite Hacked. lia. }
  destruct (start_chain files password (fst paused) c r2 fileName lastAckedOffset file
              HI2 Hrec2 (or_intror Hst2) Hval')
    as (Hrout & conn' & Hconn' & Hchain').
  fold resumed in Hrout, Hchain'.
  assert (Hout2 : out2 = emitted c file fileName n lastAckedOffset).
  { unfold out2. rewrite <- Hconn'. apply pump_emits, Hchain'. }
  assert (Hcontig2 : contiguousFrom lastAckedOffset out2).
  { rewrite Hout2. apply emitted_contiguous. rewrite Hacked. lia. }
  assert (Hquiet : noPending (runtime (fst paused)) c).
  { apply soleTimer_noPending; [apply TimersOk_soleTimer, HTp|exact Hnone]. }
  pose proof (step_Inv files password (fst paused)
                (OnData c (Some (MessageType.Start fileName lastAckedOffset))) HI2) as HIr.
  pose proof (step_TimersOk files password (fst paused)
                (OnData c (Some (MessageType.Start fileName lastAckedOffset))) HI2 HTp)
    as HTr.
  fold resumed in HIr, HTr.
  split; [|split].
  - rewrite Hwhole. split; [apply emitted_isChunk|].
    split; [apply emitted_contiguous; lia|].
    split; [apply emitted_payload; [lia|exact Hcount]|].
    split; [|split; [apply emitted_finals; [lia|exact Hcount]|]].
    + intros ->. rewrite emitted_payload by (try lia; exact Hcount). reflexivity.
    + intros Hnd f Hf Hname.
      destruct (validateOffset_Some files fileName offset file Hval) as (Hin & Hn & _).
      apply (same_name_same_file files f file Hnd Hf Hin). congruence.
  - split; [exact Hpout|]. split; [exact Hnone|]. split; [exact Hquiet|].
    split; [|split; [|exact Hrout]].
    + intros timer.
      eapply Forall_impl; [apply (timeout_actions files password (fst paused) timer)|].
      cbn beta. intros a (task & Htask & ->) [= Hc]. exact (Hquiet timer task Htask Hc).
    + unfold statusOf. rewrite Hrec2, Hst2. reflexivity.
  - split; [|split; [|split]].
    + rewrite Hwhole, Hout1, Hout2, Hacked. symmetry. exact Hsplit.
    + intros m. apply TimersOk_soleTimer.
      apply (pump_invariants files password c m (fst resumed) HIr HTr).
    + exact Hcontig2.
    + apply contiguousFrom_not_below, Hcontig2.
Qed.

End Resume.

(** * Worked examples *)

Lemma size_video : size video = 300000.
Proof.
  unfold size.
  change (content video) with (repeat "x"%byte (Z.to_nat 300000)).
  rewrite repeat_length. apply Z2Nat.id. discriminate.
Qed.

(** ** Where the specification and the code part ways *)

(** A report connection arrives right after the first render.  The page
    is redirected, but [close] is not called on the report connection
    (connection 0) itself: the report branch has no call for it. *)
Lemma report_connection_itself_is_not_closed :
  snd (run [notes] "" mount [OnConnection "reporter" (Some "report"%string)])
  = [[DoRedirect "/reported"]]
  /\ ~ In (DoClose 0)
         (List.concat
            (snd (run [notes] "" mount
                    [OnConnection "reporter" (Some "report"%string)]))).
Proof.
  split; [reflexivity|]. simpl. intros [H|[]]. discriminate.
Qed.

(** C10: the body [null] has no slug field, and so has a body that is not
    JSON; the handler answers neither with 400: it throws. *)
Lemma null_body_is_not_answered_400 :
  fst (DestroyRoute.POST DestroyRoute.destroyChannel (Some DestroyRoute.JNull)
         [sampleChannel])
  = DestroyRoute.Throws
  /\ fst (DestroyRoute.POST DestroyRoute.destroyChannel None [sampleChannel])
     = DestroyRoute.Throws
  /\ (forall response,
        fst (DestroyRoute.POST DestroyRoute.destroyChannel (Some DestroyRoute.JNull)
               [sampleChannel])
        <> DestroyRoute.Returns response).
Proof. split; [reflexivity|]. split; [reflexivity|]. intros response. discriminate. Qed.

(** C6: with password "hunter2" configured, a connection whose first and
    only message is UsePassword "hunter2" is sent Info; it never sent a
    RequestInfo. *)
Lemma info_sent_without_request_info :
  let events :=
    [OnConnection "peer" None;
     OnData 0 (Some (MessageType.UsePassword "hunter2"))] in
  snd (run [notes] "hunter2" mount events)
  = [[]; [DoSend 0 (MessageType.Info [notesInfo])]]
  /\ List.existsb (isRequestInfoOf 0) events = false.
Proof. split; reflexivity. Qed.

(** C8: no password; the connection has reached [Ready] through a first
    RequestInfo.  A second RequestInfo leaves it [Ready] and is answered
    with Info once more. *)
Lemma request_info_in_Ready_is_answered :
  statusOf (reach [notes] "" [OnConnection "peer" None; OnData 0 (Some hello)]) 0
  = Some UploaderConnectionStatus.Ready
  /\ step [notes] "" (reach [notes] "" [OnConnection "peer" None; OnData 0 (Some hello)])
       (OnData 0 (Some hello))
     = (reach [notes] "" [OnConnection "peer" None; OnData 0 (Some hello)],
        [DoSend 0 (MessageType.Info [notesInfo])]).
Proof. split; reflexivity. Qed.

(** The password is compared as it is written: "Hunter2" does not open a
    share protected by "hunter2", and the Start that follows sets no timer. *)
Lemma password_is_case_sensitive :
  let s :=
    reach [notes] "hunter2"
      [OnConnection "peer" None; OnData 0 (Some hello);
       OnData 0 (Some (MessageType.UsePassword "Hunter2"));
       OnData 0 (Some (MessageType.Start "notes.txt" 0))] in
  statusOf s 0 = Some UploaderConnectionStatus.InvalidPassword
  /\ pendingTimer s 0 = None.
Proof. split; reflexivity. Qed.

(** C5.  The code where it falls short of the claim: a downloader
    (connection 0) connected after the first render and is in mid-transfer
    when a report connection arrives.  The listener, which still holds the
    empty [connections] array of the first render, only redirects the page:
    the downloader is sent no Report, [close] is not called on it, and when
    its timer comes due its next chunk still goes out. *)
Lemma report_does_not_reach_a_later_sibling :
  snd (run [notes] "" mount
         [OnConnection "peer" None; OnData 0 (Some hello);
          OnData 0 (Some (MessageType.Start "notes.txt" 0));
          OnConnection "reporter" (Some "report"%string);
          OnTimeout 1])
  = [[]; [DoSend 0 (MessageType.Info [notesInfo])]; [];
     [DoRedirect "/reported"];
     [DoSend 0 (MessageType.Chunk "notes.txt" 0 ["h"; "i"; "!"]%byte true)]].
Proof. reflexivity. Qed.

(** Two files are offered under one name.  The catalog lists both, but a
    Start within the size of the first is served from the first; the second
    is reached only beyond it. *)
Lemma shadowed_entry_is_served_from_the_first_file :
  let s := reach [draftOld; draftNew] "" [OnConnection "peer" None; OnData 0 (Some hello)] in
  List.map fi_size (fileInfo [draftOld; draftNew]) = [3; 5]
  /\ snd (pump [draftOld; draftNew] "" 0 1
            (fst (step [draftOld; draftNew] "" s
                    (OnData 0 (Some (MessageType.Start "draft.txt" 0))))))
     = [DoSend 0 (MessageType.Chunk "draft.txt" 0 ["o"; "l"; "d"]%byte true)]
  /\ snd (pump [draftOld; draftNew] "" 0 1
            (fst (step [draftOld; draftNew] "" s
                    (OnData 0 (Some (MessageType.Start "draft.txt" 4))))))
     = [DoSend 0 (MessageType.Chunk "draft.txt" 4 ["r"]%byte true)].
Proof. repeat split; reflexivity. Qed.

(** ** The theorems at work *)

(** C1 on the 300000-byte file, served to connection 0 from offset 0. *)
Lemma chunk_timers_emit_the_loop_witness :
  let s := reach [video] "" [OnConnection "peer" None; OnData 0 (Some hello)] in
  let s0 := fst (step [video] "" s (OnData 0 (Some (MessageType.Start "video.bin" 0)))) in
  statusOf s 0 = Some UploaderConnectionStatus.Ready
  /\ validateOffset [video] "video.bin" 0 = Some video
  /\ MIN_SAFE_INTEGER <= 0
  /\ soleTimer (fst (pump [video] "" 0 2 s0)) 0
  /\ List.map chunkLength (snd (pump [video] "" 0 3 s0)) = [131072; 131072; 37856]
  /\ List.map chunkFinal (snd (pump [video] "" 0 3 s0))
     = [Some false; Some false; Some true].
Proof.
  intros s s0.
  assert (H1 : statusOf s 0 = Some UploaderConnectionStatus.Ready) by reflexivity.
  assert (H2 : validateOffset [video] "video.bin" 0 = Some video) by reflexivity.
  assert (H3 : MIN_SAFE_INTEGER <= 0) by (vm_compute; discriminate).
  split; [exact H1|]. split; [exact H2|]. split; [exact H3|].
  destruct (chunk_timers_emit_the_loop [video] ""
              [OnConnection "peer" None; OnData 0 (Some hello)] 0
              UploaderConnectionStatus.Ready "video.bin" 0 video
              H1 (or_introl eq_refl) H2 H3) as (_ & Hsole & Hscenario).
  split; [exact (Hsole 2%nat)|].
  apply (Hscenario size_video eq_refl 3%nat). lia.
Defined.

(** C2 on the same file: one chunk, a Pause, and the resume at 131072. *)
Lemma chunks_rebuild_the_file_and_resume_is_seamless_witness :
  let s := reach [video] "" [OnConnection "peer" None; OnData 0 (Some hello)] in
  let s0 := fst (step [video] "" s (OnData 0 (Some (MessageType.Start "video.bin" 0)))) in
  let whole := snd (pump [video] "" 0 (1 + 2) s0) in
  let s1 := fst (pump [video] "" 0 1 s0) in
  let out1 := snd (pump [video] "" 0 1 s0) in
  let lastAckedOffset := 0 + Z.of_nat (length (payload out1)) in
  let paused := step [video] "" s1 (OnData 0 (Some MessageType.Pause)) in
  let resumed :=
    step [video] "" (fst paused)
      (OnData 0 (Some (MessageType.Start "video.bin" lastAckedOffset))) in
  let out2 := snd (pump [video] "" 0 2 (fst resumed)) in
  (statusOf s 0 = Some UploaderConnectionStatus.Ready
   /\ validateOffset [video] "video.bin" 0 = Some video
   /\ 0 <= 0
   /\ statusOf s1 0 = Some UploaderConnectionStatus.Uploading
   /\ (chunkCount video 0 <= 1 + 2)%nat)
  /\ payload whole = content video
  /\ noPending (runtime (fst paused)) 0
  /\ out1 ++ out2 = whole
  /\ contiguousFrom lastAckedOffset out2.
Proof.
  intros s s0 whole s1 out1 lastAckedOffset paused resumed out2.
  assert (H1 : statusOf s 0 = Some UploaderConnectionStatus.Ready) by reflexivity.
  assert (H2 : validateOffset [video] "video.bin" 0 = Some video) by reflexivity.
  assert (H3 : 0 <= 0) by lia.
  assert (H4 : statusOf s1 0 = Some UploaderConnectionStatus.Uploading)
    by (vm_compute; reflexivity).
  assert (H5 : (chunkCount video 0 <= 1 + 2)%nat).
  { unfold chunkCount. rewrite size_video. vm_compute. lia. }
  split; [repeat split; assumption|].
  destruct (chunks_rebuild_the_file_and_resume_is_seamless [video] ""
              [OnConnection "peer" None; OnData 0 (Some hello)] 0
              UploaderConnectionStatus.Ready "video.bin" video 0 1 2
              H1 (or_introl eq_refl) H2 H3 H4 H5)
    as ((_ & _ & _ & Hpayload & _ & _) & (_ & _ & Hquiet & _) & (Happ & _ & Hcontig & _)).
  split; [exact (Hpayload eq_refl)|]. split; [exact Hquiet|].
  split; [exact Happ|exact Hcontig].
Defined.

(** C3: a Start one byte past the end of the three-byte file. *)
Lemma start_rejected_unless_known_file_and_offset_within_size_witness :
  let s := reach [notes] "" [OnConnection "peer" None; OnData 0 (Some hello)] in
  statusOf s 0 = Some UploaderConnectionStatus.Ready
  /\ snd (step [notes] "" s (OnData 0 (Some (MessageType.Start "notes.txt" 4))))
     = [DoClose 0]
  /\ statusOf
       (fst (step [notes] "" s (OnData 0 (Some (MessageType.Start "notes.txt" 4))))) 0
     = Some UploaderConnectionStatus.Closed.
Proof.
  intros s.
  assert (H1 : statusOf s 0 = Some UploaderConnectionStatus.Ready) by reflexivity.
  split; [exact H1|].
  destruct (start_rejected_unless_known_file_and_offset_within_size [notes] ""
              [OnConnection "peer" None; OnData 0 (Some hello)] 0
              UploaderConnectionStatus.Ready "notes.txt" 4 H1)
    as (_ & _ & Hreject).
  assert (Hshort : forall file, In file [notes] -> getFileName file = "notes.txt"%string ->
                                size file < 4).
  { intros file [<-|[]] _. vm_compute. reflexivity. }
  destruct (Hreject Hshort) as (Hout & Hst & _). split; assumption.
Defined.

(** C4: the chunk of a transfer behind the password "hunter2". *)
Lemma no_chunk_before_correct_password_witness :
  let events :=
    [OnConnection "peer" None; OnData 0 (Some hello);
     OnData 0 (Some (MessageType.UsePassword "hunter2"));
     OnData 0 (Some (MessageType.Start "notes.txt" 0))] in
  ("hunter2" <> "")%string
  /\ In (DoSend 0 (MessageType.Chunk "notes.txt" 0 ["h"; "i"; "!"]%byte true))
        (snd (step [notes] "hunter2" (reach [notes] "hunter2" events) (OnTimeout 1)))
  /\ exists before after,
       events = before ++ OnData 0 (Some (MessageType.UsePassword "hunter2")) :: after
       /\ (statusOf (reach [notes] "hunter2" before) 0
           = Some UploaderConnectionStatus.Authenticating
           \/ statusOf (reach [notes] "hunter2" before) 0
              = Some UploaderConnectionStatus.InvalidPassword)
       /\ statusOf (reach [notes] "hunter2"
                      (before ++ [OnData 0 (Some (MessageType.UsePassword "hunter2"))])) 0
          = Some UploaderConnectionStatus.Ready.
Proof.
  intros events.
  assert (H1 : ("hunter2" <> "")%string) by discriminate.
  assert (H2 : In (DoSend 0 (MessageType.Chunk "notes.txt" 0 ["h"; "i"; "!"]%byte true))
                 (snd (step [notes] "hunter2" (reach [notes] "hunter2" events)
                         (OnTimeout 1))))
    by (left; reflexivity).
  split; [exact H1|]. split; [exact H2|].
  exact (no_chunk_before_correct_password [notes] "hunter2" events (OnTimeout 1) 0
           "notes.txt" 0 ["h"; "i"; "!"]%byte true H1 H2).
Defined.

(** C6: the Info that answers a matching UsePassword. *)
Lemma info_only_answers_request_info_or_matching_password_witness :
  In (DoSend 0 (MessageType.Info [notesInfo]))
     (snd (step [notes] "hunter2" (reach [notes] "hunter2" [OnConnection "peer" None])
             (OnData 0 (Some (MessageType.UsePassword "hunter2")))))
  /\ [notesInfo] = fileInfo [notes]
  /\ ((exists bn bv on ov mv mm,
         OnData 0 (Some (MessageType.UsePassword "hunter2"))
         = OnData 0 (Some (MessageType.RequestInfo bn bv on ov mv mm))
         /\ "hunter2"%string = ""%string)
      \/ OnData 0 (Some (MessageType.UsePassword "hunter2"))
         = OnData 0 (Some (MessageType.UsePassword "hunter2"))).
Proof.
  assert (H : In (DoSend 0 (MessageType.Info [notesInfo]))
                (snd (step [notes] "hunter2"
                        (reach [notes] "hunter2" [OnConnection "peer" None])
                        (OnData 0 (Some (MessageType.UsePassword "hunter2"))))))
    by (left; reflexivity).
  split; [exact H|].
  exact (info_only_answers_request_info_or_matching_password [notes] "hunter2"
           [OnConnection "peer" None]
           (OnData 0 (Some (MessageType.UsePassword "hunter2"))) 0 [notesInfo] H).
Defined.

(** C7: the transport closes under a connection that is [Ready]. *)
Lemma close_moves_to_Closed_except_InvalidPassword_and_Done_witness :
  let s := reach [notes] "" [OnConnection "peer" None; OnData 0 (Some hello)] in
  statusOf s 0 = Some UploaderConnectionStatus.Ready
  /\ statusOf (fst (step [notes] "" s (OnClose 0))) 0
     = Some UploaderConnectionStatus.Closed
  /\ snd (step [notes] "" s (OnClose 0)) = [].
Proof.
  intros s.
  assert (H : statusOf s 0 = Some UploaderConnectionStatus.Ready) by reflexivity.
  split; [exact H|].
  exact (close_moves_to_Closed_except_InvalidPassword_and_Done [notes] ""
           [OnConnection "peer" None; OnData 0 (Some hello)] 0
           UploaderConnectionStatus.Ready H).
Defined.

(** C8: a second RequestInfo on a connection that is [Ready]. *)
Lemma request_info_outside_Pending_keeps_state_but_replies_witness :
  let s := reach [notes] "" [OnConnection "peer" None; OnData 0 (Some hello)] in
  statusOf s 0 = Some UploaderConnectionStatus.Ready
  /\ UploaderConnectionStatus.Ready <> UploaderConnectionStatus.Pending
  /\ step [notes] "" s (OnData 0 (Some hello))
     = (s, [DoSend 0 (if passwordSet ""
                      then MessageType.PasswordRequired None
                      else MessageType.Info (fileInfo [notes]))]).
Proof.
  intros s.
  assert (H1 : statusOf s 0 = Some UploaderConnectionStatus.Ready) by reflexivity.
  assert (H2 : UploaderConnectionStatus.Ready <> UploaderConnectionStatus.Pending)
    by discriminate.
  split; [exact H1|]. split; [exact H2|].
  exact (request_info_outside_Pending_keeps_state_but_replies [notes] ""
           [OnConnection "peer" None; OnData 0 (Some hello)] 0
           UploaderConnectionStatus.Ready "Firefox" "128" "Linux" "6.1" None None H1 H2).
Defined.

(** C9: a stranger destroys a live channel knowing only its short slug, and
    once more when it is already gone. *)
Lemma destroy_needs_no_secret_and_always_succeeds_witness :
  let request : gmap string DestroyRoute.Json :=
    {[ "slug"%string := DestroyRoute.JString "k3ym9x" ]} in
  let body := Some (DestroyRoute.JObject request) in
  request !! "slug"%string = Some (DestroyRoute.JString "k3ym9x")
  /\ ("k3ym9x" <> "")%string
  /\ fst (DestroyRoute.POST DestroyRoute.destroyChannel body [sampleChannel])
     = DestroyRoute.Returns
         {| DestroyRoute.body := DestroyRoute.SuccessBody true;
            DestroyRoute.httpStatus := 200 |}
  /\ DestroyRoute.resolve 1000 "k3ym9x"
       (snd (DestroyRoute.POST DestroyRoute.destroyChannel body [sampleChannel]))
     = None
  /\ fst (DestroyRoute.POST DestroyRoute.destroyChannel body [])
     = DestroyRoute.Returns
         {| DestroyRoute.body := DestroyRoute.SuccessBody true;
            DestroyRoute.httpStatus := 200 |}.
Proof.
  intros request body.
  assert (H1 : request !! "slug"%string = Some (DestroyRoute.JString "k3ym9x"))
    by reflexivity.
  assert (H2 : ("k3ym9x" <> "")%string) by discriminate.
  split; [exact H1|]. split; [exact H2|].
  destruct (destroy_needs_no_secret_and_always_succeeds request "k3ym9x"
              [sampleChannel] 1000 H1 H2) as (Hok & Hgone & _).
  destruct (destroy_needs_no_secret_and_always_succeeds request "k3ym9x"
              [] 1000 H1 H2) as (Hok' & _ & _).
  split; [exact Hok|]. split; [exact Hgone|exact Hok'].
Defined.

(** C10: a body without a slug field, and one whose slug is the number 0. *)
Lemma destroy_rejects_missing_slug_witness :
  let v := DestroyRoute.JObject {[ "secret"%string := DestroyRoute.JString "s3cr3t" ]} in
  let z := DestroyRoute.JObject {[ "slug"%string := DestroyRoute.JNumber 0 ]} in
  (v <> DestroyRoute.JNull
   /\ (forall slug, DestroyRoute.slugOf v = Some slug -> DestroyRoute.truthy slug = false))
  /\ (z <> DestroyRoute.JNull
      /\ (forall slug, DestroyRoute.slugOf z = Some slug -> DestroyRoute.truthy slug = false))
  /\ DestroyRoute.POST DestroyRoute.destroyChannel (Some v) [sampleChannel]
     = (DestroyRoute.Returns
          {| DestroyRoute.body := DestroyRoute.ErrorBody "Slug is required";
             DestroyRoute.httpStatus := 400 |}, [sampleChannel])
  /\ DestroyRoute.POST DestroyRoute.destroyChannel (Some z) [sampleChannel]
     = (DestroyRoute.Returns
          {| DestroyRoute.body := DestroyRoute.ErrorBody "Slug is required";
             DestroyRoute.httpStatus := 400 |}, [sampleChannel]).
Proof.
  intros v z.
  assert (Hv1 : v <> DestroyRoute.JNull) by discriminate.
  assert (Hv2 : forall slug, DestroyRoute.slugOf v = Some slug ->
                             DestroyRoute.truthy slug = false)
    by (intros slug H; discriminate H).
  assert (Hz1 : z <> DestroyRoute.JNull) by discriminate.
  assert (Hz2 : forall slug, DestroyRoute.slugOf z = Some slug ->
                             DestroyRoute.truthy slug = false)
    by (intros slug H; injection H as <-; reflexivity).
  split; [split; assumption|]. split; [split; assumption|]. split.
  - exact (destroy_rejects_missing_slug DestroyRoute.destroyChannel v [sampleChannel]
             Hv1 Hv2).
  - exact (destroy_rejects_missing_slug DestroyRoute.destroyChannel z [sampleChannel]
             Hz1 Hz2).
Defined.

(** * Further properties of the code *)

(** ** What an event leaves alone *)

Lemma pendingTimer_frame s cs rt' c' :
  closures rt' !! c' = closures (runtime s) !! c' ->
  (forall cl t, closures (runtime s) !! c' = Some cl -> sendChunkTimeout cl = Some t ->
                timeouts rt' !! t = timeouts (runtime s) !! t) ->
  pendingTimer (withConns s cs rt') c' = pendingTimer s c'.
Proof.
  intros Hcl Ht. unfold pendingTimer. simpl. rewrite Hcl.
  destruct (closures (runtime s) !! c') as [cl|] eqn:E; [|reflexivity].
  destruct (sendChunkTimeout cl) as [t|] eqn:En; [|reflexivity].
  rewrite (Ht cl t eq_refl En). reflexivity.
Qed.

Lemma timeouts_clear_frame cs rt c c' t0 cl' t :
  TimersOk cs rt -> c' <> c ->
  (forall task, timeouts rt !! t0 = Some task -> connId (task_conn task) = c) ->
  closures rt !! c' = Some cl' -> sendChunkTimeout cl' = Some t ->
  timeouts (clearTimeout t0 rt) !! t = timeouts rt !! t.
Proof.
  intros (_ & _ & HO & _) Hne Hown Hcl Hn. simpl. rewrite lookup_delete.
  case_decide as E; [|reflexivity]. subst t0.
  destruct (timeouts rt !! t) as [task|] eqn:Et; [|reflexivity].
  exfalso. apply Hne. rewrite <- (Hown task eq_refl). symmetry.
  apply (HO _ _ _ _ Hcl Hn Et).
Qed.

Section Frame.

Variable files : list UploadedFile.
Variable password : string.

Lemma named_timer_owner cs rt c cl t0 :
  TimersOk cs rt -> closures rt !! c = Some cl -> sendChunkTimeout cl = Some t0 ->
  forall task, timeouts rt !! t0 = Some task -> connId (task_conn task) = c.
Proof. intros (_ & _ & HO & _) Hcl Hn task Htask. apply (HO _ _ _ _ Hcl Hn Htask). Qed.

Lemma react_frame cs rt conn decoded r c' :
  TimersOk cs rt -> c' <> connId conn ->
  let triple := react files password conn decoded r rt in
  closures (snd (fst triple)) !! c' = closures rt !! c'
  /\ (forall cl t, closures rt !! c' = Some cl -> sendChunkTimeout cl = Some t ->
                   timeouts (snd (fst triple)) !! t = timeouts rt !! t)
  /\ Forall (fun a => actionConn a = Some (connId conn)) (snd triple).
Proof.
  intros HT Hne. pose proof HT as (_ & HF & _ & _).
  destruct decoded as [message|]; simpl.
  2:{ repeat split; auto. }
  destruct message; simpl; try (repeat split; auto; fail).
  - destruct (passwordSet password); simpl; repeat split; auto.
  - destruct (String.eqb _ _); simpl; repeat split; auto.
  - destruct (validateOffset files fileName offset) as [file|]; simpl;
      [|repeat split; auto].
    destruct (negb _ && negb _); simpl; [repeat split; auto|].
    split; [|split; [|constructor]].
    + rewrite lookup_insert_ne; [reflexivity|auto].
    + intros cl t Hcl Hn. pose proof (HF _ _ _ Hcl Hn).
      rewrite lookup_insert_ne by lia. reflexivity.
  - destruct (negb _); simpl; [repeat split; auto|].
    unfold readSendChunkTimeout.
    destruct (closures rt !! connId conn) as [cl0|] eqn:Hcl0; [|repeat split; auto].
    destruct (sendChunkTimeout cl0) as [t0|] eqn:Hn0; [|repeat split; auto].
    split; [|split; [|constructor]].
    + simpl. rewrite lookup_insert_ne; [reflexivity|auto].
    + intros cl t Hcl Hn.
      apply (timeouts_clear_frame cs rt (connId conn) c' t0 cl t HT Hne); auto.
      apply (named_timer_owner cs rt _ cl0 t0 HT Hcl0 Hn0).
  - destruct (negb _); simpl; repeat split; auto.
Qed.

Lemma reactClose_frame cs rt conn r c' :
  TimersOk cs rt -> c' <> connId conn ->
  let triple := reactClose conn r rt in
  closures (snd (fst triple)) !! c' = closures rt !! c'
  /\ (forall cl t, closures rt !! c' = Some cl -> sendChunkTimeout cl = Some t ->
                   timeouts (snd (fst triple)) !! t = timeouts rt !! t)
  /\ Forall (fun a => actionConn a = Some (connId conn)) (snd triple).
Proof.
  intros HT Hne. unfold reactClose. simpl. unfold readSendChunkTimeout.
  destruct (closures rt !! connId conn) as [cl0|] eqn:Hcl0; [|repeat split; auto].
  destruct (sendChunkTimeout cl0) as [t0|] eqn:Hn0; [|repeat split; auto].
  split; [reflexivity|]. split; [|constructor].
  intros cl t Hcl Hn.
  apply (timeouts_clear_frame cs rt (connId conn) c' t0 cl t HT Hne); auto.
  apply (named_timer_owner cs rt _ cl0 t0 HT Hcl0 Hn0).
Qed.

Lemma reactTimeout_frame cs rt timer task r c' :
  TimersOk cs rt -> timeouts rt !! timer = Some task ->
  c' <> connId (task_conn task) ->
  let triple := reactTimeout timer task r rt in
  closures (snd (fst triple)) !! c' = closures rt !! c'
  /\ (forall cl t, closures rt !! c' = Some cl -> sendChunkTimeout cl = Some t ->
                   timeouts (snd (fst triple)) !! t = timeouts rt !! t)
  /\ Forall (fun a => actionConn a = Some (connId (task_conn task))) (snd triple).
Proof.
  intros HT Htask Hne. pose proof HT as (_ & HF & _ & _).
  assert (Hclear : forall cl t, closures rt !! c' = Some cl -> sendChunkTimeout cl = Some t ->
                     timeouts (clearTimeout timer rt) !! t = timeouts rt !! t).
  { intros cl t Hcl Hn.
    apply (timeouts_clear_frame cs rt (connId (task_conn task)) c' timer cl t HT Hne); auto.
    intros task' Htask'. congruence. }
  unfold reactTimeout. simpl. destruct (_ <? MAX_CHUNK_SIZE); simpl.
  - split; [reflexivity|]. split; [exact Hclear|]. constructor; [reflexivity|constructor].
  - split; [|split].
    + rewrite lookup_insert_ne; [reflexivity|auto].
    + intros cl t Hcl Hn. pose proof (HF _ _ _ Hcl Hn).
      rewrite lookup_insert_ne by lia. apply (Hclear cl t Hcl Hn).
    + constructor; [reflexivity|constructor].
Qed.

(** X2.  An event touches only the connection it belongs to: for any other
    connection the record, the pending chunk timer and the wire stay as
    they were.  So no message, close or timer of one downloader can change
    the state of a sibling, cancel or start its transfer, or make the
    uploader send to it or close it. *)
Theorem event_leaves_other_connections_alone
    (events : list Event) (e : Event) (c' : nat) :
  let s := reach files password events in
  eventConn s e <> Some c' ->
  recordOf (fst (step files password s e)) c' = recordOf s c'
  /\ pendingTimer (fst (step files password s e)) c' = pendingTimer s c'
  /\ Forall (fun a => actionConn a <> Some c') (snd (step files password s e)).
Proof.
  intros s Hne.
  pose proof (reach_Inv files password events) as HI.
  pose proof (reach_TimersOk files password events) as HT.
  pose proof (listener_connections_after_mount files password events) as Hheld.
  fold s in HI, HT, Hheld.
  pose proof (step_local files password s e HI) as Hloc.
  assert (Hother : forall c (l : list Action),
             c' <> c -> Forall (fun a => actionConn a = Some c) l ->
             Forall (fun a => actionConn a <> Some c') l).
  { intros c l Hc Hl. eapply Forall_impl; [exact Hl|]. simpl. intros a Ha. congruence. }
  destruct e as [p md|c decoded|c|timer].
  - clear Hloc. simpl in *. unfold listener. destruct (isReport _); simpl.
    + rewrite Hheld. simpl. repeat split. constructor; [discriminate|constructor].
    + assert (Hc' : nextConn s <> c') by congruence.
      split; [|split; [|constructor]].
      * unfold recordOf. simpl. unfold recId at 1. simpl.
        destruct (Nat.eqb_spec (nextConn s) c'); [contradiction|reflexivity].
      * unfold pendingTimer. simpl. rewrite lookup_insert_ne by exact Hc'. reflexivity.
  - destruct Hloc as [-> | (c0 & r & triple & Hev & Hrec & -> & Hkeep & Hcase)];
      [repeat split; constructor|].
    destruct Hcase as [(cl & d & [= <- <-] & _ & Hid & ->)
                      |[(cl & [=] & _) | (t & task & [=] & _)]].
    assert (Hc : c' <> connId (cl_conn cl)) by (simpl in Hne; congruence).
    destruct (react_frame (conns s) (runtime s) (cl_conn cl) decoded r c' HT Hc)
      as (Hcl & Hts & Hout).
    cbn [fst snd]. split; [|split].
    + unfold recordOf. cbn [conns withConns]. apply find_setRecord_other; [congruence|].
      unfold recId. rewrite (proj1 Hkeep). apply (recordOf_id _ _ _ Hrec).
    + apply pendingTimer_frame; assumption.
    + apply (Hother (connId (cl_conn cl))); assumption.
  - destruct Hloc as [-> | (c0 & r & triple & Hev & Hrec & -> & Hkeep & Hcase)];
      [repeat split; constructor|].
    destruct Hcase as [(cl & d & [=] & _)
                      |[(cl & [= <-] & _ & Hid & ->) | (t & task & [=] & _)]].
    assert (Hc : c' <> connId (cl_conn cl)) by (simpl in Hne; congruence).
    destruct (reactClose_frame (conns s) (runtime s) (cl_conn cl) r c' HT Hc)
      as (Hcl & Hts & Hout).
    cbn [fst snd]. split; [|split].
    + unfold recordOf. cbn [conns withConns]. apply find_setRecord_other; [congruence|].
      unfold recId. rewrite (proj1 Hkeep). apply (recordOf_id _ _ _ Hrec).
    + apply pendingTimer_frame; assumption.
    + constructor.
  - destruct Hloc as [-> | (c0 & r & triple & Hev & Hrec & -> & Hkeep & Hcase)];
      [repeat split; constructor|].
    destruct Hcase as [(cl & d & [=] & _)
                      |[(cl & [=] & _) | (t & task & [= <-] & Htask & Hid & ->)]].
    assert (Hc : c' <> connId (task_conn task)).
    { simpl in Hne. rewrite Htask in Hne. congruence. }
    destruct (reactTimeout_frame (conns s) (runtime s) timer task r c' HT Htask Hc)
      as (Hcl & Hts & Hout).
    cbn [fst snd]. split; [|split].
    + unfold recordOf. cbn [conns withConns]. apply find_setRecord_other; [congruence|].
      unfold recId. rewrite (proj1 Hkeep). apply (recordOf_id _ _ _ Hrec).
    + apply pendingTimer_frame; assumption.
    + apply (Hother (connId (task_conn task))); assumption.
Qed.

(** X3.  Whenever a chunk timer is pending, it is the timer the
    [sendChunkTimeout] variable of its connection names, that connection is
    [Uploading] (or [Closed], after a message the handler refused), and no other
    pending timer serves the same connection: there is never more than one
    chain of chunks per connection. *)
Theorem at_most_one_chunk_timer_per_connection
    (events : list Event) (timer : nat) (task : ChunkTask) :
  let s := reach files password events in
  timeouts (runtime s) !! timer = Some task ->
  pendingTimer s (connId (task_conn task)) = Some timer
  /\ (statusOf s (connId (task_conn task)) = Some UploaderConnectionStatus.Uploading
      \/ statusOf s (connId (task_conn task)) = Some UploaderConnectionStatus.Closed)
  /\ (forall timer' task',
        timeouts (runtime s) !! timer' = Some task' ->
        connId (task_conn task') = connId (task_conn task) -> timer' = timer).
Proof.
  intros s Htask.
  pose proof (reach_Inv files password events) as HI.
  pose proof (reach_TimersOk files password events) as (HN & _ & _ & HS).
  fold s in HI, HN, HS.
  destruct (HN _ _ Htask) as (cl & Hcl & Hn).
  split; [|split].
  - unfold pendingTimer. rewrite Hcl, Hn, Htask. reflexivity.
  - destruct (task_record s timer task HI Htask) as (r & Hrec).
    unfold statusOf. rewrite Hrec. destruct (HS _ _ _ Htask Hrec) as [-> | ->]; auto.
  - intros timer' task' Htask' Hsame. destruct (HN _ _ Htask') as (cl' & Hcl' & Hn').
    rewrite Hsame, Hcl in Hcl'. injection Hcl' as <-. congruence.
Qed.

End Frame.

(** ** Messages on a connection, state by state *)

Section Handshake.

Variable files : list UploadedFile.
Variable password : string.

(** A message of a connection with record [r], as one rewriting of [r]. *)
Lemma data_step s c r decoded :
  Inv s -> recordOf s c = Some r ->
  exists cl,
    closures (runtime s) !! c = Some cl /\ connId (cl_conn cl) = c
    /\ step files password s (OnData c decoded)
       = (withConns s
            (setRecord c (fst (fst (react files password (cl_conn cl) decoded r (runtime s))))
               (conns s))
            (snd (fst (react files password (cl_conn cl) decoded r (runtime s)))),
          snd (react files password (cl_conn cl) decoded r (runtime s))).
Proof.
  intros HI Hrec. destruct (record_registered s c r HI Hrec) as (cl & Hcl & Hid).
  exists cl. split; [exact Hcl|]. split; [exact Hid|]. simpl. rewrite Hcl.
  rewrite <- Hid in Hrec. rewrite (onData_react files password s _ decoded r (proj1 HI) Hrec).
  rewrite Hid. reflexivity.
Qed.

Lemma data_step_unchanged s c r decoded cl :
  Inv s -> recordOf s c = Some r ->
  closures (runtime s) !! c = Some cl ->
  fst (react files password (cl_conn cl) decoded r (runtime s)) = (r, runtime s) ->
  step files password s (OnData c decoded)
  = (s, snd (react files password (cl_conn cl) decoded r (runtime s))).
Proof.
  intros HI Hrec Hcl Hsame.
  destruct (data_step s c r decoded HI Hrec) as (cl' & Hcl' & Hid & Hstep).
  rewrite Hcl in Hcl'. injection Hcl' as <-. rewrite Hstep, Hsame. simpl.
  rewrite (unchanged_session s c r (proj1 HI) Hrec). reflexivity.
Qed.

(** X4.  Control messages that do not fit the state are dropped whole: a
    Pause outside [Uploading], a Done outside [Ready], and a Start for a
    valid file and offset outside [Ready] and [Paused] (so also while
    [Uploading]: no second chain of chunks) leave the session exactly as it
    was and send nothing; and so does, in every state, a message of a kind
    only the uploader sends (PasswordRequired, Info, Chunk, Report). *)
Theorem control_messages_out_of_state_are_dropped
    (events : list Event) (c : nat) (st : Status) :
  let s := reach files password events in
  statusOf s c = Some st ->
  (st <> UploaderConnectionStatus.Uploading ->
   step files password s (OnData c (Some MessageType.Pause)) = (s, []))
  /\ (st <> UploaderConnectionStatus.Ready ->
      step files password s (OnData c (Some MessageType.Done)) = (s, []))
  /\ (st <> UploaderConnectionStatus.Ready -> st <> UploaderConnectionStatus.Paused ->
      forall fileName offset file,
        validateOffset files fileName offset = Some file ->
        step files password s (OnData c (Some (MessageType.Start fileName offset)))
        = (s, []))
  /\ (forall errorMessage catalog fileName offset bytes final,
        step files password s (OnData c (Some (MessageType.PasswordRequired errorMessage)))
        = (s, [])
        /\ step files password s (OnData c (Some (MessageType.Info catalog))) = (s, [])
        /\ step files password s
             (OnData c (Some (MessageType.Chunk fileName offset bytes final))) = (s, [])
        /\ step files password s (OnData c (Some MessageType.Report)) = (s, [])).
Proof.
  intros s Hst. pose proof (reach_Inv files password events) as HI. fold s in HI.
  apply statusOf_record in Hst as (r & Hrec & <-).
  destruct (record_registered s c r HI Hrec) as (cl & Hcl & Hid).
  split; [|split; [|split]].
  - intros Hne. rewrite (data_step_unchanged s c r _ cl HI Hrec Hcl);
      simpl; destruct (status r); simpl; congruence.
  - intros Hne. rewrite (data_step_unchanged s c r _ cl HI Hrec Hcl);
      simpl; destruct (status r); simpl; congruence.
  - intros Hr Hp fileName offset file Hval.
    rewrite (data_step_unchanged s c r _ cl HI Hrec Hcl);
      simpl; rewrite Hval; destruct (status r); simpl; congruence.
  - intros. repeat split; rewrite (data_step_unchanged s c r _ cl HI Hrec Hcl); reflexivity.
Qed.

(** X5.  A Done from a connection that is [Ready] makes the uploader call
    [close] on it and mark it [Done]; the close event that follows keeps
    [Done], and from then on a Start, even for a valid file and offset,
    is dropped: nothing is sent and no timer is set. *)
Theorem done_closes_the_connection_for_good
    (events : list Event) (c : nat) :
  let s := reach files password events in
  statusOf s c = Some UploaderConnectionStatus.Ready ->
  let finished := step files password s (OnData c (Some MessageType.Done)) in
  let closed := step files password (fst finished) (OnClose c) in
  snd finished = [DoClose c]
  /\ statusOf (fst finished) c = Some UploaderConnectionStatus.Done
  /\ snd closed = []
  /\ statusOf (fst closed) c = Some UploaderConnectionStatus.Done
  /\ (forall fileName offset file,
        validateOffset files fileName offset = Some file ->
        step files password (fst closed)
          (OnData c (Some (MessageType.Start fileName offset)))
        = (fst closed, [])).
Proof.
  intros s Hst finished closed.
  pose proof (reach_Inv files password events) as HI. fold s in HI.
  apply statusOf_record in Hst as (r & Hrec & Hst).
  destruct (recordOf_id _ _ _ Hrec) as [Hr _].
  destruct (data_step s c r (Some MessageType.Done) HI Hrec) as (cl & Hcl & Hid & Hstep).
  pose proof (step_Inv files password s (OnData c (Some MessageType.Done)) HI) as HI1.
  fold finished in HI1, Hstep.
  assert (Hrec1 : recordOf (fst finished) c
                  = Some (withStatus r UploaderConnectionStatus.Done)).
  { rewrite Hstep. simpl. rewrite Hst. simpl.
    apply (recordOf_withConns s c r _ _ Hrec). exact Hr. }
  assert (Hout1 : snd finished = [DoClose c]).
  { rewrite Hstep. simpl. rewrite Hst. simpl. rewrite Hid. reflexivity. }
  destruct (record_registered _ c _ HI1 Hrec1) as (cl1 & Hcl1 & Hid1).
  pose proof (step_Inv files password (fst finished) (OnClose c) HI1) as HI2.
  fold closed in HI2.
  assert (Hclosed : closed
                    = (withConns (fst finished)
                         (setRecord c (withStatus r UploaderConnectionStatus.Done)
                            (conns (fst finished)))
                         (snd (fst (reactClose (cl_conn cl1)
                                      (withStatus r UploaderConnectionStatus.Done)
                                      (runtime (fst finished))))), [])).
  { unfold closed. simpl. rewrite Hcl1. rewrite <- Hid1 in Hrec1.
    rewrite (onClose_react (fst finished) _ _ (proj1 HI1) Hrec1). rewrite Hid1. reflexivity. }
  assert (Hrec2 : recordOf (fst closed) c
                  = Some (withStatus r UploaderConnectionStatus.Done)).
  { rewrite Hclosed. simpl. apply (recordOf_withConns _ c _ _ _ Hrec1). exact Hr. }
  split; [exact Hout1|]. split; [unfold statusOf; rewrite Hrec1; reflexivity|].
  split; [rewrite Hclosed; reflexivity|].
  split; [unfold statusOf; rewrite Hrec2; reflexivity|].
  intros fileName offset file Hval.
  destruct (record_registered _ c _ HI2 Hrec2) as (cl2 & Hcl2 & Hid2).
  rewrite (data_step_unchanged _ c _ _ cl2 HI2 Hrec2 Hcl2);
    simpl; rewrite Hval; reflexivity.
Qed.

(** X6.  A UsePassword that arrives when the connection is neither
    [Authenticating] nor [InvalidPassword] changes nothing in the session,
    yet it is answered: with Info and the catalog if the candidate equals the
    configured password (the empty one when none is set), with
    PasswordRequired 'Invalid password' otherwise. *)
Theorem password_outside_the_gate_changes_nothing_but_is_answered
    (events : list Event) (c : nat) (st : Status) (submittedPassword : string) :
  let s := reach files password events in
  statusOf s c = Some st ->
  st <> UploaderConnectionStatus.Authenticating ->
  st <> UploaderConnectionStatus.InvalidPassword ->
  step files password s (OnData c (Some (MessageType.UsePassword submittedPassword)))
  = (s, [DoSend c (if String.eqb submittedPassword password
                   then MessageType.Info (fileInfo files)
                   else MessageType.PasswordRequired (Some "Invalid password"%string))]).
Proof.
  intros s Hst Ha Hi. pose proof (reach_Inv files password events) as HI. fold s in HI.
  apply statusOf_record in Hst as (r & Hrec & <-).
  destruct (record_registered s c r HI Hrec) as (cl & Hcl & Hid).
  rewrite (data_step_unchanged s c r _ cl HI Hrec Hcl);
    simpl; destruct (String.eqb _ _); simpl; rewrite ?Hid;
    destruct (status r); simpl; congruence.
Qed.

End Handshake.

Section Attempts.

Variable files : list UploadedFile.
Variable password : string.

Lemma wrong_passwords_run s c wrongs :
  Inv s ->
  statusOf s c = Some UploaderConnectionStatus.Authenticating
  \/ statusOf s c = Some UploaderConnectionStatus.InvalidPassword ->
  Forall (fun w => w <> password) wrongs ->
  let tries := List.map (fun w => OnData c (Some (MessageType.UsePassword w))) wrongs in
  Forall (fun out =>
            out = [DoSend c (MessageType.PasswordRequired
                               (Some "Invalid password"%string))])
         (snd (run files password s tries))
  /\ Inv (fst (run files password s tries))
  /\ (statusOf (fst (run files password s tries)) c
        = Some UploaderConnectionStatus.Authenticating
      \/ statusOf (fst (run files password s tries)) c
        = Some UploaderConnectionStatus.InvalidPassword)
  /\ (wrongs <> [] ->
      statusOf (fst (run files password s tries)) c
      = Some UploaderConnectionStatus.InvalidPassword).
Proof.
  intros HI Hst Hwrong. revert s HI Hst.
  induction Hwrong as [|w wrongs Hw _ IH]; intros s HI Hst; cbn [List.map run].
  - cbn [fst snd]. split; [constructor|]. split; [exact HI|]. split; [exact Hst|]. congruence.
  - assert (Hrec : exists r, recordOf s c = Some r
                             /\ (status r = UploaderConnectionStatus.Authenticating
                                 \/ status r = UploaderConnectionStatus.InvalidPassword)).
    { destruct Hst as [Hst|Hst]; apply statusOf_record in Hst as (r & Hrec & Hs); eauto. }
    destruct Hrec as (r & Hrec & Hs).
    destruct (data_step files password s c r
                (Some (MessageType.UsePassword w)) HI Hrec) as (cl & Hcl & Hid & Hstep).
    pose proof (step_Inv files password s
                  (OnData c (Some (MessageType.UsePassword w))) HI) as HI1.
    assert (Hreact : react files password (cl_conn cl)
                       (Some (MessageType.UsePassword w)) r (runtime s)
                     = (if negb (isAuthenticating (status r)) then r
                        else withStatus r UploaderConnectionStatus.InvalidPassword,
                        runtime s,
                        [DoSend c (MessageType.PasswordRequired
                                     (Some "Invalid password"%string))])).
    { simpl. destruct (String.eqb_spec w password) as [E|_]; [contradiction|].
      rewrite Hid. reflexivity. }
    rewrite Hreact in Hstep. cbn [fst snd] in Hstep. rewrite Hstep in HI1 |- *.
    cbn [fst] in HI1.
    set (s1 := withConns s _ _) in *.
    assert (Hst1 : statusOf s1 c = Some UploaderConnectionStatus.InvalidPassword).
    { unfold s1. rewrite (statusOf_withConns s c r _ _ Hrec).
      - destruct Hs as [E|E]; rewrite E; simpl; rewrite ?E; reflexivity.
      - destruct (recordOf_id _ _ _ Hrec) as [Hr _].
        destruct Hs as [E|E]; rewrite E; simpl; exact Hr. }
    destruct (IH s1 HI1 (or_intror Hst1)) as (Houts & HI' & Hst' & Hne).
    destruct wrongs as [|w' wrongs'].
    + cbn [List.map run fst snd] in *.
      split; [constructor; [reflexivity|constructor]|]. split; [exact HI'|].
      split; [exact Hst'|]. intros _. exact Hst1.
    + specialize (Hne ltac:(discriminate)).
      destruct (run files password s1 _) as [s2 outs]. cbn [fst snd] in *.
      split; [constructor; [reflexivity|exact Houts]|]. split; [exact HI'|].
      split; [exact Hst'|]. intros _. exact Hne.
Qed.

(** X7.  There is no limit on password attempts.  After any number of wrong
    candidates, each answered with PasswordRequired 'Invalid password' and
    leaving the connection [InvalidPassword], the configured password is
    still answered with Info and the catalog and moves the connection to
    [Ready]. *)
Theorem wrong_passwords_never_lock_a_connection_out
    (events : list Event) (c : nat) (wrongs : list string) :
  let s := reach files password events in
  statusOf s c = Some UploaderConnectionStatus.Authenticating
  \/ statusOf s c = Some UploaderConnectionStatus.InvalidPassword ->
  Forall (fun w => w <> password) wrongs ->
  let tries := List.map (fun w => OnData c (Some (MessageType.UsePassword w))) wrongs in
  let s' := fst (run files password s tries) in
  let last := step files password s' (OnData c (Some (MessageType.UsePassword password))) in
  Forall (fun out =>
            out = [DoSend c (MessageType.PasswordRequired
                               (Some "Invalid password"%string))])
         (snd (run files password s tries))
  /\ (wrongs <> [] -> statusOf s' c = Some UploaderConnectionStatus.InvalidPassword)
  /\ snd last = [DoSend c (MessageType.Info (fileInfo files))]
  /\ statusOf (fst last) c = Some UploaderConnectionStatus.Ready.
Proof.
  intros s Hst Hwrong tries s' last.
  destruct (wrong_passwords_run s c wrongs (reach_Inv files password events) Hst Hwrong)
    as (Houts & HI' & Hst' & Hne).
  fold tries in Houts, HI', Hst', Hne. fold s' in HI', Hst', Hne.
  split; [exact Houts|]. split; [exact Hne|].
  assert (Hrec : exists r, recordOf s' c = Some r
                           /\ (status r = UploaderConnectionStatus.Authenticating
                               \/ status r = UploaderConnectionStatus.InvalidPassword)).
  { destruct Hst' as [H|H]; apply statusOf_record in H as (r & Hrec & Hs); eauto. }
  destruct Hrec as (r & Hrec & Hs).
  destruct (data_step files password s' c r
              (Some (MessageType.UsePassword password)) HI' Hrec)
    as (cl & Hcl & Hid & Hstep).
  fold last in Hstep. rewrite Hstep. simpl. rewrite String.eqb_refl. simpl.
  rewrite Hid. split; [reflexivity|].
  rewrite (statusOf_withConns s' c r _ _ Hrec).
  - destruct Hs as [-> | ->]; reflexivity.
  - destruct (recordOf_id _ _ _ Hrec) as [Hr _]. destruct Hs as [-> | ->]; exact Hr.
Qed.

(** X8.  A report connection gets no record and no handler: whatever it
    sends afterwards, and its own close, leave the session untouched and
    cause nothing to be sent. *)
Theorem report_connection_gets_no_handlers
    (events : list Event) (peer : string) (decoded : option Message) :
  let c := nextConn (reach files password events) in
  let s := reach files password (events ++ [OnConnection peer (Some "report"%string)]) in
  recordOf s c = None
  /\ step files password s (OnData c decoded) = (s, [])
  /\ step files password s (OnClose c) = (s, []).
Proof.
  intros c s. pose proof (reach_Inv files password events) as (_ & Hlt & Hc & _).
  assert (Hs : conns s = conns (reach files password events)
               /\ runtime s = runtime (reach files password events)).
  { unfold s. rewrite reach_snoc. split; reflexivity. }
  destruct Hs as [Hconns Hrt].
  assert (Hnone : closures (runtime s) !! c = None).
  { rewrite Hrt. destruct (closures _ !! c) as [cl|] eqn:E; [|reflexivity].
    destruct (Hc _ _ E) as [_ Hin]. specialize (Hlt _ Hin). unfold c in Hlt. lia. }
  split; [|split]; simpl; rewrite ?Hnone; try reflexivity.
  unfold recordOf. rewrite Hconns.
  destruct (List.find _ _) as [r|] eqn:E; [|reflexivity].
  apply find_some in E as [Hin Heq]. apply Nat.eqb_eq in Heq.
  assert (Hid : In c (ids (reach files password events))).
  { rewrite <- Heq. unfold ids. apply in_map, Hin. }
  specialize (Hlt _ Hid). unfold c in Hlt. lia.
Qed.

End Attempts.

(** ** The shape and the bookkeeping of a transfer *)

Lemma emitted_lengths c file fileName n offset :
  0 <= offset <= size file -> (chunkCount file offset <= n)%nat ->
  List.map chunkLength (emitted c file fileName n offset)
  = repeat MAX_CHUNK_SIZE (chunkCount file offset - 1)
    ++ [(size file - offset) mod MAX_CHUNK_SIZE].
Proof.
  unfold emitted. revert offset. induction n as [|n IH]; intros offset Ho Hn.
  - unfold chunkCount in Hn. pose proof MAX_CHUNK_SIZE_pos.
    assert (0 <= (size file - offset) / MAX_CHUNK_SIZE) by (apply Z.div_pos; lia). lia.
  - pose proof MAX_CHUNK_SIZE_pos as Hpos. cbn [chunksFrom List.map].
    destruct (_ <? MAX_CHUNK_SIZE) eqn:Hf.
    + rewrite (chunkCount_final file offset Ho Hf). apply Z.ltb_lt in Hf.
      cbn [List.map repeat Nat.sub app]. unfold chunkLength. cbn [chunkBytes].
      rewrite length_slice by lia. rewrite Z.mod_small by lia. f_equal. lia.
    + destruct (chunkCount_next file offset Ho Hf) as (Hend & Hle & Hcount).
      rewrite Hend, IH by lia. rewrite Hcount.
      assert (1 <= chunkCount file (offset + MAX_CHUNK_SIZE))%nat.
      { unfold chunkCount.
        assert (0 <= (size file - (offset + MAX_CHUNK_SIZE)) / MAX_CHUNK_SIZE)
          by (apply Z.div_pos; lia). lia. }
      replace (S (chunkCount file (offset + MAX_CHUNK_SIZE)) - 1)%nat
        with (S (chunkCount file (offset + MAX_CHUNK_SIZE) - 1)) by lia.
      cbn [repeat app]. unfold chunkLength at 1. cbn [chunkBytes].
      rewrite length_slice by lia. f_equal; [lia|]. do 2 f_equal.
      replace (size file - offset)
        with (size file - (offset + MAX_CHUNK_SIZE) + 1 * MAX_CHUNK_SIZE) by lia.
      rewrite Z.mod_add by lia. reflexivity.
Qed.

Section Bookkeeping.

Variable files : list UploadedFile.
Variable password : string.

Lemma fire_record s conn file fileName offset timer r :
  chainAt s conn file fileName offset ->
  pendingTimer s (connId conn) = Some timer ->
  recordOf s (connId conn) = Some r ->
  let end_ := Z.min (size file) (offset + MAX_CHUNK_SIZE) in
  recordOf (fst (step files password s (OnTimeout timer))) (connId conn)
  = Some (if end_ - offset <? MAX_CHUNK_SIZE then withCompleted r
          else withOffset r end_ (Ratio end_ (size file))).
Proof.
  intros Hchain Hpend Hrec end_.
  destruct (chainAt_pending s conn file fileName offset Hchain) as (timer' & Hpend' & Htask).
  rewrite Hpend in Hpend'. injection Hpend' as <-.
  destruct Hchain as (HI & _). unfold step. rewrite Htask.
  set (task := {| task_conn := conn; task_file := file;
                  task_fileName := fileName; task_offset := offset |}).
  rewrite (sendChunk_react s timer task r (proj1 HI) Hrec).
  unfold reactTimeout. cbn [fst snd task task_conn task_file task_offset]. fold end_.
  destruct (recordOf_id _ _ _ Hrec) as [Hr _].
  apply (recordOf_withConns s (connId conn) r _ _ Hrec).
  destruct (_ <? MAX_CHUNK_SIZE); exact Hr.
Qed.

Lemma pump_completes n s conn file fileName offset r :
  chainAt s conn file fileName offset ->
  0 <= offset <= size file ->
  recordOf s (connId conn) = Some r ->
  (chunkCount file offset <= n)%nat ->
  exists r',
    recordOf (fst (pump files password (connId conn) n s)) (connId conn) = Some r'
    /\ status r' = UploaderConnectionStatus.Ready
    /\ completedFiles r' = S (completedFiles r)
    /\ totalFiles r' = totalFiles r
    /\ currentFileProgress r' = Ratio 0 1
    /\ uploadingFileName r' = uploadingFileName r.
Proof.
  revert s offset r. induction n as [|n IH]; intros s offset r Hchain Ho Hrec Hn.
  - unfold chunkCount in Hn. pose proof MAX_CHUNK_SIZE_pos.
    assert (0 <= (size file - offset) / MAX_CHUNK_SIZE) by (apply Z.div_pos; lia). lia.
  - destruct (chainAt_pending s conn file fileName offset Hchain) as (timer & Hpend & _).
    destruct (chain_fire files password s conn file fileName offset timer Hchain Hpend)
      as (_ & Hnext & Hlast).
    pose proof (fire_record s conn file fileName offset timer r Hchain Hpend Hrec) as Hrec1.
    pose proof MAX_CHUNK_SIZE_pos as Hpos.
    cbn [pump]. rewrite Hpend.
    destruct (step files password s (OnTimeout timer)) as [s1 out1].
    cbn [fst snd] in Hnext, Hlast, Hrec1. cbv zeta in Hrec1.
    destruct (_ <? MAX_CHUNK_SIZE) eqn:Hf.
    + destruct (Hlast eq_refl) as (_ & Hnone & _).
      rewrite (pump_idle files password (connId conn) n s1 Hnone). cbn [fst].
      exists (withCompleted r). repeat split; auto.
    + destruct (chunkCount_next file offset Ho Hf) as (Hend & Hle & Hcount).
      rewrite Hend in Hnext, Hrec1.
      destruct (IH s1 _ _ (Hnext eq_refl) ltac:(lia) Hrec1 ltac:(lia))
        as (r' & Hr' & Hst & Hcf & Htf & Hp & Hfn).
      destruct (pump files password (connId conn) n s1) as [s2 out2]. cbn [fst] in *.
      exists r'. repeat split; auto.
Qed.

Lemma pump_progress k s conn file fileName offset r :
  chainAt s conn file fileName offset ->
  0 <= offset ->
  offset + Z.of_nat k * MAX_CHUNK_SIZE <= size file ->
  recordOf s (connId conn) = Some r ->
  status r = UploaderConnectionStatus.Uploading ->
  uploadingOffset r = Some offset ->
  currentFileProgress r = Ratio offset (size file) ->
  exists r',
    recordOf (fst (pump files password (connId conn) k s)) (connId conn) = Some r'
    /\ status r' = UploaderConnectionStatus.Uploading
    /\ uploadingOffset r' = Some (offset + Z.of_nat k * MAX_CHUNK_SIZE)
    /\ currentFileProgress r'
       = Ratio (offset + Z.of_nat k * MAX_CHUNK_SIZE) (size file)
    /\ completedFiles r' = completedFiles r
    /\ uploadingFileName r' = uploadingFileName r.
Proof.
  revert s offset r. induction k as [|k IH]; intros s offset r Hchain Ho Hle Hrec Hst Huo Hp.
  - cbn [pump fst]. exists r. replace (offset + Z.of_nat 0 * MAX_CHUNK_SIZE) with offset by lia.
    repeat split; auto.
  - destruct (chainAt_pending s conn file fileName offset Hchain) as (timer & Hpend & _).
    destruct (chain_fire files password s conn file fileName offset timer Hchain Hpend)
      as (_ & Hnext & _).
    pose proof (fire_record s conn file fileName offset timer r Hchain Hpend Hrec) as Hrec1.
    pose proof MAX_CHUNK_SIZE_pos as Hpos.
    assert (Hf : (Z.min (size file) (offset + MAX_CHUNK_SIZE) - offset
                  <? MAX_CHUNK_SIZE) = false) by (apply Z.ltb_ge; lia).
    assert (Hend : Z.min (size file) (offset + MAX_CHUNK_SIZE) = offset + MAX_CHUNK_SIZE)
      by lia.
    cbn [pump]. rewrite Hpend.
    destruct (step files password s (OnTimeout timer)) as [s1 out1].
    cbn [fst snd] in Hnext, Hrec1. cbv zeta in Hrec1. rewrite Hf, Hend in *.
    destruct (IH s1 _ _ (Hnext eq_refl) ltac:(lia) ltac:(lia) Hrec1 Hst eq_refl eq_refl)
      as (r' & Hr' & Hst' & Huo' & Hp' & Hcf & Hfn).
    destruct (pump files password (connId conn) k s1) as [s2 out2]. cbn [fst] in *.
    exists r'.
    replace (offset + Z.of_nat (S k) * MAX_CHUNK_SIZE)
      with (offset + MAX_CHUNK_SIZE + Z.of_nat k * MAX_CHUNK_SIZE) by lia.
    repeat split; auto.
Qed.

(** X9.  A transfer from a byte position of the file ([0 <= offset], and
    [offset <= size] by [validateOffset]) takes [(size - offset) / 131072 + 1]
    chunks: all but the last carry 131072 bytes and the last carries the
    remainder [(size - offset) mod 131072].  So when what is left is an
    exact multiple of the chunk size (an empty file, a Start at the very
    end, a file of exactly 131072 bytes) the transfer ends with an empty
    final chunk.  (Offsets below 0, which [validateOffset] lets through, are
    not covered: there [slice] counts from the end of the file.) *)
Theorem transfer_ends_with_the_remainder_chunk
    (events : list Event) (c : nat) (st : Status)
    (fileName : string) (offset : Z) (file : UploadedFile) (n : nat) :
  let s := reach files password events in
  statusOf s c = Some st ->
  st = UploaderConnectionStatus.Ready \/ st = UploaderConnectionStatus.Paused ->
  validateOffset files fileName offset = Some file ->
  0 <= offset ->
  (chunkCount file offset <= n)%nat ->
  let s0 :=
    fst (step files password s (OnData c (Some (MessageType.Start fileName offset)))) in
  List.map chunkLength (snd (pump files password c n s0))
  = repeat MAX_CHUNK_SIZE (Z.to_nat ((size file - offset) / MAX_CHUNK_SIZE))
    ++ [(size file - offset) mod MAX_CHUNK_SIZE].
Proof.
  intros s Hst Hready Hval Hoff Hn s0.
  pose proof (reach_Inv files password events) as HI. fold s in HI.
  apply statusOf_record in Hst as (r & Hrec & <-).
  destruct (validateOffset_Some files fileName offset file Hval) as (_ & _ & Hsize).
  destruct (start_chain files password s c r fileName offset file HI Hrec Hready Hval)
    as (_ & conn & <- & Hchain).
  fold s0 in Hchain. rewrite (pump_emits files password n s0 conn file fileName offset Hchain).
  rewrite emitted_lengths by (try lia; exact Hn). do 2 f_equal.
  unfold chunkCount. pose proof MAX_CHUNK_SIZE_pos.
  assert (0 <= (size file - offset) / MAX_CHUNK_SIZE) by (apply Z.div_pos; lia). lia.
Qed.

(** X10.  When the last chunk of a transfer has gone out, the connection is
    [Ready] again, its count of completed files has grown by exactly one,
    its progress is back to 0, its total is unchanged, the file name of the
    transfer is still recorded and no chunk timer is pending. *)
Theorem completed_transfer_is_counted_once
    (events : list Event) (c : nat) (r : UploaderConnection)
    (fileName : string) (offset : Z) (file : UploadedFile) (n : nat) :
  let s := reach files password events in
  recordOf s c = Some r ->
  status r = UploaderConnectionStatus.Ready \/ status r = UploaderConnectionStatus.Paused ->
  validateOffset files fileName offset = Some file ->
  0 <= offset ->
  (chunkCount file offset <= n)%nat ->
  let s0 :=
    fst (step files password s (OnData c (Some (MessageType.Start fileName offset)))) in
  let s' := fst (pump files password c n s0) in
  pendingTimer s' c = None
  /\ exists r',
       recordOf s' c = Some r'
       /\ status r' = UploaderConnectionStatus.Ready
       /\ completedFiles r' = S (completedFiles r)
       /\ totalFiles r' = totalFiles r
       /\ currentFileProgress r' = Ratio 0 1
       /\ uploadingFileName r' = Some fileName.
Proof.
  intros s Hrec Hready Hval Hoff Hn s0 s'.
  pose proof (reach_Inv files password events) as HI. fold s in HI.
  destruct (validateOffset_Some files fileName offset file Hval) as (_ & _ & Hsize).
  destruct (start_accepted files password s c r fileName offset file HI Hrec Hready Hval)
    as (cl & Hcl & Hid & Hstep).
  destruct (start_chain files password s c r fileName offset file HI Hrec Hready Hval)
    as (_ & conn & <- & Hchain).
  fold s0 in Hchain.
  assert (Hrec0 : recordOf s0 (connId conn)
                  = Some (withUpload r fileName offset (Ratio offset (size file)))).
  { unfold s0. rewrite Hstep. simpl.
    apply (recordOf_withConns s _ r _ _ Hrec). apply (recordOf_id _ _ _ Hrec). }
  split.
  - destruct (pump_state files password n s0 conn file fileName offset Hchain ltac:(lia))
      as [_ Hdone].
    apply Hdone. unfold chunkCount in Hn. pose proof MAX_CHUNK_SIZE_pos as Hpos.
    assert (Hdiv : 0 <= (size file - offset) / MAX_CHUNK_SIZE) by (apply Z.div_pos; lia).
    pose proof (Z.mul_succ_div_gt (size file - offset) MAX_CHUNK_SIZE Hpos). nia.
  - destruct (pump_completes n s0 conn file fileName offset _ Hchain ltac:(lia) Hrec0 Hn)
      as (r' & Hr' & Hst & Hcf & Htf & Hp & Hfn).
    exists r'. repeat split; auto.
Qed.

(** X11.  While a transfer runs, the record follows it: after [k] chunks
    none of which was the last, the connection is [Uploading], its
    [uploadingOffset] is the start offset plus [k] chunk sizes, its progress
    is that offset over the file size (for an empty file the quotient 0/0),
    and its count of completed files has not moved. *)
Theorem progress_follows_the_chunks
    (events : list Event) (c : nat) (r : UploaderConnection)
    (fileName : string) (offset : Z) (file : UploadedFile) (k : nat) :
  let s := reach files password events in
  recordOf s c = Some r ->
  status r = UploaderConnectionStatus.Ready \/ status r = UploaderConnectionStatus.Paused ->
  validateOffset files fileName offset = Some file ->
  0 <= offset ->
  offset + Z.of_nat k * MAX_CHUNK_SIZE <= size file ->
  let s0 :=
    fst (step files password s (OnData c (Some (MessageType.Start fileName offset)))) in
  exists r',
    recordOf (fst (pump files password c k s0)) c = Some r'
    /\ status r' = UploaderConnectionStatus.Uploading
    /\ uploadingFileName r' = Some fileName
    /\ uploadingOffset r' = Some (offset + Z.of_nat k * MAX_CHUNK_SIZE)
    /\ currentFileProgress r'
       = Ratio (offset + Z.of_nat k * MAX_CHUNK_SIZE) (size file)
    /\ completedFiles r' = completedFiles r.
Proof.
  intros s Hrec Hready Hval Hoff Hle s0.
  pose proof (reach_Inv files password events) as HI. fold s in HI.
  destruct (start_accepted files password s c r fileName offset file HI Hrec Hready Hval)
    as (cl & Hcl & Hid & Hstep).
  destruct (start_chain files password s c r fileName offset file HI Hrec Hready Hval)
    as (_ & conn & <- & Hchain).
  fold s0 in Hchain.
  assert (Hrec0 : recordOf s0 (connId conn)
                  = Some (withUpload r fileName offset (Ratio offset (size file)))).
  { unfold s0. rewrite Hstep. simpl.
    apply (recordOf_withConns s _ r _ _ Hrec). apply (recordOf_id _ _ _ Hrec). }
  destruct (pump_progress k s0 conn file fileName offset _ Hchain Hoff Hle Hrec0
              eq_refl eq_refl eq_refl)
    as (r' & Hr' & Hst & Huo & Hp & Hcf & Hfn).
  exists r'. repeat split; auto.
Qed.

End Bookkeeping.

(** ** The records the session keeps *)

Lemma setRecord_ids c r' cs :
  recId r' = c -> List.map recId (setRecord c r' cs) = List.map recId cs.
Proof.
  intros Hid. induction cs as [|x cs IH]; simpl; [reflexivity|].
  destruct (Nat.eqb_spec (recId x) c); f_equal; try exact IH. congruence.
Qed.

Lemma setRecord_Forall (P : UploaderConnection -> Prop) c r' cs :
  Forall P cs -> P r' -> Forall P (setRecord c r' cs).
Proof.
  intros Hcs Hr. induction Hcs as [|x cs Hx _ IH]; simpl; constructor; auto.
  destruct (Nat.eqb (recId x) c); assumption.
Qed.

Section Records.

Variable files : list UploadedFile.
Variable password : string.

Lemma step_keeps_records s e :
  Inv s ->
  Forall (fun r => totalFiles r = length files) (conns s) ->
  ids (fst (step files password s e)) = (if registers e then [nextConn s] else []) ++ ids s
  /\ nextConn (fst (step files password s e))
     = ((if isConnection e then 1 else 0) + nextConn s)%nat
  /\ Forall (fun r => totalFiles r = length files) (conns (fst (step files password s e))).
Proof.
  intros HI Htot. pose proof (step_local files password s e HI) as Hloc.
  assert (Hcase : forall c r (triple : UploaderConnection * Runtime * list Action),
             recordOf s c = Some r ->
             dataConnection (fst (fst triple)) = dataConnection r
             /\ totalFiles (fst (fst triple)) = totalFiles r ->
             let s' := withConns s (setRecord c (fst (fst triple)) (conns s))
                         (snd (fst triple)) in
             ids s' = ids s /\ nextConn s' = nextConn s
             /\ Forall (fun r => totalFiles r = length files) (conns s')).
  { intros c r triple Hrec [Hdc Htf]. destruct (recordOf_id _ _ _ Hrec) as [Hr Hin].
    simpl. split; [|split; [reflexivity|]].
    - unfold ids. simpl. apply setRecord_ids. unfold recId. rewrite Hdc. exact Hr.
    - apply setRecord_Forall; [exact Htot|]. rewrite Htf.
      rewrite Forall_forall in Htot. apply Htot, list_elem_of_In, Hin. }
  destruct e as [p md|c decoded|c|timer]; simpl registers; simpl isConnection; cbv iota.
  - clear Hloc Hcase. simpl. unfold listener, isReport. simpl.
    destruct md as [t|]; [destruct (String.eqb t "report")|]; simpl;
      repeat split; auto.
  - destruct Hloc as [-> | (c0 & r & triple & _ & Hrec & -> & Hkeep & Hk)]; [auto|].
    apply (Hcase c0 r triple Hrec Hkeep).
  - destruct Hloc as [-> | (c0 & r & triple & _ & Hrec & -> & Hkeep & Hk)]; [auto|].
    apply (Hcase c0 r triple Hrec Hkeep).
  - destruct Hloc as [-> | (c0 & r & triple & _ & Hrec & -> & Hkeep & Hk)]; [auto|].
    apply (Hcase c0 r triple Hrec Hkeep).
Qed.

(** X12.  The session keeps one record for every connection that ever
    arrived without the report flag and never drops one: there are as many
    records as such connections, as many identifiers handed out as
    connections of any kind, each record carries the number of offered
    files as its total and an identifier handed out earlier, and a record
    that is present stays present whatever happens afterwards (a close
    included). *)
Theorem records_are_kept_for_every_connection
    (events : list Event) :
  let s := reach files password events in
  length (conns s) = length (List.filter registers events)
  /\ nextConn s = length (List.filter isConnection events)
  /\ Forall (fun r => totalFiles r = length files /\ (recId r < nextConn s)%nat) (conns s)
  /\ (forall more c,
        is_Some (recordOf s c) ->
        is_Some (recordOf (reach files password (events ++ more)) c)).
Proof.
  assert (Hmain : forall evs,
             length (ids (reach files password evs)) = length (List.filter registers evs)
             /\ nextConn (reach files password evs) = length (List.filter isConnection evs)
             /\ Forall (fun r => totalFiles r = length files)
                  (conns (reach files password evs))).
  { induction evs as [|e evs IH] using rev_ind; [repeat split; constructor|].
    destruct IH as (Hlen & Hnext & Htot). rewrite reach_snoc.
    destruct (step_keeps_records (reach files password evs) e
                (reach_Inv files password evs) Htot) as (Hids & Hn & Htot').
    rewrite Hids, Hn, !List.filter_app, !length_app, Hlen, Hnext. simpl.
    destruct (registers e), (isConnection e); simpl; repeat split; auto; lia. }
  assert (Hsub : forall evs more c,
             In c (ids (reach files password evs)) ->
             In c (ids (reach files password (evs ++ more)))).
  { intros evs more. induction more as [|e more IH] using rev_ind; intros c Hin.
    - rewrite app_nil_r. exact Hin.
    - rewrite app_assoc, reach_snoc.
      destruct (Hmain (evs ++ more)) as (_ & _ & Htot).
      destruct (step_keeps_records _ e (reach_Inv files password (evs ++ more)) Htot)
        as (Hids & _). rewrite Hids. apply in_or_app. right. apply IH, Hin. }
  intros s. destruct (Hmain events) as (Hlen & Hnext & Htot). fold s in Hlen, Hnext, Htot.
  pose proof (reach_Inv files password events) as (_ & Hlt & _). fold s in Hlt.
  split; [|split; [exact Hnext|split]].
  - rewrite <- Hlen. unfold ids. rewrite length_map. reflexivity.
  - rewrite Forall_forall in Htot |- *. intros r Hr. split; [apply Htot, Hr|].
    apply Hlt. unfold ids. apply in_map, list_elem_of_In, Hr.
  - intros more c [r Hrec]. destruct (recordOf_id _ _ _ Hrec) as [Hr Hin].
    assert (Hc : In c (ids (reach files password (events ++ more)))).
    { apply Hsub. rewrite <- Hr. unfold ids. apply in_map, Hin. }
    unfold ids in Hc. apply in_map_iff in Hc as (x & Hx & Hxin).
    unfold recordOf. destruct (List.find _ _) as [y|] eqn:E; [eauto|].
    pose proof (find_none _ _ E x Hxin) as Hn. simpl in Hn.
    apply Nat.eqb_neq in Hn. contradiction.
Qed.

End Records.

(** ** [validateOffset] and the catalog *)

(** X13.  [validateOffset] yields the first offered file that has the name
    asked for and is at least as long as the offset; the offset has no lower
    bound.  With files of the same name a later one is therefore chosen only
    for offsets beyond the size of every earlier one. *)
Theorem validateOffset_picks_the_first_adequate_file
    (files : list UploadedFile) (fileName : string) (offset : Z) (file : UploadedFile) :
  validateOffset files fileName offset = Some file
  <-> exists before after,
        files = before ++ file :: after
        /\ getFileName file = fileName
        /\ offset <= size file
        /\ (forall g, In g before -> getFileName g = fileName -> size g < offset).
Proof.
  unfold validateOffset. split.
  - induction files as [|f files IH]; simpl; [discriminate|].
    destruct (String.eqb_spec (getFileName f) fileName) as [En|En]; simpl.
    + destruct (Z.leb_spec offset (size f)) as [Ho|Ho].
      * intros [= <-]. exists [], files. repeat split; auto. intros g [].
      * intros H. destruct (IH H) as (before & after & -> & Hn & Hs & Hb).
        exists (f :: before), after. repeat split; auto.
        intros g [<-|Hg] Hgn; [exact Ho|apply Hb; assumption].
    + intros H. destruct (IH H) as (before & after & -> & Hn & Hs & Hb).
      exists (f :: before), after. repeat split; auto.
      intros g [<-|Hg] Hgn; [contradiction|apply Hb; assumption].
  - intros (before & after & -> & Hn & Hs & Hb).
    induction before as [|g before IH]; simpl.
    + rewrite <- Hn, String.eqb_refl. simpl.
      destruct (Z.leb_spec offset (size file)); [reflexivity|lia].
    + destruct (String.eqb_spec (getFileName g) fileName) as [En|En]; simpl.
      * pose proof (Hb g (or_introl eq_refl) En).
        destruct (Z.leb_spec offset (size g)); [lia|].
        apply IH. intros g' Hg'. apply Hb. right; exact Hg'.
      * apply IH. intros g' Hg'. apply Hb. right; exact Hg'.
Qed.

Section Catalog.

Variable files : list UploadedFile.
Variable password : string.

(** X14.  What Info advertises can be started.  For every entry of the
    catalog and every offset from 0 to the size it states, a Start from a
    connection that is [Ready] is accepted: nothing is closed, the
    connection is [Uploading], and the first chunk starts at that offset.
    Its bytes are those of the file [validateOffset] picks, the first
    offered file of that name that is at least as long as the offset; this
    is the entry's own file whenever the names of the offered files are
    distinct.  (With two files of one name the later entry is served from
    the earlier file up to the earlier file's size.)  A Start for a name the
    catalog does not list closes the connection. *)
Theorem advertised_files_can_be_started
    (events : list Event) (c : nat) (entry : FileInfo) (offset : Z) :
  let s := reach files password events in
  statusOf s c = Some UploaderConnectionStatus.Ready ->
  In entry (fileInfo files) ->
  0 <= offset <= fi_size entry ->
  let s0 :=
    step files password s (OnData c (Some (MessageType.Start (fi_fileName entry) offset))) in
  (exists served,
     validateOffset files (fi_fileName entry) offset = Some served
     /\ snd s0 = []
     /\ statusOf (fst s0) c = Some UploaderConnectionStatus.Uploading
     /\ (let end_ := Z.min (size served) (offset + MAX_CHUNK_SIZE) in
         snd (pump files password c 1 (fst s0))
         = [DoSend c (MessageType.Chunk (fi_fileName entry) offset
                        (slice served offset end_) (end_ - offset <? MAX_CHUNK_SIZE))])
     /\ (NoDup (List.map getFileName files) ->
         entry = {| fi_fileName := getFileName served;
                    fi_size := size served;
                    fi_type := type served |}))
  /\ (forall fileName,
        ~ In fileName (List.map fi_fileName (fileInfo files)) ->
        snd (step files password s (OnData c (Some (MessageType.Start fileName offset))))
        = [DoClose c]).
Proof.
  intros s Hst Hin Hoff s0.
  pose proof (reach_Inv files password events) as HI. fold s in HI.
  apply statusOf_record in Hst as (r & Hrec & Hst).
  split.
  - unfold fileInfo in Hin. apply in_map_iff in Hin as (f & <- & Hf).
    cbn [fi_fileName fi_size] in *.
    destruct (validateOffset files (getFileName f) offset) as [served|] eqn:Hval.
    2:{ pose proof (validateOffset_None files _ offset Hval f Hf eq_refl). lia. }
    destruct (start_chain files password s c r _ offset served HI Hrec (or_introl Hst) Hval)
      as (Hout & conn & <- & Hchain).
    exists served. split; [reflexivity|]. unfold s0. split; [exact Hout|]. split; [|split].
    + destruct Hchain as (_ & t & r0 & _ & _ & Hr0 & Hs0).
      unfold statusOf. rewrite Hr0, Hs0. reflexivity.
    + rewrite (pump_emits files password 1 _ conn served _ offset Hchain).
      unfold emitted. cbn [chunksFrom List.map].
      destruct (_ <? MAX_CHUNK_SIZE); reflexivity.
    + intros Hnd. destruct (validateOffset_Some files _ offset served Hval) as (Hs & Hn & _).
      rewrite (same_name_same_file files f served Hnd Hf Hs (eq_sym Hn)). reflexivity.
  - intros fileName Hnot.
    assert (Hval : validateOffset files fileName offset = None).
    { destruct (validateOffset files fileName offset) as [file|] eqn:E; [|reflexivity].
      apply validateOffset_Some in E as (Hf & Hn & _). exfalso. apply Hnot.
      unfold fileInfo. rewrite map_map. simpl. rewrite <- Hn.
      apply (in_map getFileName), Hf. }
    apply (start_rejected files password s c r fileName offset HI Hrec Hval).
Qed.

End Catalog.

(** ** The channel hook: links, renewal, unload *)

Lemma append_cancel (p a b : string) : String.append p a = String.append p b -> a = b.
Proof.
  induction p as [|ch p IH]; simpl; [auto|]. intros [= H]. exact (IH H).
Qed.

Lemma truthy_Some (v : option string) :
  UploaderChannel.truthy v = true <-> exists s, v = Some s /\ s <> ""%string.
Proof.
  unfold UploaderChannel.truthy. destruct v as [s|].
  - destruct (String.eqb_spec s "") as [->|Hne]; simpl; split.
    + discriminate.
    + intros (s' & [= <-] & Hs). contradiction.
    + eauto.
    + reflexivity.
  - split; [discriminate|]. intros (s & [=] & _).
Qed.

Section ChannelFacts.

Import UploaderChannel.

Variable data : option ChannelData.

(** X15.  The links the hook hands out: a link is undefined exactly when its
    slug is missing or empty, and two links of the same page are equal only
    if their slugs are; so the long and the short link of a channel differ
    whenever its two slugs do. *)
Theorem links_are_defined_by_their_slugs (location : Location) :
  (longURL data location = None <-> truthy (longSlugOf data) = false)
  /\ (shortURL data location = None <-> truthy (shortSlugOf data) = false)
  /\ (forall a b, generateURL location a = generateURL location b -> a = b)
  /\ (forall url,
        longURL data location = Some url -> shortURL data location = Some url ->
        longSlugOf data = shortSlugOf data).
Proof.
  split; [|split; [|split]].
  - unfold longURL. destruct (longSlugOf data) as [slug|]; [|tauto].
    destruct (truthy (Some slug)); split; congruence.
  - unfold shortURL. destruct (shortSlugOf data) as [slug|]; [|tauto].
    destruct (truthy (Some slug)); split; congruence.
  - intros a b. unfold generateURL. apply append_cancel.
  - intros url. unfold longURL, shortURL.
    destruct (longSlugOf data) as [l|]; [|discriminate].
    destruct (shortSlugOf data) as [s|]; [|destruct (truthy _); discriminate].
    destruct (truthy (Some l)); [|discriminate].
    destruct (truthy (Some s)); [|discriminate].
    intros [= <-] [= H]. f_equal. symmetry.
    unfold generateURL in H. exact (append_cancel _ _ _ H).
Qed.

Lemma run_Armed (e : Renewal) :
  (0 < nextTimer e)%nat -> pending e = ∅ -> Armed (run e).
Proof.
  intros Hpos Hnone. exists (nextTimer e). simpl. rewrite Hnone.
  split; [lia|]. split; [reflexivity|]. apply union_empty_r_L.
Qed.

Lemma renewalEffect_Armed (firstTimer : nat) (e0 : Renewal) :
  (0 < firstTimer)%nat -> renewalEffect data firstTimer = Some e0 ->
  Armed e0
  /\ exists slug s,
       shortSlugOf data = Some slug /\ slug <> ""%string
       /\ secretOf data = Some s /\ s <> ""%string.
Proof.
  unfold renewalEffect. intros Hpos.
  destruct (truthy (secretOf data)) eqn:Hs; [|discriminate].
  destruct (truthy (shortSlugOf data)) eqn:Hl; [|discriminate].
  simpl. intros [= <-]. split; [apply run_Armed; [exact Hpos|reflexivity]|].
  apply truthy_Some in Hs as (s & Hs & Hsne). apply truthy_Some in Hl as (l & Hl & Hlne).
  eauto 8.
Qed.

Lemma onTimeout_Armed (e : Renewal) (t timer : nat) :
  Armed e -> timeout e = Some t ->
  onTimeout data timer e
  = (if decide (timer = t) then run {| timeout := timeout e;
                                      pending := pending e ∖ {[timer]};
                                      nextTimer := nextTimer e |}
     else e,
     if decide (timer = t) then mutate data (secretOf data) else [])
  /\ Armed (fst (onTimeout data timer e)).
Proof.
  intros (t' & Hpos & Ht & Hp) Ht'. rewrite Ht in Ht'. injection Ht' as ->.
  unfold onTimeout. rewrite Hp.
  destruct (decide (timer = t)) as [->|Hne].
  - rewrite decide_True by (apply elem_of_singleton; reflexivity). split; [reflexivity|].
    apply run_Armed; simpl; [lia|apply difference_diag_L].
  - rewrite decide_False by (rewrite elem_of_singleton; exact Hne). split; [reflexivity|].
    exists t. auto.
Qed.

Lemma effectRun_app (e : Renewal) (evs more : list EffectEvent) :
  effectRun data e (evs ++ more)
  = (fst (effectRun data (fst (effectRun data e evs)) more),
     snd (effectRun data e evs)
     ++ snd (effectRun data (fst (effectRun data e evs)) more)).
Proof.
  revert e. induction evs as [|ev evs IH]; intros e; simpl.
  - destruct (effectRun data e more); reflexivity.
  - destruct (effectStep data e ev) as [e1 out]. rewrite IH.
    destruct (effectRun data e1 evs) as [e2 outs]. simpl.
    rewrite app_assoc. reflexivity.
Qed.

Lemma effectRun_Armed (e : Renewal) (evs : list EffectEvent) :
  Armed e -> Forall (fun ev => ev <> Cleanup) evs ->
  Armed (fst (effectRun data e evs))
  /\ Forall (fun rq => In rq (mutate data (secretOf data))) (snd (effectRun data e evs)).
Proof.
  intros Ha Hevs. revert e Ha.
  induction Hevs as [|ev evs Hev _ IH]; intros e Ha; simpl; [split; [exact Ha|constructor]|].
  destruct ev as [timer|]; [|contradiction]. simpl.
  destruct Ha as (t & Hpos & Ht & Hp).
  destruct (onTimeout_Armed e t timer (ex_intro _ t (conj Hpos (conj Ht Hp))) Ht)
    as [Heq Ha1].
  destruct (onTimeout data timer e) as [e1 out]. injection Heq as -> ->.
  destruct (IH _ Ha1) as [Ha2 Hout].
  destruct (effectRun data _ evs) as [e2 outs]. simpl in *.
  split; [exact Ha2|]. apply Forall_app. split; [|exact Hout].
  destruct (decide (timer = t)); [|constructor].
  constructor; [left; reflexivity|constructor].
Qed.

Lemma effectStep_stopped (e : Renewal) (ev : EffectEvent) :
  pending e = ∅ ->
  pending (fst (effectStep data e ev)) = ∅ /\ snd (effectStep data e ev) = [].
Proof.
  intros Hp. destruct ev as [timer|]; simpl.
  - unfold onTimeout. rewrite Hp. rewrite decide_False by apply not_elem_of_empty. auto.
  - split; [|reflexivity]. unfold cleanup. destruct (timeout e) as [t|]; [|exact Hp].
    destruct (Nat.eqb t 0); [exact Hp|]. simpl. rewrite Hp. apply difference_disjoint_L.
    apply disjoint_empty_l.
Qed.

Lemma effectRun_stopped (e : Renewal) (evs : list EffectEvent) :
  pending e = ∅ ->
  pending (fst (effectRun data e evs)) = ∅ /\ snd (effectRun data e evs) = [].
Proof.
  revert e. induction evs as [|ev evs IH]; intros e Hp; simpl; [auto|].
  pose proof (effectStep_stopped e ev Hp) as Hstep.
  destruct (effectStep data e ev) as [e1 out]. simpl in Hstep. destruct Hstep as [Hp1 ->].
  destruct (IH e1 Hp1) as [Hp2 Hout].
  destruct (effectRun data e1 evs) as [e2 outs]. simpl in *. auto.
Qed.

(** X16.  The renewal timer.  The effect arms a timer only when the channel
    has a non-empty secret and short slug.  From then on, until its cleanup,
    exactly one timer is pending (the one [timeout] names); when it comes
    due one request goes to /api/renew, carrying that short slug and that
    secret, and the next timer is armed; a timer that is not pending sends
    nothing; and nothing else is ever sent. *)
Theorem renewal_sends_slug_and_secret_once_per_interval
    (firstTimer : nat) (e0 : Renewal) (evs : list EffectEvent) :
  (0 < firstTimer)%nat ->
  renewalEffect data firstTimer = Some e0 ->
  Forall (fun ev => ev <> Cleanup) evs ->
  let e := fst (effectRun data e0 evs) in
  exists t slug s,
    shortSlugOf data = Some slug /\ slug <> ""%string
    /\ secretOf data = Some s /\ s <> ""%string
    /\ timeout e = Some t /\ pending e = {[t]}
    /\ (forall timer,
          snd (effectStep data e (Timeout timer))
          = if decide (timer = t)
            then [Fetch "/api/renew" (<["slug"%string := slug]> (<["secret"%string := s]> ∅))]
            else [])
    /\ (exists t', timeout (fst (effectStep data e (Timeout t))) = Some t'
                   /\ pending (fst (effectStep data e (Timeout t))) = {[t']}
                   /\ t' <> t)
    /\ Forall (fun rq =>
                 rq = Fetch "/api/renew"
                        (<["slug"%string := slug]> (<["secret"%string := s]> ∅)))
         (snd (effectRun data e0 evs)).
Proof.
  intros Hpos Heff Hevs e.
  destruct (renewalEffect_Armed firstTimer e0 Hpos Heff)
    as (Ha0 & slug & s & Hslug & Hne & Hs & Hsne).
  destruct (effectRun_Armed e0 evs Ha0 Hevs) as [Ha Hout]. fold e in Ha.
  assert (Hmut : mutate data (secretOf data)
                 = [Fetch "/api/renew"
                      (<["slug"%string := slug]> (<["secret"%string := s]> ∅))]).
  { unfold mutate. rewrite Hslug, Hs. reflexivity. }
  destruct Ha as (t & Ht0 & Ht & Hp).
  exists t, slug, s. repeat (split; [assumption|]).
  assert (Harmed : Armed e) by (exists t; auto).
  split; [|split].
  - intros timer. destruct (onTimeout_Armed e t timer Harmed Ht) as [Heq _].
    simpl. rewrite Heq. simpl. rewrite Hmut. reflexivity.
  - destruct (onTimeout_Armed e t t Harmed Ht) as [Heq _].
    simpl. rewrite Heq. rewrite decide_True by reflexivity. simpl.
    exists (nextTimer e). split; [reflexivity|].
    split; [rewrite Hp, difference_diag_L; apply union_empty_r_L|lia].
  - rewrite Hmut in Hout. eapply Forall_impl; [exact Hout|].
    simpl. intros rq [<-|[]]. reflexivity.
Qed.

(** X17.  The cleanup of the renewal effect ends the renewals: whatever
    happened before, after the cleanup no timer of the effect is pending,
    and no later event makes it send a request. *)
Theorem cleanup_ends_the_renewals
    (firstTimer : nat) (e0 : Renewal) (evs more : list EffectEvent) :
  (0 < firstTimer)%nat ->
  renewalEffect data firstTimer = Some e0 ->
  let e := fst (effectRun data e0 (evs ++ [Cleanup])) in
  pending e = ∅
  /\ snd (effectRun data e more) = []
  /\ snd (effectRun data e0 (evs ++ Cleanup :: more))
     = snd (effectRun data e0 evs).
Proof.
  intros Hpos Heff e.
  destruct (renewalEffect_Armed firstTimer e0 Hpos Heff) as (Ha0 & _).
  assert (Hgen : forall evs e1,
             Armed e1 \/ pending e1 = ∅ ->
             pending (fst (effectRun data e1 (evs ++ [Cleanup]))) = ∅).
  { clear. intros evs. induction evs as [|ev evs IH]; intros e1 He1.
    - simpl. unfold cleanup. destruct He1 as [(t & Hpos & -> & Hp)|Hp].
      + destruct (Nat.eqb_spec t 0); [lia|]. simpl. rewrite Hp. apply difference_diag_L.
      + apply (effectStep_stopped e1 Cleanup Hp).
    - change ((ev :: evs) ++ [Cleanup]) with (ev :: (evs ++ [Cleanup])).
      cbn [effectRun].
      assert (Hnext : Armed (fst (effectStep data e1 ev))
                      \/ pending (fst (effectStep data e1 ev)) = ∅).
      { destruct He1 as [Ha|Hp].
        - destruct ev as [timer|].
          + left. destruct Ha as (t & Hpos & Ht & Hp).
            apply (onTimeout_Armed e1 t timer (ex_intro _ t (conj Hpos (conj Ht Hp))) Ht).
          + right. simpl. unfold cleanup. destruct Ha as (t & Hpos & -> & Hp).
            destruct (Nat.eqb_spec t 0); [lia|]. simpl. rewrite Hp. apply difference_diag_L.
        - right. apply (effectStep_stopped e1 ev Hp). }
      destruct (effectStep data e1 ev) as [e2 out]. specialize (IH e2 Hnext).
      destruct (effectRun data e2 (evs ++ [Cleanup])) as [e3 outs]. exact IH. }
  assert (Hp : pending e = ∅) by (apply Hgen; left; exact Ha0).
  destruct (effectRun_stopped e more Hp) as [_ Hout].
  split; [exact Hp|]. split; [exact Hout|].
  change (Cleanup :: more) with ([Cleanup] ++ more).
  rewrite app_assoc, effectRun_app. cbn [snd]. fold e. rewrite Hout, app_nil_r.
  rewrite effectRun_app. simpl. rewrite app_nil_r. reflexivity.
Qed.

(** X18.  The beacon of the unload handler and the destroy route.  When the
    page unloads, the hook sends a beacon only if the channel has a
    non-empty short slug and secret; the beacon goes to /api/destroy and
    carries the short slug and nothing else (no secret).  The route neither
    throws on it nor answers 400: it calls [destroyChannel] on that slug and answers
    200 with success, or 500 'Failed to destroy channel' if that call was
    rejected. *)
Theorem unload_beacon_is_accepted_by_the_destroy_route
    {Repo : Type} (destroy : DestroyRoute.Json -> Repo -> Repo * bool) (repo : Repo)
    (rq : Request) :
  In rq (beforeunload data) ->
  exists slug,
    shortSlugOf data = Some slug /\ slug <> ""%string
    /\ truthy (secretOf data) = true
    /\ beforeunload data = [rq]
    /\ rq = SendBeacon "/api/destroy" {[ "slug"%string := slug ]}
    /\ DestroyRoute.POST destroy (received {[ "slug"%string := slug ]}) repo
       = (DestroyRoute.Returns
            (if snd (destroy (DestroyRoute.JString slug) repo)
             then {| DestroyRoute.body := DestroyRoute.SuccessBody true;
                     DestroyRoute.httpStatus := 200 |}
             else {| DestroyRoute.body :=
                       DestroyRoute.ErrorBody "Failed to destroy channel";
                     DestroyRoute.httpStatus := 500 |}),
          fst (destroy (DestroyRoute.JString slug) repo)).
Proof.
  unfold beforeunload.
  destruct (truthy (shortSlugOf data)) eqn:Hl; [|intros []].
  destruct (truthy (secretOf data)) eqn:Hs; [|intros []].
  apply truthy_Some in Hl as (slug & Hslug & Hne).
  simpl. unfold handleUnload. rewrite Hslug. simpl. intros [<-|[]].
  exists slug. split; [reflexivity|]. split; [exact Hne|]. split; [reflexivity|].
  rewrite insert_empty. split; [reflexivity|]. split; [reflexivity|].
  unfold DestroyRoute.POST, received, DestroyRoute.slugOf.
  rewrite map_fmap_singleton, lookup_singleton_eq. cbn [DestroyRoute.truthy].
  destruct (String.eqb_spec slug "") as [->|_]; [contradiction|]. cbn [negb].
  destruct (destroy (DestroyRoute.JString slug) repo) as [repo' []]; reflexivity.
Qed.

End ChannelFacts.

(** * The further properties at work *)

(** X2: garbage from connection 0 while connection 1 is [Ready]. *)
Lemma event_leaves_other_connections_alone_witness :
  let events :=
    [OnConnection "a" None; OnConnection "b" None; OnData 1 (Some hello)] in
  let s := reach [notes] "" events in
  eventConn s (OnData 0 None) <> Some 1%nat
  /\ recordOf (fst (step [notes] "" s (OnData 0 None))) 1 = recordOf s 1
  /\ pendingTimer (fst (step [notes] "" s (OnData 0 None))) 1 = pendingTimer s 1
  /\ Forall (fun a => actionConn a <> Some 1%nat) (snd (step [notes] "" s (OnData 0 None))).
Proof.
  intros events s.
  assert (H : eventConn s (OnData 0 None) <> Some 1%nat) by discriminate.
  split; [exact H|].
  exact (event_leaves_other_connections_alone [notes] "" events (OnData 0 None) 1 H).
Defined.

(** X3: the timer an accepted Start has set. *)
Lemma at_most_one_chunk_timer_per_connection_witness :
  let s :=
    reach [notes] ""
      [OnConnection "peer" None; OnData 0 (Some hello);
       OnData 0 (Some (MessageType.Start "notes.txt" 0))] in
  let task :=
    {| task_conn := peer0; task_file := notes;
       task_fileName := "notes.txt"; task_offset := 0 |} in
  timeouts (runtime s) !! 1%nat = Some task
  /\ pendingTimer s 0 = Some 1%nat
  /\ (statusOf s 0 = Some UploaderConnectionStatus.Uploading
      \/ statusOf s 0 = Some UploaderConnectionStatus.Closed).
Proof.
  intros s task.
  assert (H : timeouts (runtime s) !! 1%nat = Some task) by reflexivity.
  split; [exact H|].
  destruct (at_most_one_chunk_timer_per_connection [notes] ""
              [OnConnection "peer" None; OnData 0 (Some hello);
               OnData 0 (Some (MessageType.Start "notes.txt" 0))] 1 task H)
    as (Hpend & Hst & _).
  split; [exact Hpend|exact Hst].
Defined.

(** X4: a Pause sent to a connection that is [Ready]. *)
Lemma control_messages_out_of_state_are_dropped_witness :
  let s := reach [notes] "" [OnConnection "peer" None; OnData 0 (Some hello)] in
  statusOf s 0 = Some UploaderConnectionStatus.Ready
  /\ step [notes] "" s (OnData 0 (Some MessageType.Pause)) = (s, []).
Proof.
  intros s.
  assert (H : statusOf s 0 = Some UploaderConnectionStatus.Ready) by reflexivity.
  split; [exact H|].
  destruct (control_messages_out_of_state_are_dropped [notes] ""
              [OnConnection "peer" None; OnData 0 (Some hello)] 0
              UploaderConnectionStatus.Ready H) as (Hpause & _).
  apply Hpause. discriminate.
Defined.

(** X5: Done, the close that follows, and a Start after it. *)
Lemma done_closes_the_connection_for_good_witness :
  let s := reach [notes] "" [OnConnection "peer" None; OnData 0 (Some hello)] in
  let finished := step [notes] "" s (OnData 0 (Some MessageType.Done)) in
  let closed := step [notes] "" (fst finished) (OnClose 0) in
  statusOf s 0 = Some UploaderConnectionStatus.Ready
  /\ validateOffset [notes] "notes.txt" 0 = Some notes
  /\ snd finished = [DoClose 0]
  /\ statusOf (fst closed) 0 = Some UploaderConnectionStatus.Done
  /\ step [notes] "" (fst closed) (OnData 0 (Some (MessageType.Start "notes.txt" 0)))
     = (fst closed, []).
Proof.
  intros s finished closed.
  assert (H : statusOf s 0 = Some UploaderConnectionStatus.Ready) by reflexivity.
  assert (Hval : validateOffset [notes] "notes.txt" 0 = Some notes) by reflexivity.
  split; [exact H|]. split; [exact Hval|].
  destruct (done_closes_the_connection_for_good [notes] ""
              [OnConnection "peer" None; OnData 0 (Some hello)] 0 H)
    as (Hout & _ & _ & Hst & Hstart).
  split; [exact Hout|]. split; [exact Hst|]. exact (Hstart "notes.txt"%string 0 notes Hval).
Defined.

(** X6: a UsePassword sent to a share without password, after the
    handshake. *)
Lemma password_outside_the_gate_changes_nothing_but_is_answered_witness :
  let s := reach [notes] "" [OnConnection "peer" None; OnData 0 (Some hello)] in
  statusOf s 0 = Some UploaderConnectionStatus.Ready
  /\ step [notes] "" s (OnData 0 (Some (MessageType.UsePassword "guess")))
     = (s, [DoSend 0 (if String.eqb "guess" ""
                      then MessageType.Info (fileInfo [notes])
                      else MessageType.PasswordRequired (Some "Invalid password"%string))]).
Proof.
  intros s.
  assert (H : statusOf s 0 = Some UploaderConnectionStatus.Ready) by reflexivity.
  split; [exact H|].
  apply (password_outside_the_gate_changes_nothing_but_is_answered [notes] ""
           [OnConnection "peer" None; OnData 0 (Some hello)] 0
           UploaderConnectionStatus.Ready "guess" H); discriminate.
Defined.

(** X7: two wrong candidates, then the password. *)
Lemma wrong_passwords_never_lock_a_connection_out_witness :
  let s := reach [notes] "hunter2" [OnConnection "peer" None; OnData 0 (Some hello)] in
  let tries :=
    List.map (fun w => OnData 0 (Some (MessageType.UsePassword w)))
      ["Hunter2"; "hunter"]%string in
  let s' := fst (run [notes] "hunter2" s tries) in
  let last := step [notes] "hunter2" s' (OnData 0 (Some (MessageType.UsePassword "hunter2"))) in
  (statusOf s 0 = Some UploaderConnectionStatus.Authenticating
   \/ statusOf s 0 = Some UploaderConnectionStatus.InvalidPassword)
  /\ Forall (fun w => w <> "hunter2"%string) ["Hunter2"; "hunter"]%string
  /\ snd last = [DoSend 0 (MessageType.Info (fileInfo [notes]))]
  /\ statusOf (fst last) 0 = Some UploaderConnectionStatus.Ready.
Proof.
  intros s tries s' last.
  assert (H1 : statusOf s 0 = Some UploaderConnectionStatus.Authenticating
               \/ statusOf s 0 = Some UploaderConnectionStatus.InvalidPassword)
    by (left; reflexivity).
  assert (H2 : Forall (fun w => w <> "hunter2"%string) ["Hunter2"; "hunter"]%string)
    by (repeat constructor; discriminate).
  split; [exact H1|]. split; [exact H2|].
  destruct (wrong_passwords_never_lock_a_connection_out [notes] "hunter2"
              [OnConnection "peer" None; OnData 0 (Some hello)] 0
              ["Hunter2"; "hunter"]%string H1 H2) as (_ & _ & Hout & Hst).
  split; [exact Hout|exact Hst].
Defined.

(** X9: a Start at the very end of the three-byte file is answered with one
    empty, final chunk. *)
Lemma transfer_ends_with_the_remainder_chunk_witness :
  let s := reach [notes] "" [OnConnection "peer" None; OnData 0 (Some hello)] in
  let s0 := fst (step [notes] "" s (OnData 0 (Some (MessageType.Start "notes.txt" 3)))) in
  statusOf s 0 = Some UploaderConnectionStatus.Ready
  /\ validateOffset [notes] "notes.txt" 3 = Some notes
  /\ 0 <= 3
  /\ (chunkCount notes 3 <= 1)%nat
  /\ List.map chunkLength (snd (pump [notes] "" 0 1 s0)) = [0].
Proof.
  intros s s0.
  assert (H1 : statusOf s 0 = Some UploaderConnectionStatus.Ready) by reflexivity.
  assert (H2 : validateOffset [notes] "notes.txt" 3 = Some notes) by reflexivity.
  assert (H3 : 0 <= 3) by lia.
  assert (H4 : (chunkCount notes 3 <= 1)%nat) by (vm_compute; lia).
  split; [exact H1|]. split; [exact H2|]. split; [exact H3|]. split; [exact H4|].
  unfold s0, s.
  rewrite (transfer_ends_with_the_remainder_chunk [notes] ""
             [OnConnection "peer" None; OnData 0 (Some hello)] 0
             UploaderConnectionStatus.Ready "notes.txt" 3 notes 1
             H1 (or_introl eq_refl) H2 H3 H4).
  reflexivity.
Defined.

(** X10: the three-byte file, fetched whole. *)
Lemma completed_transfer_is_counted_once_witness :
  let s := reach [notes] "" [OnConnection "peer" None; OnData 0 (Some hello)] in
  let s0 := fst (step [notes] "" s (OnData 0 (Some (MessageType.Start "notes.txt" 0)))) in
  let s' := fst (pump [notes] "" 0 1 s0) in
  recordOf s 0 = Some firefoxReady
  /\ validateOffset [notes] "notes.txt" 0 = Some notes
  /\ (chunkCount notes 0 <= 1)%nat
  /\ pendingTimer s' 0 = None
  /\ exists r',
       recordOf s' 0 = Some r'
       /\ status r' = UploaderConnectionStatus.Ready
       /\ completedFiles r' = 1%nat
       /\ totalFiles r' = 1%nat
       /\ currentFileProgress r' = Ratio 0 1
       /\ uploadingFileName r' = Some "notes.txt"%string.
Proof.
  intros s s0 s'.
  assert (H1 : recordOf s 0 = Some firefoxReady) by reflexivity.
  assert (H2 : validateOffset [notes] "notes.txt" 0 = Some notes) by reflexivity.
  assert (H3 : 0 <= 0) by lia.
  assert (H4 : (chunkCount notes 0 <= 1)%nat) by (vm_compute; lia).
  split; [exact H1|]. split; [exact H2|]. split; [exact H4|].
  exact (completed_transfer_is_counted_once [notes] ""
           [OnConnection "peer" None; OnData 0 (Some hello)] 0 firefoxReady
           "notes.txt" 0 notes 1 H1 (or_introl eq_refl) H2 H3 H4).
Defined.

(** X11: the 300000-byte file after two of its three chunks. *)
Lemma progress_follows_the_chunks_witness :
  let s := reach [video] "" [OnConnection "peer" None; OnData 0 (Some hello)] in
  let s0 := fst (step [video] "" s (OnData 0 (Some (MessageType.Start "video.bin" 0)))) in
  recordOf s 0 = Some firefoxReady
  /\ validateOffset [video] "video.bin" 0 = Some video
  /\ 0 + Z.of_nat 2 * MAX_CHUNK_SIZE <= size video
  /\ exists r',
       recordOf (fst (pump [video] "" 0 2 s0)) 0 = Some r'
       /\ status r' = UploaderConnectionStatus.Uploading
       /\ uploadingFileName r' = Some "video.bin"%string
       /\ uploadingOffset r' = Some (0 + Z.of_nat 2 * MAX_CHUNK_SIZE)
       /\ currentFileProgress r' = Ratio (0 + Z.of_nat 2 * MAX_CHUNK_SIZE) (size video)
       /\ completedFiles r' = 0%nat.
Proof.
  intros s s0.
  assert (H1 : recordOf s 0 = Some firefoxReady) by reflexivity.
  assert (H2 : validateOffset [video] "video.bin" 0 = Some video) by reflexivity.
  assert (H3 : 0 <= 0) by lia.
  assert (H4 : 0 + Z.of_nat 2 * MAX_CHUNK_SIZE <= size video).
  { rewrite size_video. unfold MAX_CHUNK_SIZE. lia. }
  split; [exact H1|]. split; [exact H2|]. split; [exact H4|].
  exact (progress_follows_the_chunks [video] ""
           [OnConnection "peer" None; OnData 0 (Some hello)] 0 firefoxReady
           "video.bin" 0 video 2 H1 (or_introl eq_refl) H2 H3 H4).
Defined.

(** X14: the catalog entry of the three-byte file, started at byte 2. *)
Lemma advertised_files_can_be_started_witness :
  let s := reach [notes] "" [OnConnection "peer" None; OnData 0 (Some hello)] in
  let s0 := step [notes] "" s (OnData 0 (Some (MessageType.Start "notes.txt" 2))) in
  statusOf s 0 = Some UploaderConnectionStatus.Ready
  /\ In notesInfo (fileInfo [notes])
  /\ 0 <= 2 <= fi_size notesInfo
  /\ snd s0 = []
  /\ statusOf (fst s0) 0 = Some UploaderConnectionStatus.Uploading
  /\ snd (pump [notes] "" 0 1 (fst s0))
     = [DoSend 0 (MessageType.Chunk "notes.txt" 2 ["!"]%byte true)].
Proof.
  intros s s0.
  assert (H1 : statusOf s 0 = Some UploaderConnectionStatus.Ready) by reflexivity.
  assert (H2 : In notesInfo (fileInfo [notes])) by (left; reflexivity).
  assert (H3 : 0 <= 2 <= fi_size notesInfo) by (simpl; lia).
  split; [exact H1|]. split; [exact H2|]. split; [exact H3|].
  destruct (advertised_files_can_be_started [notes] ""
              [OnConnection "peer" None; OnData 0 (Some hello)] 0 notesInfo 2
              H1 H2 H3) as ((served & Hval & Hout & Hst & Hchunk & _) & _).
  split; [exact Hout|]. split; [exact Hst|].
  assert (Hserved : served = notes).
  { change (validateOffset [notes] "notes.txt" 2 = Some served) in Hval.
    injection Hval as <-. reflexivity. }
  rewrite Hserved in Hchunk. exact Hchunk.
Defined.

(** X16: the renewal timer of the sample channel; timer 1 comes due, a
    timer that was never set is reported, timer 2 comes due. *)
Lemma renewal_sends_slug_and_secret_once_per_interval_witness :
  let e0 :=
    UploaderChannel.run
      {| UploaderChannel.timeout := None;
         UploaderChannel.pending := ∅;
         UploaderChannel.nextTimer := 1 |} in
  let evs :=
    [UploaderChannel.Timeout 1; UploaderChannel.Timeout 9; UploaderChannel.Timeout 2] in
  (0 < 1)%nat
  /\ UploaderChannel.renewalEffect (Some sampleData) 1 = Some e0
  /\ Forall (fun ev => ev <> UploaderChannel.Cleanup) evs
  /\ Forall (fun rq =>
               exists slug s,
                 rq = UploaderChannel.Fetch "/api/renew"
                        (<["slug"%string := slug]> (<["secret"%string := s]> ∅)))
       (snd (UploaderChannel.effectRun (Some sampleData) e0 evs)).
Proof.
  intros e0 evs.
  assert (H1 : (0 < 1)%nat) by lia.
  assert (H2 : UploaderChannel.renewalEffect (Some sampleData) 1 = Some e0) by reflexivity.
  assert (H3 : Forall (fun ev => ev <> UploaderChannel.Cleanup) evs)
    by (repeat constructor; discriminate).
  split; [exact H1|]. split; [exact H2|]. split; [exact H3|].
  destruct (renewal_sends_slug_and_secret_once_per_interval (Some sampleData) 1 e0 evs
              H1 H2 H3) as (t & slug & s & _ & _ & _ & _ & _ & _ & _ & _ & Hout).
  eapply Forall_impl; [exact Hout|]. simpl. intros rq ->. eauto.
Defined.

(** X17: the cleanup after one renewal, and what comes after it. *)
Lemma cleanup_ends_the_renewals_witness :
  let e0 :=
    UploaderChannel.run
      {| UploaderChannel.timeout := None;
         UploaderChannel.pending := ∅;
         UploaderChannel.nextTimer := 1 |} in
  let e :=
    fst (UploaderChannel.effectRun (Some sampleData) e0
           ([UploaderChannel.Timeout 1] ++ [UploaderChannel.Cleanup])) in
  (0 < 1)%nat
  /\ UploaderChannel.renewalEffect (Some sampleData) 1 = Some e0
  /\ UploaderChannel.pending e = ∅
  /\ snd (UploaderChannel.effectRun (Some sampleData) e
            [UploaderChannel.Timeout 2; UploaderChannel.Timeout 1]) = [].
Proof.
  intros e0 e.
  assert (H1 : (0 < 1)%nat) by lia.
  assert (H2 : UploaderChannel.renewalEffect (Some sampleData) 1 = Some e0) by reflexivity.
  split; [exact H1|]. split; [exact H2|].
  destruct (cleanup_ends_the_renewals (Some sampleData) 1 e0
              [UploaderChannel.Timeout 1]
              [UploaderChannel.Timeout 2; UploaderChannel.Timeout 1] H1 H2)
    as (Hp & Hout & _).
  split; [exact Hp|exact Hout].
Defined.

(** X18: the beacon of the sample channel, received by a route whose
    repository rejects the call. *)
Lemma unload_beacon_is_accepted_by_the_destroy_route_witness :
  let rq :=
    UploaderChannel.SendBeacon "/api/destroy"
      (UploaderChannel.jsonField "slug" (Some "k3ym9x"%string) ∅) in
  let destroy :=
    fun (_ : DestroyRoute.Json) (repo : list string) => (repo, false) in
  In rq (UploaderChannel.beforeunload (Some sampleData))
  /\ exists slug,
       rq = UploaderChannel.SendBeacon "/api/destroy" {[ "slug"%string := slug ]}
       /\ fst (DestroyRoute.POST destroy
                 (UploaderChannel.received {[ "slug"%string := slug ]})
                 ["k3ym9x"%string])
          = DestroyRoute.Returns
              {| DestroyRoute.body := DestroyRoute.ErrorBody "Failed to destroy channel";
                 DestroyRoute.httpStatus := 500 |}.
Proof.
  intros rq destroy.
  assert (H : In rq (UploaderChannel.beforeunload (Some sampleData)))
    by (left; reflexivity).
  split; [exact H|].
  destruct (unload_beacon_is_accepted_by_the_destroy_route (Some sampleData)
              destroy ["k3ym9x"%string] rq H)
    as (slug & _ & _ & _ & _ & Hrq & Hpost).
  exists slug. split; [exact Hrq|]. rewrite Hpost. reflexivity.
Defined.
